(** * nlane transactional memory: the transaction engine, verified

    A shallow embedding of the word-based software transactional memory:
    the transaction engine and the public interface
    ([include/nlane/transactional/tr_variable.hpp], which carries
    [transaction_engine.hpp] and [transactional.hpp]), the stripe locks and
    global counters ([transaction_support.hpp], [transaction_support.cpp])
    and the set-up of the thread engine ([TransactionEngine::Init]).

    The embedding follows one engine (one thread) running against the shared
    world: the stripe lock table, the target memory and the two global
    counters.  The world is part of the state that every engine operation
    threads through; what other threads do between two calls is an explicit
    edit of that world.  The two spin loops of the engine ([ReadWord] waiting
    for a read-version lock bit, [WriteWord] waiting for a write lock) take a
    bound on their iterations and report [Spinning] when it is used up.

    64-bit unsigned values ([Word], [Version], [size_t]) are integers in
    [0, 2^64) with the wrap-around written out. *)

From Stdlib Require Import ZArith String Bool Lia.
From stdpp Require Import base list functions.

Local Open Scope Z_scope.

(** ** Machine words *)

Definition max64 : Z := Z.ones 64.
Definition wrap64 (z : Z) : Z := z mod 2 ^ 64.
(** [~x] on a 64-bit unsigned value. *)
Definition not64 (x : Z) : Z := Z.lxor x max64.

(** [std::numeric_limits<Version>::max()] *)
Definition Version_max : Z := max64.

(** ** transaction_support.hpp: the stripe locks *)

Module ReadLock.
(** [max() ^ (max() >> 1)]: the top bit. *)
Definition kLockMask : Z := Z.lxor Version_max (Z.shiftr Version_max 1).

Record t := Build { version_ : Z }.

Definition Lock (l : t) : t := Build (Z.lor (version_ l) kLockMask).
Definition Unlock (l : t) : t := Build (Z.land (version_ l) (not64 kLockMask)).
Definition Unlock_to (l : t) (new_version : Z) : t := Build new_version.
Definition Get (l : t) : Z := version_ l.
End ReadLock.

Module WriteLock.
Definition kLockMask : Z := 1.

Record t := Build { value_ : Z }.

(** [compare_exchange_strong(0, owner | kLockMask)] *)
Definition TryLock (l : t) (owner : Z) : bool * t :=
  if value_ l =? 0 then (true, Build (Z.lor owner kLockMask)) else (false, l).
Definition Unlock (l : t) : t := Build 0.
Definition IsLocked (l : t) : bool := negb (Z.land (value_ l) kLockMask =? 0).
Definition IsLockedBy (l : t) (owner : Z) : bool :=
  value_ l =? Z.lor owner kLockMask.
(** The owner pointer; [0] is [nullptr]. *)
Definition GetOwner (l : t) : Z := Z.land (value_ l) (not64 kLockMask).
End WriteLock.

Record LockEntry := { r_lock : ReadLock.t; w_lock : WriteLock.t }.

Definition kLockTableSize : Z := 4096.
Definition kLockTableMask : Z := kLockTableSize - 1.

Definition GetLockIndex (address : Z) : Z := Z.land address kLockTableMask.

(** ** transactional.hpp: errors *)

Inductive Exception :=
| TransactionError (what : string) (retry : bool)
| runtime_error (what : string).

(** [Atomic] and [AtomicRead] retry exactly on a caught [TransactionError]
    whose [shouldRetry()] is true; every other exception ends the
    transaction and is thrown on. *)
Definition shouldRetry (e : Exception) : bool :=
  match e with
  | TransactionError _ retry => retry
  | runtime_error _ => false
  end.

Definition is_TransactionError (e : Exception) : bool :=
  match e with
  | TransactionError _ _ => true
  | runtime_error _ => false
  end.

Inductive PromotionState := NO_RUNNING | COMPATIBLE | INCOMPATIBLE.

(** ** The transaction engine: PooledList *)

(** What [PooledList] asks of its entry type: default constructible, an
    assignment from the key and a comparison with the key.  All three entry
    types have a [size_t] key. *)
Class PoolEntry (T : Type) := {
  entry_default : T;
  entry_assign : T -> Z -> T;
  entry_eqb : T -> Z -> bool
}.

Module PooledList.
Section WithEntry.
Context {T : Type} `{PoolEntry T}.
(** The template parameter [kNumEntries]. *)
Variable Cnt : Z.

(** [main_pool_] is the page of entries, [next_index_] the number of
    entries handed out.  [Clear] leaves the page as it is. *)
Record t := Build { main_pool_ : list T; next_index_ : Z }.

(** A pointer into the page is the number of the slot it points at. *)
Definition slot (l : t) (entry : Z) : T :=
  default entry_default (main_pool_ l !! Z.to_nat entry).

Definition store (l : t) (entry : Z) (v : T) : t :=
  Build (<[Z.to_nat entry := v]> (main_pool_ l)) (next_index_ l).

Definition GetEntry (index : Z) : Exception + Z :=
  let pool := index / Cnt in
  let entry := index mod Cnt in
  if negb (pool =? 0) then inl (runtime_error "Out of memory")
  else inr entry.

(** [Init]: the page is allocated zeroed and every entry default
    constructed. *)
Definition Init : t := Build (replicate (Z.to_nat Cnt) entry_default) 0.

(** [next_index_++] happens before [GetEntry] can throw. *)
Definition Create (l : t) (key : Z) : (Exception + Z) * t :=
  let index := next_index_ l in
  let l1 := Build (main_pool_ l) (wrap64 (next_index_ l + 1)) in
  match GetEntry index with
  | inl e => (inl e, l1)
  | inr entry => (inr entry, store l1 entry (entry_assign (slot l1 entry) key))
  end.

(** The search loop [for (i = 0; i < next_index_; i++)] shared by [Get],
    [GetOrCreate] and [Contains]: [todo] iterations are left, starting at
    [i]. *)
Fixpoint search (l : t) (key : Z) (i : Z) (todo : nat) : Exception + option Z :=
  match todo with
  | O => inr None
  | S todo' =>
      match GetEntry i with
      | inl e => inl e
      | inr entry =>
          if entry_eqb (slot l entry) key then inr (Some entry)
          else search l key (i + 1) todo'
      end
  end.

(** [nullptr] is [None]. *)
Definition Get (l : t) (key : Z) : Exception + option Z :=
  search l key 0 (Z.to_nat (next_index_ l)).

Definition GetOrCreate (l : t) (key : Z) : (Exception + Z) * t :=
  match search l key 0 (Z.to_nat (next_index_ l)) with
  | inl e => (inl e, l)
  | inr (Some entry) => (inr entry, l)
  | inr None => Create l key
  end.

Definition Contains (l : t) (key : Z) : Exception + bool :=
  match search l key 0 (Z.to_nat (next_index_ l)) with
  | inl e => inl e
  | inr (Some _) => inr true
  | inr None => inr false
  end.

Definition Clear (l : t) : t := Build (main_pool_ l) 0.
Definition Empty (l : t) : bool := next_index_ l =? 0.
Definition GetSize (l : t) : Z := next_index_ l.

(** The entries a range-for visits: the iterator runs from [0] to
    [next_index_] and dereferences through [GetEntry], so it throws on
    reaching an index outside the page. *)
Fixpoint visit (l : t) (i : Z) (todo : nat) : list (Exception + T) :=
  match todo with
  | O => []
  | S todo' =>
      match GetEntry i with
      | inl e => [inl e]
      | inr entry => inr (slot l entry) :: visit l (i + 1) todo'
      end
  end.

Definition range (l : t) : list (Exception + T) :=
  visit l 0 (Z.to_nat (next_index_ l)).
End WithEntry.
Arguments t T : clear implicits.
End PooledList.

(** ** The transaction engine: the random number generator *)

Module Xoroshiro128pp.
Record t := Build { s0_ : Z; s1_ : Z }.

Definition Rotl (x : Z) (k : Z) : Z :=
  Z.lor (wrap64 (Z.shiftl x k)) (Z.shiftr x (64 - k)).

Definition seed : t := Build 0xdad6490a0e036cbf 0x282ef0c42968addc.

Definition Next (g : t) : Z * t :=
  let s0 := s0_ g in
  let s1 := s1_ g in
  let result := wrap64 (Rotl (wrap64 (s0 + s1)) 17 + s0) in
  let s1 := Z.lxor s1 s0 in
  (result,
   Build (Z.lxor (Z.lxor (Rotl s0 49) s1) (wrap64 (Z.shiftl s1 21)))
         (Rotl s1 28)).

Definition kJump : list Z := [0x2bd7a6a6e99c2ddc; 0x0992ccaf6a6fca05].

(** The inner loop of [Jump] over the bits [b] of one word of [kJump]. *)
Fixpoint Jump_bits (word : Z) (b : Z) (todo : nat) (acc : Z * Z) (g : t)
  : (Z * Z) * t :=
  match todo with
  | O => (acc, g)
  | S todo' =>
      let acc' :=
        if Z.testbit word b
        then (Z.lxor (fst acc) (s0_ g), Z.lxor (snd acc) (s1_ g))
        else acc in
      Jump_bits word (b + 1) todo' acc' (snd (Next g))
  end.

Definition Jump (g : t) : t :=
  let '(acc, _) :=
    fold_left (fun '(acc, g) word => Jump_bits word 0 64 acc g) kJump
              ((0, 0), g) in
  Build (fst acc) (snd acc).
End Xoroshiro128pp.

(** ** The transaction engine: the entries of the three buffers *)

Module ReadSetEntry.
Record t := Build { index_ : Z; old_version_ : Z }.
Definition SetVersion (e : t) (new_version : Z) : t := Build (index_ e) new_version.
Definition GetIndex (e : t) : Z := index_ e.
Definition GetVersion (e : t) : Z := old_version_ e.
End ReadSetEntry.

#[global] Instance ReadSetEntry_PoolEntry : PoolEntry ReadSetEntry.t := {
  entry_default := ReadSetEntry.Build 0 0;
  entry_assign e nindex := ReadSetEntry.Build nindex (ReadSetEntry.old_version_ e);
  entry_eqb e other := ReadSetEntry.index_ e =? other
}.

Module WriteSetEntry.
Record t := Build { index_ : Z }.
Definition GetIndex (e : t) : Z := index_ e.
End WriteSetEntry.

#[global] Instance WriteSetEntry_PoolEntry : PoolEntry WriteSetEntry.t := {
  entry_default := WriteSetEntry.Build 0;
  entry_assign e new_index := WriteSetEntry.Build new_index;
  entry_eqb e other := WriteSetEntry.index_ e =? other
}.

Module WriteData.
Record t := Build { address_ : Z; data_ : Z; mask_ : Z }.
Definition Set_ (e : t) (new_data new_mask : Z) : t :=
  Build (address_ e) new_data new_mask.
Definition Extend (e : t) (new_data new_mask : Z) : t :=
  Build (address_ e)
        (Z.lor (Z.land (data_ e) (not64 new_mask)) (Z.land new_data new_mask))
        (Z.lor (mask_ e) new_mask).
Definition GetAddress (e : t) : Z := address_ e.
Definition GetData (e : t) : Z := data_ e.
Definition GetMask (e : t) : Z := mask_ e.
End WriteData.

#[global] Instance WriteData_PoolEntry : PoolEntry WriteData.t := {
  entry_default := WriteData.Build 0 0 0;
  entry_assign e new_addr :=
    WriteData.Build new_addr (WriteData.data_ e) (WriteData.mask_ e);
  entry_eqb e other := WriteData.address_ e =? other
}.

(** ** The transaction engine: its state *)

Module State.
Definition NONE_mask : Z := 0.
Definition INITIALIZED_bit : Z := 1.
Definition RUNNING_bit : Z := 2.
Definition READ_ONLY_bit : Z := 4.
Definition SINGLE_bit : Z := 8.
Definition UNINITIALIZED : Z := 0.
Definition INITIALIZED : Z := INITIALIZED_bit.
Definition READ_WRITE_RUNNING : Z := Z.lor INITIALIZED_bit RUNNING_bit.
Definition READ_ONLY_RUNNING : Z :=
  Z.lor (Z.lor INITIALIZED_bit RUNNING_bit) READ_ONLY_bit.
End State.

(** The capacity the engine gives its three buffers. *)
Definition kBufferEntries : Z := 255.

(** Creating one entry per key, in order, until one creation throws. *)
Fixpoint create_all {T} `{PoolEntry T} (l : PooledList.t T) (keys : list Z)
  : (Exception + unit) * PooledList.t T :=
  match keys with
  | [] => (inr tt, l)
  | key :: keys' =>
      match PooledList.Create kBufferEntries l key with
      | (inl e, l') => (inl e, l')
      | (inr _, l') => create_all l' keys'
      end
  end.

Record TransactionEngine := {
  state_ : Z;
  version_ : Z;
  cm_ts_ : Z;
  cm_backoff_ : Z;
  read_set_ : PooledList.t ReadSetEntry.t;
  write_set_ : PooledList.t WriteSetEntry.t;
  write_data_ : PooledList.t WriteData.t;
  rng_ : Xoroshiro128pp.t
}.

(** The engine as constructed: nothing allocated yet. *)
Definition new_engine : TransactionEngine := {|
  state_ := State.UNINITIALIZED;
  version_ := 0;
  cm_ts_ := Version_max;
  cm_backoff_ := 0;
  read_set_ := PooledList.Build [] 0;
  write_set_ := PooledList.Build [] 0;
  write_data_ := PooledList.Build [] 0;
  rng_ := Xoroshiro128pp.seed
|}.

(** One engine and the world it shares with the others.  [this] is the
    address of the engine, which is what a write lock stores as its owner;
    [peer_cm_ts] is the [cm_ts_] of the engines at the other addresses. *)
Record Sys := {
  this : Z;
  engine : TransactionEngine;
  lock_table : Z -> LockEntry;
  memory : Z -> Z;
  global_version : Z;
  greedy_version : Z;
  curr_offset : Z;
  peer_cm_ts : Z -> Z
}.

Definition with_engine (s : Sys) (e : TransactionEngine) : Sys :=
  {| this := this s; engine := e; lock_table := lock_table s;
     memory := memory s; global_version := global_version s;
     greedy_version := greedy_version s; curr_offset := curr_offset s;
     peer_cm_ts := peer_cm_ts s |}.

Definition with_lock_table (s : Sys) (t : Z -> LockEntry) : Sys :=
  {| this := this s; engine := engine s; lock_table := t;
     memory := memory s; global_version := global_version s;
     greedy_version := greedy_version s; curr_offset := curr_offset s;
     peer_cm_ts := peer_cm_ts s |}.

Definition with_memory (s : Sys) (m : Z -> Z) : Sys :=
  {| this := this s; engine := engine s; lock_table := lock_table s;
     memory := m; global_version := global_version s;
     greedy_version := greedy_version s; curr_offset := curr_offset s;
     peer_cm_ts := peer_cm_ts s |}.

Definition with_global_version (s : Sys) (v : Z) : Sys :=
  {| this := this s; engine := engine s; lock_table := lock_table s;
     memory := memory s; global_version := v;
     greedy_version := greedy_version s; curr_offset := curr_offset s;
     peer_cm_ts := peer_cm_ts s |}.

Definition with_greedy_version (s : Sys) (v : Z) : Sys :=
  {| this := this s; engine := engine s; lock_table := lock_table s;
     memory := memory s; global_version := global_version s;
     greedy_version := v; curr_offset := curr_offset s;
     peer_cm_ts := peer_cm_ts s |}.

Definition with_curr_offset (s : Sys) (v : Z) : Sys :=
  {| this := this s; engine := engine s; lock_table := lock_table s;
     memory := memory s; global_version := global_version s;
     greedy_version := greedy_version s; curr_offset := v;
     peer_cm_ts := peer_cm_ts s |}.

Definition with_state (e : TransactionEngine) (st : Z) : TransactionEngine :=
  {| state_ := st; version_ := version_ e; cm_ts_ := cm_ts_ e;
     cm_backoff_ := cm_backoff_ e; read_set_ := read_set_ e;
     write_set_ := write_set_ e; write_data_ := write_data_ e;
     rng_ := rng_ e |}.

Definition with_version (e : TransactionEngine) (v : Z) : TransactionEngine :=
  {| state_ := state_ e; version_ := v; cm_ts_ := cm_ts_ e;
     cm_backoff_ := cm_backoff_ e; read_set_ := read_set_ e;
     write_set_ := write_set_ e; write_data_ := write_data_ e;
     rng_ := rng_ e |}.

Definition with_cm_ts (e : TransactionEngine) (ts : Z) : TransactionEngine :=
  {| state_ := state_ e; version_ := version_ e; cm_ts_ := ts;
     cm_backoff_ := cm_backoff_ e; read_set_ := read_set_ e;
     write_set_ := write_set_ e; write_data_ := write_data_ e;
     rng_ := rng_ e |}.

Definition with_cm_backoff (e : TransactionEngine) (b : Z) : TransactionEngine :=
  {| state_ := state_ e; version_ := version_ e; cm_ts_ := cm_ts_ e;
     cm_backoff_ := b; read_set_ := read_set_ e;
     write_set_ := write_set_ e; write_data_ := write_data_ e;
     rng_ := rng_ e |}.

Definition with_read_set (e : TransactionEngine) (l : PooledList.t ReadSetEntry.t)
  : TransactionEngine :=
  {| state_ := state_ e; version_ := version_ e; cm_ts_ := cm_ts_ e;
     cm_backoff_ := cm_backoff_ e; read_set_ := l;
     write_set_ := write_set_ e; write_data_ := write_data_ e;
     rng_ := rng_ e |}.

Definition with_write_set (e : TransactionEngine) (l : PooledList.t WriteSetEntry.t)
  : TransactionEngine :=
  {| state_ := state_ e; version_ := version_ e; cm_ts_ := cm_ts_ e;
     cm_backoff_ := cm_backoff_ e; read_set_ := read_set_ e;
     write_set_ := l; write_data_ := write_data_ e;
     rng_ := rng_ e |}.

Definition with_write_data (e : TransactionEngine) (l : PooledList.t WriteData.t)
  : TransactionEngine :=
  {| state_ := state_ e; version_ := version_ e; cm_ts_ := cm_ts_ e;
     cm_backoff_ := cm_backoff_ e; read_set_ := read_set_ e;
     write_set_ := write_set_ e; write_data_ := l;
     rng_ := rng_ e |}.

Definition with_rng (e : TransactionEngine) (g : Xoroshiro128pp.t) : TransactionEngine :=
  {| state_ := state_ e; version_ := version_ e; cm_ts_ := cm_ts_ e;
     cm_backoff_ := cm_backoff_ e; read_set_ := read_set_ e;
     write_set_ := write_set_ e; write_data_ := write_data_ e;
     rng_ := g |}.

(** ** Engine operations: state, exceptions, assertions, spinning

    An operation runs on the state and leaves a state behind in every
    case: what was written before a [throw] stays written. *)

Inductive Outcome (A : Type) :=
| Returns (a : A)
| Throws (e : Exception)
| AssertionFailed
| Spinning.
Arguments Returns {A} a.
Arguments Throws {A} e.
Arguments AssertionFailed {A}.
Arguments Spinning {A}.

Definition M (A : Type) : Type := Sys -> Outcome A * Sys.

Definition ret {A} (a : A) : M A := fun s => (Returns a, s).

Definition bind {A B} (m : M A) (k : A -> M B) : M B :=
  fun s =>
    match m s with
    | (Returns a, s') => k a s'
    | (Throws e, s') => (Throws e, s')
    | (AssertionFailed, s') => (AssertionFailed, s')
    | (Spinning, s') => (Spinning, s')
    end.

Notation "x <- m ;; k" := (bind m (fun x => k))
  (at level 100, m at next level, right associativity).
Notation "m ;;; k" := (bind m (fun _ => k))
  (at level 100, right associativity).

Definition throw {A} (e : Exception) : M A := fun s => (Throws e, s).
Definition assert (b : bool) : M unit :=
  fun s => (if b then Returns tt else AssertionFailed, s).
Definition spin {A} : M A := fun s => (Spinning, s).
Definition gets {A} (f : Sys -> A) : M A := fun s => (Returns (f s), s).
Definition modify (f : Sys -> Sys) : M unit := fun s => (Returns tt, f s).
Definition modify_engine (f : TransactionEngine -> TransactionEngine) : M unit :=
  modify (fun s => with_engine s (f (engine s))).

(** A [PooledList] call on one of the engine's buffers. *)
Definition on_list {T A} (sel : TransactionEngine -> PooledList.t T)
    (upd : TransactionEngine -> PooledList.t T -> TransactionEngine)
    (op : PooledList.t T -> (Exception + A) * PooledList.t T) : M A :=
  fun s =>
    let '(r, l) := op (sel (engine s)) in
    let s' := with_engine s (upd (engine s) l) in
    match r with
    | inl e => (Throws e, s')
    | inr a => (Returns a, s')
    end.

Definition lift {A} (r : Exception + A) : M A :=
  match r with
  | inl e => throw e
  | inr a => ret a
  end.

(** [for (T& entry : list) body]: no loop body of the engine touches the
    list it runs over, so the visit is decided when the loop starts. *)
Fixpoint for_each {T} (entries : list (Exception + T)) (body : T -> M unit) : M unit :=
  match entries with
  | [] => ret tt
  | inl e :: _ => throw e
  | inr entry :: rest => body entry ;;; for_each rest body
  end.

(** *** Accesses to the shared world *)

Definition update_lock (index : Z) (f : LockEntry -> LockEntry) : M unit :=
  modify (fun s => with_lock_table s (<[index := f (lock_table s index)]> (lock_table s))).

Definition on_r_lock (f : ReadLock.t -> ReadLock.t) (e : LockEntry) : LockEntry :=
  {| r_lock := f (r_lock e); w_lock := w_lock e |}.
Definition on_w_lock (f : WriteLock.t -> WriteLock.t) (e : LockEntry) : LockEntry :=
  {| r_lock := r_lock e; w_lock := f (w_lock e) |}.

Definition r_lock_Get (index : Z) : M Z :=
  gets (fun s => ReadLock.Get (r_lock (lock_table s index))).
Definition w_lock_IsLocked (index : Z) : M bool :=
  gets (fun s => WriteLock.IsLocked (w_lock (lock_table s index))).
Definition w_lock_IsLockedBy_this (index : Z) : M bool :=
  gets (fun s => WriteLock.IsLockedBy (w_lock (lock_table s index)) (this s)).
(** A failed compare-and-exchange stores nothing. *)
Definition w_lock_TryLock_this (index : Z) : M bool :=
  fun s =>
    let '(ok, l) := WriteLock.TryLock (w_lock (lock_table s index)) (this s) in
    (Returns ok,
     if ok then
       with_lock_table s
         (<[index := on_w_lock (fun _ => l) (lock_table s index)]> (lock_table s))
     else s).

(** [*((volatile Word* ) address)] *)
Definition load (address : Z) : M Z := gets (fun s => memory s address).

(** transaction_support.cpp *)
Definition GetGlobalVersion : M Z := gets global_version.
Definition GetIncGlobalVersion : M Z :=
  fun s => (Returns (wrap64 (global_version s + 1)),
            with_global_version s (wrap64 (global_version s + 1))).
Definition GetIncGreedyVersion : M Z :=
  fun s => (Returns (greedy_version s),
            with_greedy_version s (wrap64 (greedy_version s + 1))).

(** [engine->cm_ts_.load()] for the engine at address [p]. *)
Definition load_cm_ts (s : Sys) (p : Z) : Z :=
  if p =? this s then cm_ts_ (engine s) else peer_cm_ts s p.

(** ** The transaction engine: the protocol *)

Definition CommitData (data : WriteData.t) : M unit :=
  let addr := WriteData.GetAddress data in
  modify (fun s =>
    with_memory s
      (<[addr := Z.lor (Z.land (memory s addr) (not64 (WriteData.GetMask data)))
                       (Z.land (WriteData.GetData data) (WriteData.GetMask data))]>
         (memory s))).

Fixpoint ValidateReadSet_loop (entries : list (Exception + ReadSetEntry.t)) : M bool :=
  match entries with
  | [] => ret true
  | inl e :: _ => throw e
  | inr entry :: rest =>
      let index := ReadSetEntry.GetIndex entry in
      v <- r_lock_Get index ;;
      v' <- r_lock_Get index ;;
      if negb (v' =? ReadSetEntry.GetVersion entry) then
        mine <- w_lock_IsLockedBy_this index ;;
        if negb (negb (Z.land v ReadLock.kLockMask =? 0) && mine) then ret false
        else ValidateReadSet_loop rest
      else ValidateReadSet_loop rest
  end.

Definition ValidateReadSet : M bool :=
  entries <- gets (fun s => PooledList.range kBufferEntries (read_set_ (engine s))) ;;
  ValidateReadSet_loop entries.

Definition Extend : M bool :=
  new_version <- GetGlobalVersion ;;
  ok <- ValidateReadSet ;;
  if ok then
    modify_engine (fun e => with_version e new_version) ;;;
    ret true
  else ret false.

Definition Rollback : M unit :=
  entries <- gets (fun s => PooledList.range kBufferEntries (write_set_ (engine s))) ;;
  for_each entries (fun entry =>
    update_lock (WriteSetEntry.GetIndex entry) (on_w_lock WriteLock.Unlock)) ;;;
  modify_engine (fun e => with_read_set e (PooledList.Clear (read_set_ e))) ;;;
  modify_engine (fun e => with_write_set e (PooledList.Clear (write_set_ e))) ;;;
  modify_engine (fun e => with_write_data e (PooledList.Clear (write_data_ e))).

Definition CmOnStart : M unit :=
  modify_engine (fun e => with_cm_ts e Version_max) ;;;
  modify_engine (fun e => with_cm_backoff e 0).

(** The sleep of [cm_backoff_] nanoseconds passes no value on and is left
    out; [cm_backoff_] is a [uint16_t]. *)
Definition CmOnRestart : M unit :=
  modify_engine (fun e =>
    let '(r, g) := Xoroshiro128pp.Next (rng_ e) in
    let rand := Z.land r 0xF in
    let e := with_rng e g in
    let e := with_cm_backoff e ((cm_backoff_ e + rand) mod 2 ^ 16) in
    with_cm_backoff e (Z.shiftl (cm_backoff_ e) 1 mod 2 ^ 16)).

Definition CmOnWrite : M unit :=
  ts <- gets (fun s => cm_ts_ (engine s)) ;;
  if ts =? Version_max then
    size <- gets (fun s => PooledList.GetSize (write_set_ (engine s))) ;;
    if 10 <=? size then
      g <- GetIncGreedyVersion ;;
      modify_engine (fun e => with_cm_ts e g)
    else ret tt
  else ret tt.

(** [MarkAbort] is empty in the source. *)
Definition MarkAbort (owner : Z) : M unit := ret tt.

Definition CmShouldAbort (index : Z) : M bool :=
  ts <- gets (fun s => cm_ts_ (engine s)) ;;
  if ts =? Version_max then ret true
  else
    owner <- gets (fun s => WriteLock.GetOwner (w_lock (lock_table s index))) ;;
    if negb (owner =? 0) then
      owner_ts <- gets (fun s => load_cm_ts s owner) ;;
      if owner_ts <? ts then ret true
      else MarkAbort owner ;;; ret false
    else ret false.

Definition IsReadWriteCompatible (e : TransactionEngine) : PromotionState :=
  if Z.land (state_ e) State.RUNNING_bit =? State.NONE_mask then NO_RUNNING
  else if state_ e =? State.READ_WRITE_RUNNING then COMPATIBLE
  else INCOMPATIBLE.

Definition IsReadOnlyCompatible (e : TransactionEngine) : PromotionState :=
  if Z.land (state_ e) State.RUNNING_bit =? State.NONE_mask then NO_RUNNING
  else if (state_ e =? State.READ_WRITE_RUNNING) || (state_ e =? State.READ_ONLY_RUNNING)
       then COMPATIBLE
  else INCOMPATIBLE.

Definition BeginReadWrite : M unit :=
  st <- gets (fun s => state_ (engine s)) ;;
  (if st =? State.READ_WRITE_RUNNING then CmOnRestart
   else assert (st =? State.INITIALIZED)) ;;;
  v <- GetGlobalVersion ;;
  modify_engine (fun e => with_version e v) ;;;
  modify_engine (fun e => with_state e State.READ_WRITE_RUNNING).

Definition BeginReadOnly : M unit :=
  st <- gets (fun s => state_ (engine s)) ;;
  (if st =? State.READ_ONLY_RUNNING then CmOnRestart
   else assert (st =? State.INITIALIZED)) ;;;
  v <- GetGlobalVersion ;;
  modify_engine (fun e => with_version e v) ;;;
  modify_engine (fun e => with_state e State.READ_ONLY_RUNNING).

Definition Commit : M unit :=
  st <- gets (fun s => state_ (engine s)) ;;
  assert (Z.land st State.RUNNING_bit =? State.RUNNING_bit) ;;;
  if st =? State.READ_ONLY_RUNNING then
    modify_engine (fun e => with_state e State.INITIALIZED)
  else
    empty <- gets (fun s => PooledList.Empty (write_set_ (engine s))) ;;
    (if negb empty then
       entries <- gets (fun s => PooledList.range kBufferEntries (write_set_ (engine s))) ;;
       for_each entries (fun entry =>
         update_lock (WriteSetEntry.GetIndex entry) (on_r_lock ReadLock.Lock)) ;;;
       new_version <- GetIncGlobalVersion ;;
       version <- gets (fun s => version_ (engine s)) ;;
       (if new_version >? wrap64 (version + 1) then
          ok <- ValidateReadSet ;;
          if negb ok then
            entries <- gets (fun s => PooledList.range kBufferEntries (write_set_ (engine s))) ;;
            for_each entries (fun entry =>
              update_lock (WriteSetEntry.GetIndex entry) (on_r_lock ReadLock.Unlock)) ;;;
            Rollback ;;;
            throw (TransactionError "Failed to validate read set" true)
          else ret tt
        else ret tt) ;;;
       datas <- gets (fun s => PooledList.range kBufferEntries (write_data_ (engine s))) ;;
       for_each datas CommitData ;;;
       entries <- gets (fun s => PooledList.range kBufferEntries (write_set_ (engine s))) ;;
       for_each entries (fun entry =>
         update_lock (WriteSetEntry.GetIndex entry)
                     (on_r_lock (fun l => ReadLock.Unlock_to l new_version)) ;;;
         update_lock (WriteSetEntry.GetIndex entry) (on_w_lock WriteLock.Unlock))
     else ret tt) ;;;
    modify_engine (fun e => with_read_set e (PooledList.Clear (read_set_ e))) ;;;
    modify_engine (fun e => with_write_set e (PooledList.Clear (write_set_ e))) ;;;
    modify_engine (fun e => with_write_data e (PooledList.Clear (write_data_ e))) ;;;
    modify_engine (fun e => with_state e State.INITIALIZED).

Definition End : M unit :=
  st <- gets (fun s => state_ (engine s)) ;;
  assert (Z.land st State.RUNNING_bit =? State.RUNNING_bit) ;;;
  entries <- gets (fun s => PooledList.range kBufferEntries (write_set_ (engine s))) ;;
  for_each entries (fun entry =>
    update_lock (WriteSetEntry.GetIndex entry) (on_w_lock WriteLock.Unlock)) ;;;
  modify_engine (fun e => with_read_set e (PooledList.Clear (read_set_ e))) ;;;
  modify_engine (fun e => with_write_set e (PooledList.Clear (write_set_ e))) ;;;
  modify_engine (fun e => with_write_data e (PooledList.Clear (write_data_ e))) ;;;
  modify_engine (fun e => with_state e State.INITIALIZED).

(** [assert(entry != nullptr)] and the use of [entry] after it. *)
Definition deref {A} (entry : option A) : M A :=
  match entry with
  | Some a => ret a
  | None => fun s => (AssertionFailed, s)
  end.

(** The double-sample loop of [ReadWord]; it returns [data] and the [v1] it
    left the loop with. *)
Fixpoint ReadWord_loop (fuel : nat) (index address v1 : Z) : M (Z * Z) :=
  match fuel with
  | O => spin
  | S fuel' =>
      if negb (Z.land v1 ReadLock.kLockMask =? 0) then
        v1' <- r_lock_Get index ;;
        ReadWord_loop fuel' index address v1'
      else
        data <- load address ;;
        v2 <- r_lock_Get index ;;
        if v2 =? v1 then ret (data, v1)
        else ReadWord_loop fuel' index address v2
  end.

Definition ReadWord (fuel : nat) (address : Z) : M Z :=
  let index := GetLockIndex address in
  mine <- w_lock_IsLockedBy_this index ;;
  if mine then
    l <- gets (fun s => write_data_ (engine s)) ;;
    entry <- lift (PooledList.Get kBufferEntries l address) ;;
    entry <- deref entry ;;
    gets (fun s => WriteData.GetData (PooledList.slot (write_data_ (engine s)) entry))
  else
    v1 <- r_lock_Get index ;;
    r <- ReadWord_loop fuel index address v1 ;;
    let data := fst r in
    let v1 := snd r in
    entry <- on_list read_set_ with_read_set
               (fun l => PooledList.GetOrCreate kBufferEntries l index) ;;
    version <- gets (fun s => version_ (engine s)) ;;
    (if v1 >? version then
       ok <- Extend ;;
       if negb ok then
         Rollback ;;;
         throw (TransactionError "Read inconsistent state" true)
       else ret tt
     else ret tt) ;;;
    ret data.

(** [entry->f(...)] on the write-data entry in slot [entry]. *)
Definition update_write_data (entry : Z) (f : WriteData.t -> WriteData.t) : M unit :=
  modify_engine (fun e =>
    with_write_data e
      (PooledList.store (write_data_ e) entry (f (PooledList.slot (write_data_ e) entry)))).

(** The lock acquisition loop of [WriteWord]; it returns the new write-data
    entry. *)
Fixpoint WriteWord_loop (fuel : nat) (index address : Z) : M Z :=
  match fuel with
  | O => spin
  | S fuel' =>
      locked <- w_lock_IsLocked index ;;
      if locked then
        abort <- CmShouldAbort index ;;
        if abort then
          Rollback ;;;
          throw (TransactionError "Stuff" true)
        else WriteWord_loop fuel' index address
      else
        ok <- w_lock_TryLock_this index ;;
        if ok then
          on_list write_set_ with_write_set
            (fun l => PooledList.Create kBufferEntries l index) ;;;
          on_list write_data_ with_write_data
            (fun l => PooledList.Create kBufferEntries l address)
        else WriteWord_loop fuel' index address
  end.

Definition WriteWord (fuel : nat) (address data mask : Z) : M unit :=
  let index := GetLockIndex address in
  mine <- w_lock_IsLockedBy_this index ;;
  if mine then
    l <- gets (fun s => write_data_ (engine s)) ;;
    entry <- lift (PooledList.Get kBufferEntries l address) ;;
    match entry with
    | None =>
        entry <- on_list write_data_ with_write_data
                   (fun l => PooledList.Create kBufferEntries l address) ;;
        update_write_data entry (fun e => WriteData.Set_ e data mask)
    | Some entry =>
        update_write_data entry (fun e => WriteData.Extend e data mask)
    end
  else
    entry <- WriteWord_loop fuel index address ;;
    v <- r_lock_Get index ;;
    version <- gets (fun s => version_ (engine s)) ;;
    (if v >? version then
       ok <- Extend ;;
       if negb ok then
         Rollback ;;;
         throw (TransactionError "Inconsistent state after write" true)
       else ret tt
     else ret tt) ;;;
    data <- (if negb (mask =? not64 0) then
               current <- load address ;;
               ret (Z.lor (Z.land data mask) (Z.land current (not64 mask)))
             else ret data) ;;
    update_write_data entry (fun e => WriteData.Set_ e data mask) ;;;
    CmOnWrite.

(** [TransactionEngine::Init]; [curr_offset] is the static [uint32_t]
    counter of the engines initialised so far. *)
Definition Init : M unit :=
  st <- gets (fun s => state_ (engine s)) ;;
  if negb (st =? State.UNINITIALIZED) then ret tt
  else
    modify_engine (fun e => with_read_set e (PooledList.Init kBufferEntries)) ;;;
    modify_engine (fun e => with_write_set e (PooledList.Init kBufferEntries)) ;;;
    modify_engine (fun e => with_write_data e (PooledList.Init kBufferEntries)) ;;;
    nr <- gets curr_offset ;;
    modify (fun s => with_curr_offset s ((curr_offset s + 1) mod 2 ^ 32)) ;;;
    let nr := Z.land nr 0xFF in
    modify_engine (fun e =>
      with_rng e (Nat.iter (Z.to_nat nr) Xoroshiro128pp.Jump (rng_ e))) ;;;
    modify_engine (fun e => with_state e State.INITIALIZED).

(** *** Views of the state used to state the properties *)

(** The entries of a pooled list, in the order of their creation. *)
Definition entries {T} `{PoolEntry T} (l : PooledList.t T) : list T :=
  map (fun k => PooledList.slot l (Z.of_nat k))
      (seq 0 (Z.to_nat (PooledList.next_index_ l))).

(** The versions stored in the page of the read set, slot by slot. *)
Definition stored_versions (s : Sys) : list Z :=
  map ReadSetEntry.GetVersion (PooledList.main_pool_ (read_set_ (engine s))).

(** The stripes in the write set: those whose write lock the engine took
    in this transaction. *)
Definition write_set_stripes (s : Sys) : list Z :=
  map WriteSetEntry.GetIndex (entries (write_set_ (engine s))).

(** The lock table after [f] was applied to the listed stripes, one after
    the other. *)
Definition update_stripes (f : LockEntry -> LockEntry) (indices : list Z)
    (t : Z -> LockEntry) : Z -> LockEntry :=
  fold_left (fun t index => <[index := f (t index)]> t) indices t.

(** [Commit] with a non-empty write set up to the point where it has the
    new version: the read-version lock bits of the write set are set and
    the global version is incremented. *)
Definition Commit_locked : M Z :=
  entries <- gets (fun s => PooledList.range kBufferEntries (write_set_ (engine s))) ;;
  for_each entries (fun entry =>
    update_lock (WriteSetEntry.GetIndex entry) (on_r_lock ReadLock.Lock)) ;;;
  GetIncGlobalVersion.

(** What can happen between two calls of a transaction: a read or a write
    of the transaction returns, or other engines change the world, where
    they leave alone this engine and the stripes whose write lock it
    holds. *)
Inductive transaction_step (s s' : Sys) : Prop :=
| step_read (fuel : nat) (address v : Z) :
    ReadWord fuel address s = (Returns v, s') -> transaction_step s s'
| step_write (fuel : nat) (address data mask : Z) :
    WriteWord fuel address data mask s = (Returns tt, s') -> transaction_step s s'
| step_peers :
    this s' = this s -> engine s' = engine s ->
    (forall index,
       WriteLock.IsLockedBy (w_lock (lock_table s index)) (this s) = true ->
       lock_table s' index = lock_table s index) ->
    transaction_step s s'.

Inductive transaction_continues : Sys -> Sys -> Prop :=
| continues_here (s : Sys) : transaction_continues s s
| continues_on (s s1 s2 : Sys) :
    transaction_step s s1 -> transaction_continues s1 s2 -> transaction_continues s s2.

(** ** transactional.hpp: the atomic blocks *)

(** One round of the retry loop of [Atomic] and [AtomicRead] with its two
    handlers; [again] is the next round. *)
Definition atomic_round (begin func again : M unit) : M unit :=
  fun s =>
    match (begin ;;; func ;;; Commit) s with
    | (Throws (TransactionError what retry), s') =>
        if negb retry then (End ;;; throw (TransactionError what retry)) s'
        else again s'
    | (Throws e, s') => (End ;;; throw e) s'
    | r => r
    end.

Fixpoint atomic_loop (fuel : nat) (begin func : M unit) : M unit :=
  match fuel with
  | O => spin
  | S fuel' => atomic_round begin func (atomic_loop fuel' begin func)
  end.

Definition Atomic (fuel : nat) (func : M unit) : M unit :=
  state <- gets (fun s => IsReadWriteCompatible (engine s)) ;;
  match state with
  | NO_RUNNING => atomic_loop fuel BeginReadWrite func
  | COMPATIBLE => func
  | INCOMPATIBLE =>
      throw (TransactionError
               "Cannot embed read-write transaction inside read-only transaction" false)
  end.

Definition AtomicRead (fuel : nat) (func : M unit) : M unit :=
  state <- gets (fun s => IsReadOnlyCompatible (engine s)) ;;
  match state with
  | NO_RUNNING => atomic_loop fuel BeginReadOnly func
  | COMPATIBLE => func
  | INCOMPATIBLE =>
      throw (TransactionError
               "Read only transaction is for some reason incompatible. This should never happen."
               false)
  end.

(** ** Concrete worlds *)

(** The world as [InitSupport] and the static initialisers leave it, around
    an engine constructed at address [p] with the target memory [m]. *)
Definition boot (p : Z) (m : Z -> Z) : Sys := {|
  this := p;
  engine := new_engine;
  lock_table := fun _ => {| r_lock := ReadLock.Build 0; w_lock := WriteLock.Build 0 |};
  memory := m;
  global_version := 0;
  greedy_version := 0;
  curr_offset := 0;
  peer_cm_ts := fun _ => Version_max
|}.

(** The state an operation leaves and what it answers. *)
Definition run {A} (m : M A) (s : Sys) : Sys := snd (m s).
Definition result {A} (m : M A) (s : Sys) : Outcome A := fst (m s).

(** What the whole commit of another engine that wrote [value] to
    [address] leaves in the shared world: the word stored, the stripe
    stamped with the new global version and unlocked. *)
Definition peer_commits (address value : Z) (s : Sys) : Sys :=
  let v := wrap64 (global_version s + 1) in
  let index := GetLockIndex address in
  with_global_version
    (with_memory
       (with_lock_table s
          (<[index := {| r_lock := ReadLock.Build v; w_lock := WriteLock.Build 0 |}]>
             (lock_table s)))
       (<[address := value]> (memory s)))
    v.

(** The thread engine at address 64, initialised, over a memory in which
    every word holds its own address. *)
Definition fresh : Sys := run Init (boot 64 (fun address => address)).

(** A read-only transaction that has read the word at 0x1000 after another
    engine committed 42 to it. *)
Definition reader_before : Sys := run BeginReadOnly (peer_commits 0x1000 42 fresh).
Definition reader_after : Sys := run (ReadWord 1 0x1000) reader_before.

(** One [AtomicRead] block per address, each reading the word at its
    address. *)
Fixpoint read_only_rounds (addresses : list Z) : M unit :=
  match addresses with
  | [] => ret tt
  | address :: rest =>
      AtomicRead 1 (ReadWord 1 address ;;; ret tt) ;;;
      read_only_rounds rest
  end.

(** The addresses of the first [n] words of memory, each in a stripe of
    its own while [n <= 512]. *)
Definition first_words (n : nat) : list Z := map (fun k => 8 * Z.of_nat k) (seq 0 n).

(** A read-write transaction that has written the word at 0x1000; the word
    at 0x2000 is in the same stripe. *)
Definition writer : Sys :=
  run (WriteWord 1 0x1000 7 max64) (run BeginReadWrite fresh).

(** A read-write transaction that has written the word at 0x1000 and read
    the word at 0x1008, to which another engine commits before this one
    does. *)
Definition overtaken : Sys :=
  peer_commits 0x1008 99 (run (ReadWord 1 0x1008) writer).

(** ** Further code of the library *)

(** [AlignedSize] of the engine header: the smallest multiple of [align]
    that is at least [size]; [None] is the failed assertion that [align] is
    a power of two. *)
Definition AlignedSize (size align : Z) : option Z :=
  if negb (align =? 0) && (Z.land align (wrap64 (align - 1)) =? 0)
  then Some (Z.land (wrap64 (size + align - 1)) (not64 (wrap64 (align - 1))))
  else None.

(** transactional.hpp: [alignof(Word) - 1]. *)
Definition kWordAlignMask : Z := 7.

Definition WordAlignedAddress (addr : Z) : Z := Z.land addr (not64 kWordAlignMask).

(** The accessors below the word: [Read<uint8_t>], [Write<uint8_t>] and
    their 16, 32 and 64 bit siblings.  The value read is cast to the
    narrow type; the value written is widened to a [Word] and shifted. *)
Definition Read_uint8_t (fuel : nat) (addr : Z) : M Z :=
  let kShift := [0; 8; 16; 24; 32; 40; 48; 56] in
  let index := Z.land addr 7 in
  data <- ReadWord fuel (WordAlignedAddress addr) ;;
  ret (Z.shiftr data (nth (Z.to_nat index) kShift 0) mod 2 ^ 8).

Definition Write_uint8_t (fuel : nat) (addr data : Z) : M unit :=
  let kMask := [0x00000000000000FF; 0x000000000000FF00; 0x0000000000FF0000;
                0x00000000FF000000; 0x000000FF00000000; 0x0000FF0000000000;
                0x00FF000000000000; 0xFF00000000000000] in
  let kShift := [0; 8; 16; 24; 32; 40; 48; 56] in
  let index := Z.land addr 7 in
  let d := wrap64 (Z.shiftl data (nth (Z.to_nat index) kShift 0)) in
  WriteWord fuel (WordAlignedAddress addr) d (nth (Z.to_nat index) kMask 0).

Definition Read_uint16_t (fuel : nat) (addr : Z) : M Z :=
  let kShift := [0; 16; 32; 48] in
  let index := Z.shiftr (Z.land addr 6) 1 in
  data <- ReadWord fuel (WordAlignedAddress addr) ;;
  ret (Z.shiftr data (nth (Z.to_nat index) kShift 0) mod 2 ^ 16).

Definition Write_uint16_t (fuel : nat) (addr data : Z) : M unit :=
  let kMask := [0x000000000000FFFF; 0x00000000FFFF0000;
                0x0000FFFF00000000; 0xFFFF000000000000] in
  let kShift := [0; 16; 32; 48] in
  let index := Z.shiftr (Z.land addr 6) 1 in
  let d := wrap64 (Z.shiftl data (nth (Z.to_nat index) kShift 0)) in
  WriteWord fuel (WordAlignedAddress addr) d (nth (Z.to_nat index) kMask 0).

Definition Read_uint32_t (fuel : nat) (addr : Z) : M Z :=
  let kShift := [0; 32] in
  let index := if negb (Z.land addr 4 mod 2 ^ 8 =? 0) then 1 else 0 in
  data <- ReadWord fuel (WordAlignedAddress addr) ;;
  ret (Z.shiftr data (nth (Z.to_nat index) kShift 0) mod 2 ^ 32).

Definition Write_uint32_t (fuel : nat) (addr data : Z) : M unit :=
  let kMask := [0x00000000FFFFFFFF; 0xFFFFFFFF00000000] in
  let kShift := [0; 32] in
  let index := if negb (Z.land addr 4 mod 2 ^ 8 =? 0) then 1 else 0 in
  let d := wrap64 (Z.shiftl data (nth (Z.to_nat index) kShift 0)) in
  WriteWord fuel (WordAlignedAddress addr) d (nth (Z.to_nat index) kMask 0).

(** The 64 bit accessors pass the address on as it is. *)
Definition Read_uint64_t (fuel : nat) (addr : Z) : M Z := ReadWord fuel addr.
Definition Write_uint64_t (fuel : nat) (addr data : Z) : M unit :=
  WriteWord fuel addr data (not64 0).

(** *** Further concrete worlds *)

(** Another engine, at address [owner], has taken the write lock of the
    stripe of [address]. *)
Definition peer_locks (owner address : Z) (s : Sys) : Sys :=
  with_lock_table s
    (<[GetLockIndex address :=
         on_w_lock (fun _ => WriteLock.Build (Z.lor owner WriteLock.kLockMask))
                   (lock_table s (GetLockIndex address))]> (lock_table s)).

(** Another engine is in the critical section of its commit on the stripe
    of [address]: it holds the write lock and has set the lock bit of the
    read version. *)
Definition peer_committing (owner address : Z) (s : Sys) : Sys :=
  with_lock_table s
    (<[GetLockIndex address :=
         on_r_lock ReadLock.Lock
           (on_w_lock (fun _ => WriteLock.Build (Z.lor owner WriteLock.kLockMask))
                      (lock_table s (GetLockIndex address)))]> (lock_table s)).

(** One full-word write of zero per address. *)
Fixpoint write_words (addresses : list Z) : M unit :=
  match addresses with
  | [] => ret tt
  | address :: rest => WriteWord 1 address 0 max64 ;;; write_words rest
  end.

(** A transaction that has written nothing yet, and one that has written
    ten words and so holds a greedy timestamp; both find the stripe of
    0x1800 locked by the engine at address 128. *)
Definition contended : Sys := peer_locks 128 0x1800 (run BeginReadWrite fresh).
Definition greedy_contended : Sys :=
  peer_locks 128 0x1800 (run (write_words (first_words 10)) (run BeginReadWrite fresh)).

(** *** Views used to state the further properties *)

(** An operation that, however it ends, leaves [f] of the state as it
    was. *)
Definition keeps {X A} (f : Sys -> X) (m : M A) : Prop :=
  forall s, f (snd (m s)) = f s.


(** The test of [ValidateReadSet] on one entry of the read set: the stripe
    still carries the version stored in the entry, or the lock bit of its
    read version is set and the engine itself holds its write lock. *)
Definition still_valid (s : Sys) (entry : ReadSetEntry.t) : bool :=
  let lock := lock_table s (ReadSetEntry.GetIndex entry) in
  (ReadLock.Get (r_lock lock) =? ReadSetEntry.GetVersion entry)
  || (negb (Z.land (ReadLock.Get (r_lock lock)) ReadLock.kLockMask =? 0)
      && WriteLock.IsLockedBy (w_lock lock) (this s)).

(** The lengths of the pages of the read set, the write set and the write
    data. *)
Definition pages (s : Sys) : nat * nat * nat :=
  (length (PooledList.main_pool_ (read_set_ (engine s))),
   length (PooledList.main_pool_ (write_set_ (engine s))),
   length (PooledList.main_pool_ (write_data_ (engine s)))).

(** The state [s'] that [End] leaves of a transaction in the state [s]:
    every stripe of the write set is free again with its read version
    untouched, the other stripes, the memory and the global version are as
    they were, the three buffers are empty and the engine is INITIALIZED. *)
Definition transaction_ended (s s' : Sys) : Prop :=
  (forall j, In j (write_set_stripes s) ->
     WriteLock.IsLocked (w_lock (lock_table s' j)) = false /\
     r_lock (lock_table s' j) = r_lock (lock_table s j)) /\
  (forall j, ~ In j (write_set_stripes s) -> lock_table s' j = lock_table s j) /\
  memory s' = memory s /\
  global_version s' = global_version s /\
  PooledList.Empty (read_set_ (engine s')) = true /\
  PooledList.Empty (write_set_ (engine s')) = true /\
  PooledList.Empty (write_data_ (engine s')) = true /\
  state_ (engine s') = State.INITIALIZED.

(** The engine holds the write lock of exactly the stripes in its write
    set. *)
Definition locks_follow_write_set (s : Sys) : Prop :=
  forall j,
    In j (write_set_stripes s) <->
    WriteLock.IsLockedBy (w_lock (lock_table s j)) (this s) = true.

(** A read-only transaction that began before another engine committed 42
    to the word at 0x1000. *)
Definition late_reader : Sys := peer_commits 0x1000 42 (run BeginReadOnly fresh).

(** * Properties *)

(** ** Words and locks *)

Lemma kLockMask_top_bit : ReadLock.kLockMask = 2 ^ 63.
Proof. reflexivity. Qed.

Lemma not64_kLockMask : not64 ReadLock.kLockMask = Z.ones 63.
Proof. reflexivity. Qed.

Lemma ReadLock_Unlock_clears (l : ReadLock.t) :
  Z.land (ReadLock.Get (ReadLock.Unlock l)) ReadLock.kLockMask = 0.
Proof.
  unfold ReadLock.Get, ReadLock.Unlock. cbn [ReadLock.version_].
  rewrite <- Z.land_assoc.
  replace (Z.land (not64 ReadLock.kLockMask) ReadLock.kLockMask) with 0 by reflexivity.
  apply Z.land_0_r.
Qed.

(** ** The pooled lists *)

Section PooledListFacts.
Context {T : Type} `{PoolEntry T}.

Lemma GetEntry_in_page (index : Z) :
  0 <= index < kBufferEntries ->
  PooledList.GetEntry kBufferEntries index = inr index.
Proof.
  intros Hi. unfold PooledList.GetEntry, kBufferEntries in *.
  rewrite Z.div_small, Z.mod_small by lia. reflexivity.
Qed.

Lemma GetEntry_out_of_page (index : Z) :
  kBufferEntries <= index ->
  PooledList.GetEntry kBufferEntries index = inl (runtime_error "Out of memory").
Proof.
  intros Hi. unfold PooledList.GetEntry, kBufferEntries in *.
  assert (Hd : 1 <= index / 255) by (apply Z.div_le_lower_bound; lia).
  destruct (Z.eqb_spec (index / 255) 0) as [E|E]; [lia | reflexivity].
Qed.

Lemma slot_store_same (l : PooledList.t T) (entry : Z) (v : T) :
  (Z.to_nat entry < length (PooledList.main_pool_ l))%nat ->
  PooledList.slot (PooledList.store l entry v) entry = v.
Proof.
  intros Hlen. unfold PooledList.slot, PooledList.store.
  cbn [PooledList.main_pool_].
  rewrite list_lookup_insert_eq by exact Hlen. reflexivity.
Qed.

Lemma slot_store_other (l : PooledList.t T) (entry other : Z) (v : T) :
  Z.to_nat entry <> Z.to_nat other ->
  PooledList.slot (PooledList.store l entry v) other = PooledList.slot l other.
Proof.
  intros Hne. unfold PooledList.slot, PooledList.store.
  cbn [PooledList.main_pool_].
  rewrite list_lookup_insert_ne by exact Hne. reflexivity.
Qed.

Lemma Create_in_page (l : PooledList.t T) (key : Z) :
  0 <= PooledList.next_index_ l < kBufferEntries ->
  PooledList.Create kBufferEntries l key =
    (inr (PooledList.next_index_ l),
     PooledList.Build
       (<[Z.to_nat (PooledList.next_index_ l) :=
            entry_assign (PooledList.slot l (PooledList.next_index_ l)) key]>
          (PooledList.main_pool_ l))
       (PooledList.next_index_ l + 1)).
Proof.
  intros Hi. unfold PooledList.Create.
  rewrite GetEntry_in_page by exact Hi.
  unfold PooledList.store, PooledList.slot. cbn [PooledList.main_pool_ PooledList.next_index_].
  unfold wrap64. rewrite Z.mod_small by (unfold kBufferEntries in Hi; lia).
  reflexivity.
Qed.

Lemma Create_out_of_page (l : PooledList.t T) (key : Z) :
  kBufferEntries <= PooledList.next_index_ l ->
  PooledList.Create kBufferEntries l key =
    (inl (runtime_error "Out of memory"),
     PooledList.Build (PooledList.main_pool_ l) (wrap64 (PooledList.next_index_ l + 1))).
Proof.
  intros Hi. unfold PooledList.Create.
  rewrite GetEntry_out_of_page by exact Hi. reflexivity.
Qed.

Lemma create_all_fits (keys : list Z) (l : PooledList.t T) :
  0 <= PooledList.next_index_ l ->
  PooledList.next_index_ l + Z.of_nat (length keys) <= kBufferEntries ->
  exists l',
    create_all l keys = (inr tt, l') /\
    PooledList.GetSize l' = PooledList.next_index_ l + Z.of_nat (length keys) /\
    length (PooledList.main_pool_ l') = length (PooledList.main_pool_ l).
Proof.
  revert l. induction keys as [|key keys IH]; intros l Hlo Hhi.
  - exists l. cbn [create_all length]. unfold PooledList.GetSize.
    split; [reflexivity|]. split; [lia | reflexivity].
  - cbn [length] in Hhi. cbn [create_all].
    rewrite Create_in_page by lia.
    edestruct IH as (l' & Hrun & Hsize & Hlen); [| | exists l'; split; [exact Hrun|]].
    + cbn. lia.
    + cbn [PooledList.next_index_]. lia.
    + cbn [PooledList.next_index_ PooledList.main_pool_] in Hsize, Hlen.
      rewrite length_insert in Hlen. cbn [length]. split; [lia | exact Hlen].
Qed.

(** C8: a buffer of the engine holds [kBufferEntries = 255] entries.  On a
    list with fewer than 255 entries (the next index is one of 0..254)
    [Create] returns the next slot with the key assigned and counts it; on
    a full list [Create], and [GetOrCreate] of a key that is not there,
    throw [std::runtime_error], which is no [TransactionError] and which no
    atomic block retries.  From the empty list any 255 creations in a row
    succeed and the 256th throws. *)
Theorem pooled_list_capacity (l : PooledList.t T) (key : Z)
    (Hindex : 0 <= PooledList.next_index_ l) :
  kBufferEntries = 255 /\
  (PooledList.next_index_ l <= 254 ->
   exists l',
     PooledList.Create kBufferEntries l key = (inr (PooledList.next_index_ l), l') /\
     PooledList.GetSize l' = PooledList.next_index_ l + 1 /\
     PooledList.main_pool_ l' =
       <[Z.to_nat (PooledList.next_index_ l) :=
           entry_assign (PooledList.slot l (PooledList.next_index_ l)) key]>
         (PooledList.main_pool_ l)) /\
  (255 <= PooledList.next_index_ l ->
   exists e l',
     PooledList.Create kBufferEntries l key = (inl e, l') /\
     (PooledList.Get kBufferEntries l key = inr None ->
      PooledList.GetOrCreate kBufferEntries l key = (inl e, l')) /\
     e = runtime_error "Out of memory" /\
     is_TransactionError e = false /\ shouldRetry e = false) /\
  (forall keys : list Z,
     length keys = 255%nat ->
     exists full,
       create_all (PooledList.Init kBufferEntries) keys = (inr tt, full) /\
       PooledList.GetSize full = 255 /\
       fst (PooledList.Create kBufferEntries full key) = inl (runtime_error "Out of memory")).
Proof.
  split; [reflexivity|]. split; [|split].
  - intros Hfree. eexists. rewrite Create_in_page by (unfold kBufferEntries; lia).
    split; [reflexivity|]. split; reflexivity.
  - intros Hfull. do 2 eexists.
    rewrite Create_out_of_page by (unfold kBufferEntries; lia).
    split; [reflexivity|]. split; [|repeat split].
    intros Hget. unfold PooledList.GetOrCreate. unfold PooledList.Get in Hget.
    rewrite Hget. apply Create_out_of_page. unfold kBufferEntries; lia.
  - intros keys Hlen.
    destruct (create_all_fits keys (PooledList.Init kBufferEntries)) as (full & Hrun & Hsize & _).
    + cbn. lia.
    + cbn [PooledList.Init PooledList.next_index_]. rewrite Hlen. unfold kBufferEntries. lia.
    + exists full. split; [exact Hrun|].
      cbn [PooledList.Init PooledList.next_index_] in Hsize. rewrite Hlen in Hsize.
      split; [exact Hsize|].
      rewrite Create_out_of_page; [reflexivity|].
      unfold PooledList.GetSize in Hsize. rewrite Hsize. unfold kBufferEntries. lia.
Qed.
End PooledListFacts.

(** The capacity of the write set of a thread engine: entries for 255
    stripes are created, the next creation throws. *)
Lemma pooled_list_capacity_witness :
  let l := PooledList.Init (T := WriteSetEntry.t) kBufferEntries in
  (exists l',
     PooledList.Create kBufferEntries l 7 = (inr 0, l') /\
     PooledList.GetSize l' = 1) /\
  (exists full,
     create_all l (map Z.of_nat (seq 0 255)) = (inr tt, full) /\
     PooledList.GetSize full = 255 /\
     fst (PooledList.Create kBufferEntries full 7) = inl (runtime_error "Out of memory")).
Proof.
  intros l.
  destruct (pooled_list_capacity l 7 (Z.le_refl 0)) as (_ & Hfree & _ & Hall).
  split.
  - destruct Hfree as (l' & Hc & Hs & _); [vm_compute; discriminate|].
    exists l'. split; [exact Hc | exact Hs].
  - apply Hall. reflexivity.
Defined.

(** ** The compatibility queries *)

(** C9: both queries are functions of [state_] alone.  With the running bit
    clear (no transaction running: this covers UNINITIALIZED and
    INITIALIZED) both answer NO_RUNNING; in READ_WRITE_RUNNING both answer
    COMPATIBLE; in READ_ONLY_RUNNING the read-only query answers COMPATIBLE
    and the read-write query INCOMPATIBLE. *)
Theorem compatibility_queries (e : TransactionEngine) :
  (Z.land (state_ e) State.RUNNING_bit = 0 ->
   IsReadWriteCompatible e = NO_RUNNING /\ IsReadOnlyCompatible e = NO_RUNNING) /\
  (state_ e = State.UNINITIALIZED \/ state_ e = State.INITIALIZED ->
   Z.land (state_ e) State.RUNNING_bit = 0) /\
  (state_ e = State.READ_WRITE_RUNNING ->
   IsReadWriteCompatible e = COMPATIBLE /\ IsReadOnlyCompatible e = COMPATIBLE) /\
  (state_ e = State.READ_ONLY_RUNNING ->
   IsReadWriteCompatible e = INCOMPATIBLE /\ IsReadOnlyCompatible e = COMPATIBLE).
Proof.
  unfold IsReadWriteCompatible, IsReadOnlyCompatible, State.NONE_mask.
  split; [|split; [|split]].
  - intros Hclear. rewrite Hclear. split; reflexivity.
  - intros [Hst | Hst]; rewrite Hst; reflexivity.
  - intros Hst. rewrite Hst. split; reflexivity.
  - intros Hst. rewrite Hst. split; reflexivity.
Qed.

(** The four states an engine goes through, one after the other. *)
Lemma compatibility_queries_witness :
  (IsReadWriteCompatible new_engine = NO_RUNNING /\
   IsReadOnlyCompatible new_engine = NO_RUNNING) /\
  (IsReadWriteCompatible (with_state new_engine State.INITIALIZED) = NO_RUNNING /\
   IsReadOnlyCompatible (with_state new_engine State.INITIALIZED) = NO_RUNNING) /\
  (IsReadWriteCompatible (with_state new_engine State.READ_WRITE_RUNNING) = COMPATIBLE /\
   IsReadOnlyCompatible (with_state new_engine State.READ_WRITE_RUNNING) = COMPATIBLE) /\
  (IsReadWriteCompatible (with_state new_engine State.READ_ONLY_RUNNING) = INCOMPATIBLE /\
   IsReadOnlyCompatible (with_state new_engine State.READ_ONLY_RUNNING) = COMPATIBLE).
Proof.
  split; [|split; [|split]].
  - apply (proj1 (compatibility_queries new_engine)). reflexivity.
  - apply (proj1 (compatibility_queries (with_state new_engine State.INITIALIZED))).
    reflexivity.
  - apply (proj1 (proj2 (proj2
      (compatibility_queries (with_state new_engine State.READ_WRITE_RUNNING))))).
    reflexivity.
  - apply (proj2 (proj2 (proj2
      (compatibility_queries (with_state new_engine State.READ_ONLY_RUNNING))))).
    reflexivity.
Defined.

(** ** The contention manager *)

(** C10: [CmShouldAbort] changes nothing and answers true exactly when the
    caller's [cm_ts_] is the maximum (the caller is not greedy) or the lock
    has an owner (not null) whose [cm_ts_] is strictly below the
    caller's. *)
Theorem CmShouldAbort_decision (s : Sys) (index : Z) :
  exists abort : bool,
    CmShouldAbort index s = (Returns abort, s) /\
    (abort = true <->
     cm_ts_ (engine s) = Version_max \/
     (WriteLock.GetOwner (w_lock (lock_table s index)) <> 0 /\
      load_cm_ts s (WriteLock.GetOwner (w_lock (lock_table s index)))
        < cm_ts_ (engine s))).
Proof.
  unfold CmShouldAbort, bind, gets, ret, MarkAbort.
  destruct (Z.eqb_spec (cm_ts_ (engine s)) Version_max) as [Hts|Hts].
  - exists true. split; [reflexivity|]. split; auto.
  - destruct (Z.eqb_spec (WriteLock.GetOwner (w_lock (lock_table s index))) 0) as [Ho|Ho];
      cbn [negb].
    + exists false. split; [reflexivity|]. split; [discriminate|].
      intros [?|[? _]]; contradiction.
    + destruct (Z.ltb_spec
        (load_cm_ts s (WriteLock.GetOwner (w_lock (lock_table s index))))
        (cm_ts_ (engine s))) as [Hlt|Hge].
      * exists true. split; [reflexivity|]. split; auto.
      * exists false. split; [reflexivity|]. split; [discriminate|].
        intros [?|[_ ?]]; [contradiction | lia].
Qed.

(** ** Running engine operations *)

Lemma bind_Returns {A B} (m : M A) (k : A -> M B) (s s' : Sys) (b : B) :
  bind m k s = (Returns b, s') ->
  exists a s1, m s = (Returns a, s1) /\ k a s1 = (Returns b, s').
Proof.
  unfold bind. destruct (m s) as [[a| | |] s1]; try discriminate.
  intros Hk. exists a, s1. split; [reflexivity | exact Hk].
Qed.

Lemma bind_run {A B} (m : M A) (k : A -> M B) (s s1 : Sys) (a : A) :
  m s = (Returns a, s1) -> bind m k s = k a s1.
Proof. intros Hm. unfold bind. rewrite Hm. reflexivity. Qed.

Lemma bind_throw_never_returns {A B} (m : M A) (e : Exception) (s s' : Sys) (b : B) :
  bind m (fun _ => throw e) s <> (Returns b, s').
Proof. unfold bind, throw. destruct (m s) as [[a| | |] s1]; discriminate. Qed.

(** *** What the helpers of the protocol leave untouched *)

Lemma ValidateReadSet_loop_state (entries : list (Exception + ReadSetEntry.t)) (s : Sys) :
  snd (ValidateReadSet_loop entries s) = s.
Proof.
  induction entries as [|[e|entry] rest IH]; cbn [ValidateReadSet_loop]; try reflexivity.
  unfold bind, r_lock_Get, w_lock_IsLockedBy_this, gets, ret.
  repeat match goal with
         | |- context [if ?c then _ else _] => destruct c
         end; try reflexivity; exact IH.
Qed.

Lemma ValidateReadSet_state (s : Sys) : snd (ValidateReadSet s) = s.
Proof. unfold ValidateReadSet, bind, gets. apply ValidateReadSet_loop_state. Qed.

Lemma Extend_Returns (s s' : Sys) (ok : bool) :
  Extend s = (Returns ok, s') ->
  (ok = true /\ s' = with_engine s (with_version (engine s) (global_version s))) \/
  (ok = false /\ s' = s).
Proof.
  unfold Extend, bind, GetGlobalVersion, gets, modify_engine, modify, ret.
  pose proof (ValidateReadSet_state s) as Hs.
  destruct (ValidateReadSet s) as [[[|]| | |] s1]; cbn [snd] in Hs; subst s1;
    intros Heq; inversion Heq; subst; auto.
Qed.

Lemma CmShouldAbort_state (s : Sys) (index : Z) :
  exists abort : bool, CmShouldAbort index s = (Returns abort, s).
Proof.
  unfold CmShouldAbort, bind, gets, ret, MarkAbort.
  repeat match goal with
         | |- context [if ?c then _ else _] => destruct c
         end; eexists; reflexivity.
Qed.

Lemma CmOnWrite_Returns (s : Sys) :
  exists s',
    CmOnWrite s = (Returns tt, s') /\
    this s' = this s /\ lock_table s' = lock_table s /\ memory s' = memory s /\
    global_version s' = global_version s /\
    write_data_ (engine s') = write_data_ (engine s) /\
    write_set_ (engine s') = write_set_ (engine s) /\
    read_set_ (engine s') = read_set_ (engine s) /\
    state_ (engine s') = state_ (engine s).
Proof.
  unfold CmOnWrite, bind, gets, ret, GetIncGreedyVersion, modify_engine, modify.
  repeat match goal with
         | |- context [if ?c then _ else _] => destruct c
         end; eexists; (split; [reflexivity|]); repeat split.
Qed.

Lemma GetEntry_inr (index entry : Z) :
  PooledList.GetEntry kBufferEntries index = inr entry ->
  0 <= index < kBufferEntries /\ entry = index.
Proof.
  intros Hget.
  destruct (Z_lt_le_dec index 0) as [Hneg|Hpos].
  - exfalso. unfold PooledList.GetEntry, kBufferEntries in Hget.
    assert (Hd : index / 255 < 0) by (apply Z.div_lt_upper_bound; lia).
    destruct (Z.eqb_spec (index / 255) 0) as [E|E]; [lia | discriminate].
  - destruct (Z_lt_le_dec index kBufferEntries) as [Hin|Hout].
    + rewrite GetEntry_in_page in Hget by lia. inversion Hget. split; [lia | reflexivity].
    + rewrite GetEntry_out_of_page in Hget by exact Hout. discriminate.
Qed.

Section CreateFacts.
Context {T : Type} `{PoolEntry T}.

Lemma Create_inr (l l' : PooledList.t T) (key entry : Z) :
  PooledList.Create kBufferEntries l key = (inr entry, l') ->
  0 <= PooledList.next_index_ l < kBufferEntries /\
  entry = PooledList.next_index_ l /\
  l' = PooledList.Build
         (<[Z.to_nat (PooledList.next_index_ l) :=
              entry_assign (PooledList.slot l (PooledList.next_index_ l)) key]>
            (PooledList.main_pool_ l))
         (PooledList.next_index_ l + 1).
Proof.
  intros Hc.
  assert (Hin : 0 <= PooledList.next_index_ l < kBufferEntries).
  { unfold PooledList.Create in Hc.
    destruct (PooledList.GetEntry kBufferEntries (PooledList.next_index_ l)) as [e|n] eqn:Hg;
      [discriminate|].
    apply GetEntry_inr in Hg. tauto. }
  rewrite Create_in_page in Hc by exact Hin. inversion Hc. auto.
Qed.
End CreateFacts.

(** ** WriteWord *)

Lemma WriteWord_loop_Returns (fuel : nat) (index address : Z) (s s1 : Sys) (entry : Z) :
  WriteWord_loop fuel index address s = (Returns entry, s1) ->
  WriteLock.value_ (w_lock (lock_table s index)) = 0 /\
  0 <= PooledList.next_index_ (write_set_ (engine s)) < kBufferEntries /\
  0 <= PooledList.next_index_ (write_data_ (engine s)) < kBufferEntries /\
  entry = PooledList.next_index_ (write_data_ (engine s)) /\
  s1 = with_engine
         (with_lock_table s
            (<[index := on_w_lock (fun _ => WriteLock.Build (Z.lor (this s) WriteLock.kLockMask))
                                  (lock_table s index)]> (lock_table s)))
         (with_write_data
            (with_write_set (engine s)
               (snd (PooledList.Create kBufferEntries (write_set_ (engine s)) index)))
            (snd (PooledList.Create kBufferEntries (write_data_ (engine s)) address))).
Proof.
  revert s. induction fuel as [|fuel IH]; intros s Hrun; cbn [WriteWord_loop] in Hrun.
  - discriminate.
  - apply bind_Returns in Hrun as (locked & s0 & Hl & Hrun).
    unfold w_lock_IsLocked, gets in Hl. inversion Hl; subst s0. clear Hl.
    destruct locked.
    + apply bind_Returns in Hrun as (abort & s0 & Ha & Hrun).
      destruct (CmShouldAbort_state s index) as [b Hb].
      rewrite Hb in Ha. inversion Ha; subst s0 b. clear Ha.
      destruct abort.
      * exfalso. exact (bind_throw_never_returns _ _ _ _ _ Hrun).
      * apply IH. exact Hrun.
    + apply bind_Returns in Hrun as (ok & s0 & Ht & Hrun).
      unfold w_lock_TryLock_this, WriteLock.TryLock in Ht.
      destruct (Z.eqb_spec (WriteLock.value_ (w_lock (lock_table s index))) 0) as [Hfree|Hheld].
      * inversion Ht; subst s0 ok. clear Ht.
        apply bind_Returns in Hrun as (e1 & s2 & Hws & Hwd).
        unfold on_list in Hws, Hwd.
        cbn [engine with_lock_table] in Hws.
        destruct (PooledList.Create kBufferEntries (write_set_ (engine s)) index)
          as [[e|slot1] ws'] eqn:Ews; [discriminate|].
        inversion Hws; subst s2 e1. clear Hws.
        cbn [engine with_engine write_data_ with_write_set] in Hwd.
        destruct (PooledList.Create kBufferEntries (write_data_ (engine s)) address)
          as [[e|slot2] wd'] eqn:Ewd; [discriminate|].
        inversion Hwd; subst. clear Hwd.
        apply Create_inr in Ews as (Hws & _ & _).
        apply Create_inr in Ewd as (Hwd & -> & _).
        repeat split; try assumption; lia.
      * inversion Ht; subst s0 ok. clear Ht.
        apply IH in Hrun as (Hzero & _). contradiction.
Qed.

(** The revalidation step shared by [ReadWord] and [WriteWord]: when it
    returns, it has only moved the start version. *)
Lemma extend_or_abort_Returns (what : string) (s s' : Sys) :
  (ok <- Extend ;;
   if negb ok then Rollback ;;; throw (TransactionError what true) else ret tt) s
    = (Returns tt, s') ->
  s' = with_engine s (with_version (engine s) (global_version s)).
Proof.
  intros Hrun. apply bind_Returns in Hrun as (ok & s1 & He & Hrun).
  apply Extend_Returns in He as [[-> ->] | [-> ->]]; cbn [negb] in Hrun.
  - inversion Hrun. reflexivity.
  - exfalso. exact (bind_throw_never_returns _ _ _ _ _ Hrun).
Qed.

Lemma WriteWord_loop_free (fuel : nat) (index address : Z) (s : Sys) :
  WriteLock.value_ (w_lock (lock_table s index)) = 0 ->
  0 <= PooledList.next_index_ (write_set_ (engine s)) < kBufferEntries ->
  0 <= PooledList.next_index_ (write_data_ (engine s)) < kBufferEntries ->
  exists s1,
    WriteWord_loop (S fuel) index address s
      = (Returns (PooledList.next_index_ (write_data_ (engine s))), s1).
Proof.
  intros Hfree Hws Hwd. cbn [WriteWord_loop].
  assert (Hl : w_lock_IsLocked index s = (Returns false, s)).
  { unfold w_lock_IsLocked, gets, WriteLock.IsLocked. rewrite Hfree. reflexivity. }
  rewrite (bind_run _ _ _ _ _ Hl). cbv iota.
  assert (Ht : w_lock_TryLock_this index s =
               (Returns true,
                with_lock_table s
                  (<[index := on_w_lock
                       (fun _ => WriteLock.Build (Z.lor (this s) WriteLock.kLockMask))
                       (lock_table s index)]> (lock_table s)))).
  { unfold w_lock_TryLock_this, WriteLock.TryLock. rewrite Hfree. reflexivity. }
  rewrite (bind_run _ _ _ _ _ Ht). cbv iota.
  unfold bind, on_list. cbn [engine with_lock_table].
  rewrite (Create_in_page (write_set_ (engine s)) index Hws).
  cbn [engine with_engine write_data_ with_write_set].
  rewrite (Create_in_page (write_data_ (engine s)) address Hwd).
  eexists. reflexivity.
Qed.

(** What a returning [WriteWord] on a stripe that is not the engine's own
    has done. *)
Lemma WriteWord_not_owned_Returns (s s' : Sys) (fuel : nat) (address data mask : Z) :
  length (PooledList.main_pool_ (write_data_ (engine s))) = 255%nat ->
  WriteLock.IsLockedBy (w_lock (lock_table s (GetLockIndex address))) (this s) = false ->
  WriteWord fuel address data mask s = (Returns tt, s') ->
  let entry := PooledList.next_index_ (write_data_ (engine s)) in
  0 <= entry < 255 /\
  length (PooledList.main_pool_ (write_data_ (engine s'))) = 255%nat /\
  this s' = this s /\
  (forall j, j <> GetLockIndex address -> lock_table s' j = lock_table s j) /\
  (forall other, Z.to_nat other <> Z.to_nat entry ->
     PooledList.slot (write_data_ (engine s')) other =
     PooledList.slot (write_data_ (engine s)) other) /\
  WriteLock.IsLocked (w_lock (lock_table s (GetLockIndex address))) = false /\
  WriteLock.IsLockedBy (w_lock (lock_table s' (GetLockIndex address))) (this s') = true /\
  PooledList.GetSize (write_data_ (engine s')) = entry + 1 /\
  memory s' = memory s /\
  PooledList.slot (write_data_ (engine s')) entry =
    WriteData.Build address
      (if mask =? max64 then data
       else Z.lor (Z.land data mask) (Z.land (memory s address) (not64 mask)))
      mask.
Proof.
  intros Hpage Hnot_mine Hrun entry.
  unfold WriteWord in Hrun.
  apply bind_Returns in Hrun as (mine & s0 & Hm & Hrun).
  unfold w_lock_IsLockedBy_this, gets in Hm. inversion Hm; subst s0. clear Hm.
  rewrite Hnot_mine in H0. subst mine.
  apply bind_Returns in Hrun as (slot & s1 & Hloop & Hrun).
  apply WriteWord_loop_Returns in Hloop as (Hfree & Hws & Hwd & -> & ->).
  apply bind_Returns in Hrun as (v & s0 & Hv & Hrun).
  unfold r_lock_Get, gets in Hv. inversion Hv; subst s0. clear Hv H0.
  apply bind_Returns in Hrun as (version & s0 & Hv & Hrun).
  unfold gets in Hv. inversion Hv; subst s0. clear Hv H0.
  apply bind_Returns in Hrun as ([] & s2 & Hext & Hrun).
  apply bind_Returns in Hrun as (data' & s3 & Hdata & Hrun).
  apply bind_Returns in Hrun as ([] & s4 & Hset & Hrun).
  destruct (CmOnWrite_Returns s4) as (s5 & Hcm & Hthis & Hlt & Hmem & _ & Hwdata & _).
  rewrite Hcm in Hrun. inversion Hrun; subst s5. clear Hrun Hcm.
  unfold update_write_data, modify_engine, modify in Hset.
  inversion Hset; subst s4. clear Hset.
  assert (Hs2 : this s2 = this s /\ memory s2 = memory s /\
                lock_table s2 =
                  <[GetLockIndex address :=
                      on_w_lock (fun _ => WriteLock.Build (Z.lor (this s) WriteLock.kLockMask))
                                (lock_table s (GetLockIndex address))]> (lock_table s) /\
                write_data_ (engine s2) =
                  snd (PooledList.Create kBufferEntries (write_data_ (engine s)) address)).
  { destruct (v >? version).
    - apply extend_or_abort_Returns in Hext. subst s2. repeat split.
    - inversion Hext; subst s2. repeat split. }
  destruct Hs2 as (Hthis2 & Hmem2 & Hlt2 & Hwd2).
  assert (Hs3 : s3 = s2 /\
                data' = if mask =? max64 then data
                        else Z.lor (Z.land data mask) (Z.land (memory s address) (not64 mask))).
  { change (not64 0) with max64 in Hdata.
    destruct (mask =? max64); cbn [negb] in Hdata.
    - unfold ret in Hdata. injection Hdata as Hd Hs. auto.
    - unfold bind, load, gets, ret in Hdata. injection Hdata as Hd Hs.
      rewrite Hmem2 in Hd. auto. }
  destruct Hs3 as (-> & ->).
  cbn [this lock_table memory engine with_engine write_data_ with_write_data]
    in Hthis, Hlt, Hmem, Hwdata.
  rewrite Hwd2 in Hwdata.
  rewrite (Create_in_page (write_data_ (engine s)) address Hwd) in Hwdata.
  cbn [snd] in Hwdata.
  split; [exact Hwd|].
  split; [rewrite Hwdata; unfold PooledList.store; cbn [PooledList.main_pool_];
          rewrite !length_insert; exact Hpage|].
  split; [rewrite Hthis; exact Hthis2|].
  split; [intros j Hj; rewrite Hlt, Hlt2; apply fn_lookup_insert_ne; congruence|].
  split.
  { intros other Hother. subst entry.
    assert (Hne : Z.to_nat (PooledList.next_index_ (write_data_ (engine s))) <> Z.to_nat other)
      by (intros E; apply Hother; symmetry; exact E).
    rewrite Hwdata, slot_store_other by exact Hne.
    unfold PooledList.slot. cbn [PooledList.main_pool_].
    rewrite list_lookup_insert_ne by exact Hne. reflexivity. }
  unfold WriteLock.IsLocked, WriteLock.IsLockedBy, PooledList.GetSize.
  rewrite Hlt, Hlt2, Hthis, Hthis2, Hmem, Hmem2, Hwdata, Hfree, fn_lookup_insert.
  cbn [w_lock on_w_lock WriteLock.value_].
  split; [reflexivity|]. split; [apply Z.eqb_refl|].
  split; [reflexivity|]. split; [reflexivity|].
  subst entry. rewrite slot_store_same.
  + unfold WriteData.Set_, PooledList.slot at 1. cbn [PooledList.main_pool_].
    rewrite list_lookup_insert_eq; [reflexivity|].
    rewrite Hpage. unfold kBufferEntries in Hwd. lia.
  + cbn [PooledList.main_pool_]. rewrite length_insert, Hpage.
    unfold kBufferEntries in Hwd. lia.
Qed.

Lemma WriteWord_not_owned_runs (s : Sys) (fuel : nat) (address data mask : Z) :
  WriteLock.IsLockedBy (w_lock (lock_table s (GetLockIndex address))) (this s) = false ->
  WriteLock.value_ (w_lock (lock_table s (GetLockIndex address))) = 0 ->
  0 <= PooledList.next_index_ (write_set_ (engine s)) < 255 ->
  0 <= PooledList.next_index_ (write_data_ (engine s)) < 255 ->
  ReadLock.Get (r_lock (lock_table s (GetLockIndex address))) <= version_ (engine s) ->
  exists s', WriteWord (S fuel) address data mask s = (Returns tt, s').
Proof.
  intros Hnot_mine Hfree Hws Hwd Hver. unfold WriteWord.
  unfold bind at 1. unfold w_lock_IsLockedBy_this, gets at 1. rewrite Hnot_mine.
  destruct (WriteWord_loop_free fuel (GetLockIndex address) address s Hfree Hws Hwd)
    as (s1 & Hloop).
  rewrite (bind_run _ _ _ _ _ Hloop).
  apply WriteWord_loop_Returns in Hloop as (_ & _ & _ & _ & ->).
  unfold bind at 1. unfold r_lock_Get, gets at 1.
  unfold bind at 1. unfold gets at 1.
  cbn [lock_table with_engine with_lock_table engine version_ with_write_data with_write_set].
  rewrite fn_lookup_insert. cbn [r_lock on_r_lock on_w_lock].
  assert (Hgt : (ReadLock.Get (r_lock (lock_table s (GetLockIndex address)))
                   >? version_ (engine s)) = false)
    by (rewrite Z.gtb_ltb; apply Z.ltb_ge; exact Hver).
  rewrite Hgt.
  unfold bind at 1. unfold ret at 1.
  match goal with
  | |- context [bind (if ?c then _ else _) _ ?st] =>
      assert (Hd : exists d, (if c then
                                 current <- load address ;;
                                 ret (Z.lor (Z.land data mask) (Z.land current (not64 mask)))
                               else ret data) st = (Returns d, st))
        by (destruct c; eexists; reflexivity)
  end.
  destruct Hd as (d & Hd). rewrite (bind_run _ _ _ _ _ Hd).
  unfold bind at 1. unfold update_write_data, modify_engine, modify at 1.
  match goal with
  | |- context [CmOnWrite ?st] =>
      destruct (CmOnWrite_Returns st) as (s5 & Hcm & _); rewrite Hcm
  end.
  exists s5. reflexivity.
Qed.

(** C7: a [WriteWord] that finds the write lock of the stripe not its own.
    Whenever it returns, it has taken the lock and the write-data entry it
    created holds the address, the mask, and as data: [data] itself when
    the mask is all ones, and otherwise [(data & mask) | ( *addr & ~mask)]
    for the word [*addr] in memory.  It does return, in any positive number
    of rounds, when the lock is free, the write set and the write data have
    room and the stripe's version is not above the start version. *)
Theorem WriteWord_first_write (s : Sys) (fuel : nat) (address data mask : Z)
    (Hpage : length (PooledList.main_pool_ (write_data_ (engine s))) = 255%nat)
    (Hnot_mine :
       WriteLock.IsLockedBy (w_lock (lock_table s (GetLockIndex address))) (this s) = false) :
  (forall s',
     WriteWord fuel address data mask s = (Returns tt, s') ->
     let entry := PooledList.next_index_ (write_data_ (engine s)) in
     WriteLock.IsLocked (w_lock (lock_table s (GetLockIndex address))) = false /\
     WriteLock.IsLockedBy (w_lock (lock_table s' (GetLockIndex address))) (this s') = true /\
     PooledList.GetSize (write_data_ (engine s')) = entry + 1 /\
     memory s' = memory s /\
     PooledList.slot (write_data_ (engine s')) entry =
       WriteData.Build address
         (if mask =? max64 then data
          else Z.lor (Z.land data mask) (Z.land (memory s address) (not64 mask)))
         mask) /\
  (WriteLock.value_ (w_lock (lock_table s (GetLockIndex address))) = 0 ->
   0 <= PooledList.next_index_ (write_set_ (engine s)) < 255 ->
   0 <= PooledList.next_index_ (write_data_ (engine s)) < 255 ->
   ReadLock.Get (r_lock (lock_table s (GetLockIndex address))) <= version_ (engine s) ->
   fuel <> O ->
   exists s', WriteWord fuel address data mask s = (Returns tt, s')).
Proof.
  split.
  - intros s' Hrun.
    destruct (WriteWord_not_owned_Returns s s' fuel address data mask Hpage Hnot_mine Hrun)
      as (_ & _ & _ & _ & _ & H1 & H2 & H3 & H4 & H5).
    repeat split; assumption.
  - intros Hfree Hws Hwd Hver Hfuel.
    destruct fuel as [|fuel]; [contradiction|].
    exact (WriteWord_not_owned_runs s fuel address data mask Hnot_mine Hfree Hws Hwd Hver).
Qed.

(** The first write of a transaction, to the low byte of the word at
    0x1000 that holds 0x1000: the entry holds 0x10CD. *)
Lemma WriteWord_first_write_witness :
  let s := run BeginReadWrite fresh in
  exists s',
    WriteWord 1 0x1000 0xCD 0xFF s = (Returns tt, s') /\
    PooledList.slot (write_data_ (engine s')) 0 = WriteData.Build 0x1000 0x10CD 0xFF.
Proof.
  intros s.
  assert (Hpage : length (PooledList.main_pool_ (write_data_ (engine s))) = 255%nat)
    by reflexivity.
  assert (Hnot_mine :
            WriteLock.IsLockedBy (w_lock (lock_table s (GetLockIndex 0x1000))) (this s) = false)
    by reflexivity.
  destruct (WriteWord_first_write s 1 0x1000 0xCD 0xFF Hpage Hnot_mine) as [Hpost Hruns].
  destruct Hruns as [s' Hs'].
  - reflexivity.
  - vm_compute. split; [discriminate | reflexivity].
  - vm_compute. split; [discriminate | reflexivity].
  - vm_compute. discriminate.
  - discriminate.
  - exists s'. split; [exact Hs'|].
    destruct (Hpost s' Hs') as (_ & _ & _ & _ & Hslot). exact Hslot.
Defined.

(** *** The search of a pooled list *)

Section SearchFacts.
Context {T : Type} `{PoolEntry T}.

Lemma search_Some (l : PooledList.t T) (key : Z) (todo : nat) (i entry : Z) :
  PooledList.search kBufferEntries l key i todo = inr (Some entry) ->
  entry_eqb (PooledList.slot l entry) key = true /\ 0 <= entry < kBufferEntries.
Proof.
  revert i. induction todo as [|todo IH]; intros i Hs; cbn [PooledList.search] in Hs.
  - discriminate.
  - destruct (PooledList.GetEntry kBufferEntries i) as [e|n] eqn:Hg; [discriminate|].
    apply GetEntry_inr in Hg as (Hi & ->).
    destruct (entry_eqb (PooledList.slot l i) key) eqn:Hk.
    + inversion Hs; subst entry. split; assumption.
    + exact (IH _ Hs).
Qed.

Lemma search_ext (l l' : PooledList.t T) (key : Z) (todo : nat) (i : Z) :
  (forall j, entry_eqb (PooledList.slot l' j) key = entry_eqb (PooledList.slot l j) key) ->
  PooledList.search kBufferEntries l' key i todo = PooledList.search kBufferEntries l key i todo.
Proof.
  intros Hkeys. revert i. induction todo as [|todo IH]; intros i; cbn [PooledList.search].
  - reflexivity.
  - destruct (PooledList.GetEntry kBufferEntries i) as [e|n]; [reflexivity|].
    rewrite Hkeys, IH. reflexivity.
Qed.

Lemma search_finds (l : PooledList.t T) (key : Z) (todo : nat) (i j : Z) :
  0 <= i -> i + Z.of_nat todo <= kBufferEntries ->
  i <= j < i + Z.of_nat todo ->
  entry_eqb (PooledList.slot l j) key = true ->
  exists entry, PooledList.search kBufferEntries l key i todo = inr (Some entry).
Proof.
  revert i. induction todo as [|todo IH]; intros i Hi Hend Hj Hk; [lia|].
  cbn [PooledList.search]. rewrite GetEntry_in_page by lia.
  destruct (entry_eqb (PooledList.slot l i) key) eqn:Hki.
  - exists i. reflexivity.
  - apply IH; try lia; [|exact Hk].
    destruct (Z.eq_dec i j) as [->|Hne]; [congruence | lia].
Qed.

Lemma search_Some_range (l : PooledList.t T) (key : Z) (todo : nat) (i entry : Z) :
  PooledList.search kBufferEntries l key i todo = inr (Some entry) ->
  i <= entry < i + Z.of_nat todo.
Proof.
  revert i. induction todo as [|todo IH]; intros i Hs; cbn [PooledList.search] in Hs.
  - discriminate.
  - destruct (PooledList.GetEntry kBufferEntries i) as [e|n] eqn:Hg; [discriminate|].
    apply GetEntry_inr in Hg as (Hi & ->).
    destruct (entry_eqb (PooledList.slot l i) key).
    + inversion Hs; subst entry. lia.
    + apply IH in Hs. lia.
Qed.

(** A search that ended at an entry ends there again after the list has
    grown, as long as the keys up to that entry are the same. *)
Lemma search_stable (l l' : PooledList.t T) (key : Z) (todo todo' : nat) (i entry : Z) :
  PooledList.search kBufferEntries l key i todo = inr (Some entry) ->
  (forall j, i <= j <= entry ->
     entry_eqb (PooledList.slot l' j) key = entry_eqb (PooledList.slot l j) key) ->
  (todo <= todo')%nat ->
  PooledList.search kBufferEntries l' key i todo' = inr (Some entry).
Proof.
  revert i todo'. induction todo as [|todo IH]; intros i todo' Hs Hkeys Hle;
    cbn [PooledList.search] in Hs; [discriminate|].
  destruct todo' as [|todo']; [lia|]. cbn [PooledList.search].
  destruct (PooledList.GetEntry kBufferEntries i) as [e|n] eqn:Hg; [discriminate|].
  apply GetEntry_inr in Hg as (Hi & ->).
  destruct (entry_eqb (PooledList.slot l i) key) eqn:Hk.
  - inversion Hs; subst entry. rewrite Hkeys, Hk by lia. reflexivity.
  - pose proof (search_Some_range _ _ _ _ _ Hs) as Hrange.
    rewrite Hkeys, Hk by lia.
    apply IH; [exact Hs | intros j Hj; apply Hkeys; lia | lia].
Qed.

Lemma Get_after_append (l l' : PooledList.t T) (key entry : Z) :
  PooledList.Get kBufferEntries l key = inr (Some entry) ->
  0 <= PooledList.next_index_ l ->
  PooledList.next_index_ l' = PooledList.next_index_ l + 1 ->
  (forall other, Z.to_nat other <> Z.to_nat (PooledList.next_index_ l) ->
     PooledList.slot l' other = PooledList.slot l other) ->
  PooledList.Get kBufferEntries l' key = inr (Some entry).
Proof.
  intros Hget Hn Hnext Hslots. unfold PooledList.Get in *.
  pose proof (search_Some_range _ _ _ _ _ Hget) as Hrange.
  apply (search_stable l l' key (Z.to_nat (PooledList.next_index_ l))); [exact Hget| |lia].
  intros j Hj. rewrite Hslots by lia. reflexivity.
Qed.

Lemma slot_store_key (l : PooledList.t T) (entry : Z) (v : T) (key j : Z) :
  entry_eqb v key = entry_eqb (PooledList.slot l entry) key ->
  entry_eqb (PooledList.slot (PooledList.store l entry v) j) key =
  entry_eqb (PooledList.slot l j) key.
Proof.
  intros Hv. unfold PooledList.slot, PooledList.store in *. cbn [PooledList.main_pool_].
  destruct (decide (Z.to_nat entry = Z.to_nat j)) as [E|E].
  - rewrite <- E.
    destruct (decide (Z.to_nat entry < length (PooledList.main_pool_ l))%nat) as [Hin|Hout].
    + rewrite list_lookup_insert_eq by exact Hin. exact Hv.
    + rewrite list_insert_ge by lia. reflexivity.
  - rewrite list_lookup_insert_ne by exact E. reflexivity.
Qed.
End SearchFacts.

Lemma lift_Returns {A} (r : Exception + A) (s s' : Sys) (a : A) :
  lift r s = (Returns a, s') -> r = inr a /\ s' = s.
Proof.
  destruct r as [e|x]; unfold lift, throw, ret; intros Heq; inversion Heq; auto.
Qed.

(** A [WriteWord] on a stripe the engine owns, to an address that has an
    entry: the entry is extended and nothing else changes. *)
Lemma WriteWord_owned_found (s : Sys) (fuel : nat) (address data mask entry : Z) :
  WriteLock.IsLockedBy (w_lock (lock_table s (GetLockIndex address))) (this s) = true ->
  PooledList.Get kBufferEntries (write_data_ (engine s)) address = inr (Some entry) ->
  WriteWord fuel address data mask s =
    (Returns tt,
     with_engine s
       (with_write_data (engine s)
          (PooledList.store (write_data_ (engine s)) entry
             (WriteData.Extend (PooledList.slot (write_data_ (engine s)) entry) data mask)))).
Proof.
  intros Hmine Hget. unfold WriteWord.
  unfold bind at 1. unfold w_lock_IsLockedBy_this, gets at 1. rewrite Hmine.
  unfold bind at 1. unfold gets at 1.
  unfold bind at 1. rewrite Hget. reflexivity.
Qed.

(** After a [WriteWord] that returned, the engine owns the stripe and the
    search of the write data finds an entry for the address. *)
Lemma WriteWord_Returns_found (s s1 : Sys) (fuel : nat) (address data mask : Z) :
  length (PooledList.main_pool_ (write_data_ (engine s))) = 255%nat ->
  WriteWord fuel address data mask s = (Returns tt, s1) ->
  WriteLock.IsLockedBy (w_lock (lock_table s1 (GetLockIndex address))) (this s1) = true /\
  length (PooledList.main_pool_ (write_data_ (engine s1))) = 255%nat /\
  exists entry,
    PooledList.Get kBufferEntries (write_data_ (engine s1)) address = inr (Some entry).
Proof.
  intros Hpage Hrun.
  destruct (WriteLock.IsLockedBy (w_lock (lock_table s (GetLockIndex address))) (this s))
    eqn:Hmine.
  - unfold WriteWord in Hrun.
    apply bind_Returns in Hrun as (mine & s0 & Hm & Hrun).
    unfold w_lock_IsLockedBy_this, gets in Hm. injection Hm as Hm Hs0. subst s0.
    rewrite Hmine in Hm. subst mine.
    apply bind_Returns in Hrun as (l & s0 & Hl & Hrun).
    unfold gets in Hl. injection Hl as Hl Hs0. subst s0 l.
    apply bind_Returns in Hrun as (found & s0 & Hget & Hrun).
    apply lift_Returns in Hget as (Hget & ->).
    destruct found as [entry|].
    + unfold update_write_data, modify_engine, modify in Hrun.
      injection Hrun as Hs1. subst s1.
      cbn [lock_table this engine with_engine write_data_ with_write_data].
      split; [exact Hmine|].
      split; [unfold PooledList.store; cbn [PooledList.main_pool_];
              rewrite length_insert; exact Hpage|].
      exists entry. unfold PooledList.Get in *.
      unfold PooledList.store at 1. cbn [PooledList.next_index_].
      rewrite <- Hget. apply search_ext. intros j. apply slot_store_key. reflexivity.
    + apply bind_Returns in Hrun as (entry & s2 & Hcreate & Hrun).
      unfold on_list in Hcreate.
      destruct (PooledList.Create kBufferEntries (write_data_ (engine s)) address)
        as [[e|n] wd2] eqn:Hc; [discriminate|].
      injection Hcreate as He Hs2. subst entry s2.
      apply Create_inr in Hc as (Hn & -> & ->).
      unfold update_write_data, modify_engine, modify in Hrun.
      injection Hrun as Hs1. subst s1.
      cbn [lock_table this engine with_engine write_data_ with_write_data].
      split; [exact Hmine|].
      split; [unfold PooledList.store; cbn [PooledList.main_pool_];
              rewrite !length_insert; exact Hpage|].
      unfold PooledList.Get.
      apply (search_finds _ _ _ 0 (PooledList.next_index_ (write_data_ (engine s))));
        unfold PooledList.store; cbn [PooledList.next_index_ PooledList.main_pool_];
        unfold kBufferEntries in *; try lia.
      unfold PooledList.slot at 1. cbn [PooledList.main_pool_].
      rewrite list_lookup_insert_eq by (rewrite length_insert, Hpage; lia).
      cbn [default]. unfold PooledList.slot at 1. cbn [PooledList.main_pool_].
      rewrite list_lookup_insert_eq by (rewrite Hpage; lia).
      cbn. apply Z.eqb_refl.
  - destruct (WriteWord_not_owned_Returns s s1 fuel address data mask Hpage Hmine Hrun)
      as (Hn & Hpage1 & _ & _ & _ & _ & Hmine1 & Hsize & _ & Hslot).
    split; [exact Hmine1|]. split; [exact Hpage1|].
    unfold PooledList.Get. unfold PooledList.GetSize in Hsize. rewrite Hsize.
    apply (search_finds _ _ _ 0 (PooledList.next_index_ (write_data_ (engine s))));
      unfold kBufferEntries; try lia.
    rewrite Hslot. cbn. apply Z.eqb_refl.
Qed.

(** *** Between two writes of a transaction *)

Lemma ReadWord_loop_state (fuel : nat) (index address v1 : Z) (s : Sys) :
  snd (ReadWord_loop fuel index address v1 s) = s.
Proof.
  revert v1. induction fuel as [|fuel IH]; intros v1; cbn [ReadWord_loop]; [reflexivity|].
  unfold bind, r_lock_Get, load, gets, ret.
  repeat match goal with
         | |- context [if ?c then _ else _] => destruct c
         end; try reflexivity; apply IH.
Qed.

Lemma on_list_Returns {T A} (sel : TransactionEngine -> PooledList.t T)
    (upd : TransactionEngine -> PooledList.t T -> TransactionEngine)
    (op : PooledList.t T -> (Exception + A) * PooledList.t T) (s s' : Sys) (a : A) :
  on_list sel upd op s = (Returns a, s') ->
  op (sel (engine s)) = (inr a, snd (op (sel (engine s)))) /\
  s' = with_engine s (upd (engine s) (snd (op (sel (engine s))))).
Proof.
  unfold on_list. destruct (op (sel (engine s))) as [[e|x] l]; intros Heq;
    inversion Heq; subst. split; reflexivity.
Qed.

(** A [ReadWord] that returns leaves the locks and the write data alone. *)
Lemma ReadWord_Returns_frame (fuel : nat) (address v : Z) (s s' : Sys) :
  ReadWord fuel address s = (Returns v, s') ->
  this s' = this s /\ lock_table s' = lock_table s /\
  write_data_ (engine s') = write_data_ (engine s).
Proof.
  intros Hrun. unfold ReadWord in Hrun.
  apply bind_Returns in Hrun as (mine & s0 & Hm & Hrun).
  unfold w_lock_IsLockedBy_this, gets in Hm. injection Hm as _ Hs0. subst s0.
  destruct mine.
  - apply bind_Returns in Hrun as (l & s0 & Hl & Hrun).
    unfold gets in Hl. injection Hl as _ Hs0. subst s0.
    apply bind_Returns in Hrun as (found & s0 & Hget & Hrun).
    apply lift_Returns in Hget as (_ & ->).
    apply bind_Returns in Hrun as (entry & s0 & Hd & Hrun).
    destruct found as [e|]; [|discriminate].
    unfold deref, ret in Hd. injection Hd as _ Hs0. subst s0.
    unfold gets in Hrun. injection Hrun as _ Hs'. subst s'. repeat split.
  - apply bind_Returns in Hrun as (v1 & s0 & Hv & Hrun).
    unfold r_lock_Get, gets in Hv. injection Hv as _ Hs0. subst s0.
    apply bind_Returns in Hrun as (r & s1 & Hloop & Hrun).
    pose proof (ReadWord_loop_state fuel (GetLockIndex address) address v1 s) as Hsame.
    rewrite Hloop in Hsame. cbn [snd] in Hsame. subst s1.
    apply bind_Returns in Hrun as (entry & s2 & Hcreate & Hrun).
    apply on_list_Returns in Hcreate as (_ & ->).
    apply bind_Returns in Hrun as (version & s0 & Hv & Hrun).
    unfold gets in Hv. injection Hv as _ Hs0. subst s0.
    apply bind_Returns in Hrun as ([] & s3 & Hext & Hrun).
    unfold ret in Hrun. injection Hrun as _ Hs'. subst s'.
    destruct (snd r >? version).
    + apply extend_or_abort_Returns in Hext. subst s3. repeat split.
    + unfold ret in Hext. injection Hext as Hs3. subst s3. repeat split.
Qed.

(** What a returning [WriteWord] on a stripe of the engine's own has done:
    it extended the entry of the address, or created one at the end. *)
Lemma WriteWord_owned_Returns (s s' : Sys) (fuel : nat) (address data mask : Z) :
  WriteLock.IsLockedBy (w_lock (lock_table s (GetLockIndex address))) (this s) = true ->
  WriteWord fuel address data mask s = (Returns tt, s') ->
  let wd := write_data_ (engine s) in
  this s' = this s /\ lock_table s' = lock_table s /\
  ((exists entry,
      PooledList.Get kBufferEntries wd address = inr (Some entry) /\
      write_data_ (engine s') =
        PooledList.store wd entry (WriteData.Extend (PooledList.slot wd entry) data mask)) \/
   (PooledList.Get kBufferEntries wd address = inr None /\
    0 <= PooledList.next_index_ wd < kBufferEntries /\
    PooledList.next_index_ (write_data_ (engine s')) = PooledList.next_index_ wd + 1 /\
    length (PooledList.main_pool_ (write_data_ (engine s'))) = length (PooledList.main_pool_ wd) /\
    forall other, Z.to_nat other <> Z.to_nat (PooledList.next_index_ wd) ->
      PooledList.slot (write_data_ (engine s')) other = PooledList.slot wd other)).
Proof.
  intros Hmine Hrun wd. unfold WriteWord in Hrun.
  apply bind_Returns in Hrun as (mine & s0 & Hm & Hrun).
  unfold w_lock_IsLockedBy_this, gets in Hm. injection Hm as Hm Hs0. subst s0.
  rewrite Hmine in Hm. subst mine.
  apply bind_Returns in Hrun as (l & s0 & Hl & Hrun).
  unfold gets in Hl. injection Hl as Hl Hs0. subst s0 l.
  apply bind_Returns in Hrun as (found & s0 & Hget & Hrun).
  apply lift_Returns in Hget as (Hget & ->).
  destruct found as [entry|].
  - unfold update_write_data, modify_engine, modify in Hrun.
    injection Hrun as Hs1. subst s'.
    split; [reflexivity|]. split; [reflexivity|]. left. exists entry.
    split; [exact Hget | reflexivity].
  - apply bind_Returns in Hrun as (entry & s2 & Hcreate & Hrun).
    apply on_list_Returns in Hcreate as (Hc & ->).
    apply Create_inr in Hc as (Hn & -> & Hwd2).
    unfold update_write_data, modify_engine, modify in Hrun.
    injection Hrun as Hs1. subst s'.
    cbn [engine with_engine write_data_ with_write_data this lock_table].
    split; [reflexivity|]. split; [reflexivity|]. right.
    split; [exact Hget|]. split; [exact Hn|].
    rewrite Hwd2. unfold PooledList.store. cbn [PooledList.next_index_ PooledList.main_pool_].
    split; [reflexivity|]. split; [rewrite !length_insert; reflexivity|].
    intros other Hother. unfold PooledList.slot. cbn [PooledList.main_pool_].
    rewrite !list_lookup_insert_ne by (intros E; apply Hother; symmetry; exact E).
    reflexivity.
Qed.

(** Owning the stripe of an address and having an entry for it lasts
    through whatever the transaction does next. *)
Lemma owned_entry_step (address entry : Z) (s s' : Sys) :
  transaction_step s s' ->
  WriteLock.IsLockedBy (w_lock (lock_table s (GetLockIndex address))) (this s) = true ->
  length (PooledList.main_pool_ (write_data_ (engine s))) = 255%nat ->
  PooledList.Get kBufferEntries (write_data_ (engine s)) address = inr (Some entry) ->
  WriteLock.IsLockedBy (w_lock (lock_table s' (GetLockIndex address))) (this s') = true /\
  length (PooledList.main_pool_ (write_data_ (engine s'))) = 255%nat /\
  PooledList.Get kBufferEntries (write_data_ (engine s')) address = inr (Some entry).
Proof.
  intros Hstep Hmine Hpage Hget.
  destruct Hstep as [fuel b v Hread | fuel b data mask Hwrite | Hthis Hengine Hlocks].
  - apply ReadWord_Returns_frame in Hread as (-> & -> & ->). auto.
  - destruct (WriteLock.IsLockedBy (w_lock (lock_table s (GetLockIndex b))) (this s))
      eqn:Hb.
    + destruct (WriteWord_owned_Returns s s' fuel b data mask Hb Hwrite)
        as (-> & -> & [(e & Hgetb & ->) | (_ & Hn & Hnext & Hlen & Hslots)]).
      * split; [exact Hmine|].
        split; [unfold PooledList.store; cbn [PooledList.main_pool_];
                rewrite length_insert; exact Hpage|].
        unfold PooledList.Get in *. unfold PooledList.store at 1.
        cbn [PooledList.next_index_]. rewrite <- Hget.
        apply search_ext. intros j. apply slot_store_key. reflexivity.
      * split; [exact Hmine|]. split; [rewrite Hlen; exact Hpage|].
        apply (Get_after_append (write_data_ (engine s))); [exact Hget|lia|exact Hnext|exact Hslots].
    + destruct (WriteWord_not_owned_Returns s s' fuel b data mask Hpage Hb Hwrite)
        as (Hn & Hpage' & -> & Hlocks & Hslots & _ & _ & Hsize & _).
      assert (Hne : GetLockIndex address <> GetLockIndex b) by congruence.
      rewrite (Hlocks _ Hne).
      split; [exact Hmine|]. split; [exact Hpage'|].
      apply (Get_after_append (write_data_ (engine s))); [exact Hget|lia|exact Hsize|exact Hslots].
  - rewrite Hthis, Hengine, (Hlocks _ Hmine). auto.
Qed.

Lemma owned_entry_continues (address entry : Z) (s s' : Sys) :
  transaction_continues s s' ->
  WriteLock.IsLockedBy (w_lock (lock_table s (GetLockIndex address))) (this s) = true ->
  length (PooledList.main_pool_ (write_data_ (engine s))) = 255%nat ->
  PooledList.Get kBufferEntries (write_data_ (engine s)) address = inr (Some entry) ->
  WriteLock.IsLockedBy (w_lock (lock_table s' (GetLockIndex address))) (this s') = true /\
  length (PooledList.main_pool_ (write_data_ (engine s'))) = 255%nat /\
  PooledList.Get kBufferEntries (write_data_ (engine s')) address = inr (Some entry).
Proof.
  induction 1 as [s | s s1 s2 Hstep _ IH]; intros Hmine Hpage Hget; [auto|].
  destruct (owned_entry_step address entry s s1 Hstep Hmine Hpage Hget) as (H1 & H2 & H3).
  exact (IH H1 H2 H3).
Qed.

(** C6: after a [WriteWord] to [address] that returned, the engine owns the
    stripe and the write data holds an entry for the address, and this
    lasts while the transaction continues with reads and writes that
    return and while other engines run.  A later [WriteWord] to the address
    returns, whatever its bound on spinning, and leaves in that same entry
    the data [(old_data & ~new_mask) | (new_data & new_mask)] and the mask
    [old_mask | new_mask]; the write data has as many entries as before,
    every other slot is as it was, and the search still ends at the same
    entry. *)
Theorem WriteWord_same_address_merges (s s1 s2 : Sys) (fuel fuel' : nat)
    (address data mask new_data new_mask : Z)
    (Hpage : length (PooledList.main_pool_ (write_data_ (engine s))) = 255%nat)
    (Hfirst : WriteWord fuel address data mask s = (Returns tt, s1))
    (Hbetween : transaction_continues s1 s2) :
  WriteLock.IsLockedBy (w_lock (lock_table s2 (GetLockIndex address))) (this s2) = true /\
  exists entry s3,
    let old := PooledList.slot (write_data_ (engine s2)) entry in
    PooledList.Get kBufferEntries (write_data_ (engine s1)) address = inr (Some entry) /\
    PooledList.Get kBufferEntries (write_data_ (engine s2)) address = inr (Some entry) /\
    WriteData.GetAddress old = address /\
    WriteWord fuel' address new_data new_mask s2 = (Returns tt, s3) /\
    PooledList.slot (write_data_ (engine s3)) entry =
      WriteData.Build address
        (Z.lor (Z.land (WriteData.GetData old) (not64 new_mask)) (Z.land new_data new_mask))
        (Z.lor (WriteData.GetMask old) new_mask) /\
    PooledList.GetSize (write_data_ (engine s3)) = PooledList.GetSize (write_data_ (engine s2)) /\
    (forall other, Z.to_nat other <> Z.to_nat entry ->
       PooledList.slot (write_data_ (engine s3)) other =
       PooledList.slot (write_data_ (engine s2)) other) /\
    PooledList.Get kBufferEntries (write_data_ (engine s3)) address = inr (Some entry).
Proof.
  destruct (WriteWord_Returns_found s s1 fuel address data mask Hpage Hfirst)
    as (Hmine1 & Hpage1 & entry & Hget1).
  destruct (owned_entry_continues address entry s1 s2 Hbetween Hmine1 Hpage1 Hget1)
    as (Hmine & Hpage2 & Hget).
  split; [exact Hmine|].
  exists entry. eexists. cbv zeta.
  split; [exact Hget1|]. split; [exact Hget|].
  pose proof (search_Some _ _ _ _ _ Hget) as (Hkey & Hentry).
  cbn in Hkey. apply Z.eqb_eq in Hkey.
  split; [exact Hkey|].
  split; [apply (WriteWord_owned_found s2 fuel' address new_data new_mask entry Hmine Hget)|].
  cbn [engine with_engine write_data_ with_write_data].
  split; [|split; [reflexivity|split]].
  - rewrite slot_store_same by (rewrite Hpage2; unfold kBufferEntries in Hentry; lia).
    unfold WriteData.Extend, WriteData.GetData, WriteData.GetMask.
    unfold WriteData.GetAddress in Hkey. rewrite Hkey. reflexivity.
  - intros other Hother. apply slot_store_other. congruence.
  - unfold PooledList.Get in *. unfold PooledList.store at 1. cbn [PooledList.next_index_].
    rewrite <- Hget. apply search_ext. intros j. apply slot_store_key. reflexivity.
Qed.

(** Two writes to the word at 0x1000, the low byte first and the second
    byte last, with a write to 0x1008, a read of 0x1010 and the commit of
    another engine to 0x1018 in between. *)
Lemma WriteWord_same_address_merges_witness :
  let s := run BeginReadWrite fresh in
  let s1 := run (WriteWord 1 0x1000 0xCD 0xFF) s in
  let s2 := peer_commits 0x1018 5
              (run (ReadWord 1 0x1010) (run (WriteWord 1 0x1008 1 max64) s1)) in
  exists s3,
    WriteWord 1 0x1000 0xCD 0xFF s = (Returns tt, s1) /\
    WriteWord 0 0x1000 0xAB00 0xFF00 s2 = (Returns tt, s3) /\
    PooledList.slot (write_data_ (engine s3)) 0 = WriteData.Build 0x1000 0xABCD 0xFFFF /\
    PooledList.GetSize (write_data_ (engine s3)) = 2.
Proof.
  intros s s1 s2.
  assert (Hpage : length (PooledList.main_pool_ (write_data_ (engine s))) = 255%nat)
    by reflexivity.
  assert (Hfirst : WriteWord 1 0x1000 0xCD 0xFF s = (Returns tt, s1))
    by (vm_compute; reflexivity).
  assert (Hbetween : transaction_continues s1 s2).
  { apply (continues_on _ (run (WriteWord 1 0x1008 1 max64) s1)).
    { apply (step_write _ _ 1%nat 0x1008 1 max64). vm_compute. reflexivity. }
    apply (continues_on _ (run (ReadWord 1 0x1010) (run (WriteWord 1 0x1008 1 max64) s1))).
    { apply (step_read _ _ 1%nat 0x1010 0x1010). vm_compute. reflexivity. }
    apply (continues_on _ s2); [|apply continues_here].
    apply step_peers; [reflexivity | reflexivity |].
    intros index Hmine. unfold s2, peer_commits.
    cbn [lock_table with_global_version with_memory with_lock_table].
    apply fn_lookup_insert_ne. intros <-. vm_compute in Hmine. discriminate. }
  destruct (WriteWord_same_address_merges s s1 s2 1 0 0x1000 0xCD 0xFF 0xAB00 0xFF00
              Hpage Hfirst Hbetween)
    as (_ & entry & s3 & Hget1 & _ & _ & Hsecond & Hslot & Hsize & _).
  exists s3. split; [exact Hfirst|]. split; [exact Hsecond|].
  assert (Hentry : entry = 0) by (vm_compute in Hget1; congruence).
  subst entry. split; [exact Hslot | exact Hsize].
Defined.

(** ** Commit, when the revalidation fails *)

Lemma bind_gets {A B} (f : Sys -> A) (k : A -> M B) (s : Sys) :
  bind (gets f) k s = k (f s) s.
Proof. reflexivity. Qed.

Lemma bind_modify {B} (f : Sys -> Sys) (k : unit -> M B) (s : Sys) :
  bind (modify f) k s = k tt (f s).
Proof. reflexivity. Qed.

Lemma bind_assoc {A B C} (m : M A) (f : A -> M B) (g : B -> M C) (s : Sys) :
  bind (bind m f) g s = bind m (fun a => bind (f a) g) s.
Proof. unfold bind. destruct (m s) as [[a| | |] s1]; reflexivity. Qed.

Lemma bind_Throws {A B} (m : M A) (k : A -> M B) (s s' : Sys) (e : Exception) :
  m s = (Throws e, s') -> bind m k s = (Throws e, s').
Proof. intros Hm. unfold bind. rewrite Hm. reflexivity. Qed.

Lemma with_lock_table_same (s : Sys) : with_lock_table s (lock_table s) = s.
Proof. destruct s. reflexivity. Qed.

Section RangeFacts.
Context {T : Type} `{PoolEntry T}.

Lemma visit_in_page (l : PooledList.t T) (todo : nat) (i : Z) :
  0 <= i -> i + Z.of_nat todo <= kBufferEntries ->
  PooledList.visit kBufferEntries l i todo =
    map inr (map (fun k => PooledList.slot l (Z.of_nat k)) (seq (Z.to_nat i) todo)).
Proof.
  revert i. induction todo as [|todo IH]; intros i Hi Hend; cbn [PooledList.visit seq map].
  - reflexivity.
  - rewrite GetEntry_in_page by lia.
    rewrite Z2Nat.id by lia. f_equal.
    rewrite IH by lia. rewrite Z2Nat.inj_add by lia.
    replace (Z.to_nat i + Z.to_nat 1)%nat with (S (Z.to_nat i)) by lia. reflexivity.
Qed.

Lemma visit_overflow (l : PooledList.t T) (todo : nat) (i : Z) :
  0 <= i <= kBufferEntries -> kBufferEntries < i + Z.of_nat todo ->
  exists xs,
    PooledList.visit kBufferEntries l i todo
      = map inr xs ++ [inl (runtime_error "Out of memory")].
Proof.
  revert i. induction todo as [|todo IH]; intros i Hi Hend; [lia|].
  cbn [PooledList.visit].
  destruct (Z.eq_dec i kBufferEntries) as [->|Hne].
  - rewrite GetEntry_out_of_page by lia. exists []. reflexivity.
  - rewrite GetEntry_in_page by lia.
    destruct (IH (i + 1)) as (xs & Hxs); [lia|lia|].
    exists (PooledList.slot l i :: xs). rewrite Hxs. reflexivity.
Qed.

Lemma range_in_page (l : PooledList.t T) :
  0 <= PooledList.next_index_ l <= kBufferEntries ->
  PooledList.range kBufferEntries l = map inr (entries l).
Proof.
  intros Hn. unfold PooledList.range, entries.
  rewrite visit_in_page by lia. reflexivity.
Qed.
End RangeFacts.

Lemma for_each_update_lock (f : LockEntry -> LockEntry) (xs : list WriteSetEntry.t) (s : Sys) :
  for_each (map inr xs) (fun entry => update_lock (WriteSetEntry.GetIndex entry) f) s =
    (Returns tt,
     with_lock_table s
       (update_stripes f (map WriteSetEntry.GetIndex xs) (lock_table s))).
Proof.
  revert s. induction xs as [|x xs IH]; intros s; cbn [map for_each].
  - unfold update_stripes. cbn [fold_left]. rewrite with_lock_table_same. reflexivity.
  - unfold update_lock. rewrite bind_modify. rewrite IH. reflexivity.
Qed.

Lemma for_each_update_lock_throws (f : LockEntry -> LockEntry)
    (xs : list WriteSetEntry.t) (e : Exception) (s : Sys) :
  fst (for_each (map inr xs ++ [inl e])
         (fun entry => update_lock (WriteSetEntry.GetIndex entry) f) s) = Throws e.
Proof.
  revert s. induction xs as [|x xs IH]; intros s; cbn [map app for_each].
  - reflexivity.
  - unfold update_lock. rewrite bind_modify. apply IH.
Qed.

Lemma update_stripes_elsewhere (f : LockEntry -> LockEntry) (indices : list Z)
    (t : Z -> LockEntry) (j : Z) :
  ~ In j indices -> update_stripes f indices t j = t j.
Proof.
  revert t. induction indices as [|i indices IH]; intros t Hnot; [reflexivity|].
  unfold update_stripes in *. cbn [fold_left].
  rewrite IH by (intros Hin; apply Hnot; right; exact Hin).
  apply fn_lookup_insert_ne. intros ->. apply Hnot. left. reflexivity.
Qed.

Lemma update_stripes_keeps (Q : LockEntry -> Prop) (f : LockEntry -> LockEntry)
    (indices : list Z) (t : Z -> LockEntry) (j : Z) :
  (forall x, Q x -> Q (f x)) -> Q (t j) -> Q (update_stripes f indices t j).
Proof.
  intros Hf. revert t. induction indices as [|i indices IH]; intros t Hq; [exact Hq|].
  unfold update_stripes in *. cbn [fold_left]. apply IH.
  destruct (decide (i = j)) as [->|Hne].
  - rewrite fn_lookup_insert. apply Hf. exact Hq.
  - rewrite fn_lookup_insert_ne by exact Hne. exact Hq.
Qed.

Lemma update_stripes_reaches (P : LockEntry -> Prop) (f : LockEntry -> LockEntry)
    (indices : list Z) (t : Z -> LockEntry) (j : Z) :
  (forall x, P (f x)) -> In j indices -> P (update_stripes f indices t j).
Proof.
  intros Hf. revert t. induction indices as [|i indices IH]; intros t Hin; [destruct Hin|].
  destruct (in_dec Z.eq_dec j indices) as [Hlater|Hlast].
  - unfold update_stripes in *. cbn [fold_left]. apply IH. exact Hlater.
  - destruct Hin as [->|Hin]; [|contradiction].
    change (update_stripes f (j :: indices) t j)
      with (update_stripes f indices (<[j := f (t j)]> t) j).
    rewrite update_stripes_elsewhere by exact Hlast.
    rewrite fn_lookup_insert. apply Hf.
Qed.

Lemma Commit_locked_runs (s : Sys) :
  0 <= PooledList.next_index_ (write_set_ (engine s)) <= kBufferEntries ->
  Commit_locked s =
    (Returns (wrap64 (global_version s + 1)),
     with_global_version
       (with_lock_table s
          (update_stripes (on_r_lock ReadLock.Lock) (write_set_stripes s) (lock_table s)))
       (wrap64 (global_version s + 1))).
Proof.
  intros Hn. unfold Commit_locked. rewrite bind_gets.
  rewrite range_in_page by exact Hn.
  unfold bind. rewrite for_each_update_lock. reflexivity.
Qed.

(** With more entries counted than the page holds, the first loop of
    [Commit] runs off the page. *)
Lemma Commit_locked_overflow (s : Sys) :
  kBufferEntries < PooledList.next_index_ (write_set_ (engine s)) ->
  result Commit_locked s = Throws (runtime_error "Out of memory") /\
  result (Commit_locked ;;; ValidateReadSet) s = Throws (runtime_error "Out of memory").
Proof.
  intros Hn.
  destruct (visit_overflow (write_set_ (engine s))
              (Z.to_nat (PooledList.next_index_ (write_set_ (engine s)))) 0)
    as (xs & Hxs); [unfold kBufferEntries; lia | lia |].
  assert (Hthrows : result Commit_locked s = Throws (runtime_error "Out of memory")).
  { unfold result, Commit_locked. rewrite bind_gets.
    unfold PooledList.range. rewrite Hxs. unfold bind.
    pose proof (for_each_update_lock_throws (on_r_lock ReadLock.Lock) xs
                  (runtime_error "Out of memory") s) as Hf.
    destruct (for_each _ _ s) as [o s']. cbn [fst] in Hf. subst o. reflexivity. }
  split; [exact Hthrows|].
  unfold result in *. unfold bind.
  destruct (Commit_locked s) as [o s']. cbn [fst] in Hthrows. subst o. reflexivity.
Qed.

Lemma Rollback_runs (s : Sys) :
  0 <= PooledList.next_index_ (write_set_ (engine s)) <= kBufferEntries ->
  Rollback s =
    (Returns tt,
     with_engine
       (with_lock_table s
          (update_stripes (on_w_lock WriteLock.Unlock) (write_set_stripes s) (lock_table s)))
       (with_write_data
          (with_write_set
             (with_read_set (engine s) (PooledList.Clear (read_set_ (engine s))))
             (PooledList.Clear (write_set_ (engine s))))
          (PooledList.Clear (write_data_ (engine s))))).
Proof.
  intros Hn. unfold Rollback. rewrite bind_gets.
  rewrite range_in_page by exact Hn.
  unfold bind at 1. rewrite for_each_update_lock. reflexivity.
Qed.

Lemma bind_assert_true {B} (k : unit -> M B) (s : Sys) :
  bind (assert true) k s = k tt s.
Proof. reflexivity. Qed.

Lemma bind_GetIncGlobalVersion {B} (k : Z -> M B) (s : Sys) :
  bind GetIncGlobalVersion k s =
    k (wrap64 (global_version s + 1))
      (with_global_version s (wrap64 (global_version s + 1))).
Proof. reflexivity. Qed.

(** The state [Commit] leaves when its revalidation has failed. *)
Lemma Commit_validation_failure_state (s : Sys) :
  state_ (engine s) = State.READ_WRITE_RUNNING ->
  0 < PooledList.next_index_ (write_set_ (engine s)) <= 255 ->
  wrap64 (global_version s + 1) > wrap64 (version_ (engine s) + 1) ->
  result (Commit_locked ;;; ValidateReadSet) s = Returns false ->
  Commit s =
    (Throws (TransactionError "Failed to validate read set" true),
     with_engine
       (with_global_version
          (with_lock_table s
             (update_stripes (on_w_lock WriteLock.Unlock) (write_set_stripes s)
                (update_stripes (on_r_lock ReadLock.Unlock) (write_set_stripes s)
                   (update_stripes (on_r_lock ReadLock.Lock) (write_set_stripes s)
                      (lock_table s)))))
          (wrap64 (global_version s + 1)))
       (with_write_data
          (with_write_set
             (with_read_set (engine s) (PooledList.Clear (read_set_ (engine s))))
             (PooledList.Clear (write_set_ (engine s))))
          (PooledList.Clear (write_data_ (engine s))))).
Proof.
  intros Hstate Hsize Hlate Hinvalid.
  assert (Hn : 0 <= PooledList.next_index_ (write_set_ (engine s)) <= kBufferEntries)
    by (unfold kBufferEntries; lia).
  unfold result in Hinvalid.
  unfold bind in Hinvalid. rewrite (Commit_locked_runs s Hn) in Hinvalid.
  match type of Hinvalid with
  | fst (ValidateReadSet ?st) = _ =>
      pose proof (ValidateReadSet_state st) as Hsame;
      assert (Hvalid : ValidateReadSet st = (Returns false, st))
        by (destruct (ValidateReadSet st) as [o st']; cbn [fst snd] in *; congruence)
  end.
  clear Hinvalid Hsame.
  unfold Commit. rewrite bind_gets, Hstate.
  change (Z.land State.READ_WRITE_RUNNING State.RUNNING_bit =? State.RUNNING_bit) with true.
  rewrite bind_assert_true.
  change (State.READ_WRITE_RUNNING =? State.READ_ONLY_RUNNING) with false. cbv iota.
  rewrite bind_gets. unfold PooledList.Empty.
  replace (PooledList.next_index_ (write_set_ (engine s)) =? 0) with false
    by (symmetry; apply Z.eqb_neq; lia).
  cbn [negb]. cbv iota.
  apply bind_Throws.
  rewrite bind_gets, (range_in_page _ Hn).
  unfold bind at 1. rewrite for_each_update_lock.
  rewrite bind_GetIncGlobalVersion, bind_gets.
  cbn [engine global_version with_global_version with_lock_table version_].
  replace (wrap64 (global_version s + 1) >? wrap64 (version_ (engine s) + 1)) with true
    by (symmetry; apply Z.gtb_gt; exact Hlate).
  apply bind_Throws.
  fold (write_set_stripes s).
  rewrite (bind_run _ _ _ _ _ Hvalid). cbn [negb].
  rewrite bind_gets.
  cbn [engine with_global_version with_lock_table].
  rewrite (range_in_page _ Hn).
  unfold bind at 1. rewrite for_each_update_lock.
  unfold bind at 1. rewrite Rollback_runs by exact Hn.
  reflexivity.
Qed.

(** C2, as the code has it: a read-write [Commit] with a non-empty write
    set whose new version is above the start version plus one and whose
    revalidation, run where [Commit] runs it, fails.  It throws a
    [TransactionError] that asks for a retry; on every stripe of the write
    set the read-version lock bit is clear and the write lock is free; the
    read set, the write set and the write data are empty.  The engine state
    is not touched: it stays READ_WRITE_RUNNING, which is what makes the
    [BeginReadWrite] that follows a restart. *)
Theorem Commit_validation_failure (s : Sys)
    (Hstate : state_ (engine s) = State.READ_WRITE_RUNNING)
    (Hsize : 0 < PooledList.GetSize (write_set_ (engine s)))
    (Hlate : wrap64 (global_version s + 1) > wrap64 (version_ (engine s) + 1))
    (Hinvalid : result (Commit_locked ;;; ValidateReadSet) s = Returns false) :
  exists e s',
    Commit s = (Throws e, s') /\
    is_TransactionError e = true /\ shouldRetry e = true /\
    (forall index, In index (write_set_stripes s) ->
       Z.land (ReadLock.Get (r_lock (lock_table s' index))) ReadLock.kLockMask = 0 /\
       WriteLock.IsLocked (w_lock (lock_table s' index)) = false /\
       WriteLock.GetOwner (w_lock (lock_table s' index)) = 0) /\
    PooledList.Empty (read_set_ (engine s')) = true /\
    PooledList.Empty (write_set_ (engine s')) = true /\
    PooledList.Empty (write_data_ (engine s')) = true /\
    state_ (engine s') = State.READ_WRITE_RUNNING /\
    result BeginReadWrite s' = Returns tt.
Proof.
  unfold PooledList.GetSize in Hsize.
  assert (Hpage : 0 < PooledList.next_index_ (write_set_ (engine s)) <= 255).
  { split; [exact Hsize|].
    destruct (Z_le_gt_dec (PooledList.next_index_ (write_set_ (engine s))) 255)
      as [Hle|Hgt]; [exact Hle|].
    destruct (Commit_locked_overflow s) as (_ & Hthrows); [unfold kBufferEntries; lia|].
    rewrite Hthrows in Hinvalid. discriminate. }
  do 2 eexists.
  split; [exact (Commit_validation_failure_state s Hstate Hpage Hlate Hinvalid)|].
  split; [reflexivity|]. split; [reflexivity|].
  cbn [engine lock_table with_engine with_global_version with_lock_table
       read_set_ write_set_ write_data_ state_
       with_write_data with_write_set with_read_set].
  split; [|split; [reflexivity|split; [reflexivity|split; [reflexivity|split; [exact Hstate|]]]]].
  - intros index Hin. split; [|split].
    + apply (update_stripes_keeps
               (fun e => Z.land (ReadLock.Get (r_lock e)) ReadLock.kLockMask = 0)).
      * intros x Hx. exact Hx.
      * apply (update_stripes_reaches
                 (fun e => Z.land (ReadLock.Get (r_lock e)) ReadLock.kLockMask = 0)).
        -- intros x. apply ReadLock_Unlock_clears.
        -- exact Hin.
    + apply (update_stripes_reaches
               (fun e => WriteLock.IsLocked (w_lock e) = false)).
      * intros x. reflexivity.
      * exact Hin.
    + apply (update_stripes_reaches
               (fun e => WriteLock.GetOwner (w_lock e) = 0)).
      * intros x. reflexivity.
      * exact Hin.
  - unfold result, BeginReadWrite. rewrite bind_gets.
    cbn [engine with_engine state_ with_write_data with_write_set with_read_set].
    rewrite Hstate. reflexivity.
Qed.

(** The transaction that another engine has overtaken fails to commit. *)
Lemma Commit_validation_failure_witness :
  exists e s',
    Commit overtaken = (Throws e, s') /\
    shouldRetry e = true /\
    Z.land (ReadLock.Get (r_lock (lock_table s' (GetLockIndex 0x1000)))) ReadLock.kLockMask = 0 /\
    WriteLock.IsLocked (w_lock (lock_table s' (GetLockIndex 0x1000))) = false /\
    PooledList.Empty (read_set_ (engine s')) = true /\
    PooledList.Empty (write_set_ (engine s')) = true /\
    PooledList.Empty (write_data_ (engine s')) = true /\
    state_ (engine s') = State.READ_WRITE_RUNNING.
Proof.
  assert (Hstate : state_ (engine overtaken) = State.READ_WRITE_RUNNING) by reflexivity.
  assert (Hsize : 0 < PooledList.GetSize (write_set_ (engine overtaken))) by reflexivity.
  assert (Hlate : wrap64 (global_version overtaken + 1)
                  > wrap64 (version_ (engine overtaken) + 1)) by reflexivity.
  assert (Hinvalid : result (Commit_locked ;;; ValidateReadSet) overtaken = Returns false)
    by (vm_compute; reflexivity).
  destruct (Commit_validation_failure overtaken Hstate Hsize Hlate Hinvalid)
    as (e & s' & Hc & _ & Hretry & Hlocks & Hr & Hw & Hd & Hst & _).
  exists e, s'. split; [exact Hc|]. split; [exact Hretry|].
  destruct (Hlocks (GetLockIndex 0x1000)) as (Hbit & Hfree & _).
  - vm_compute. left. reflexivity.
  - repeat split; assumption.
Defined.

(** C2, as the claim has it, fails on the code: the overtaken transaction
    meets every condition of the claim, its [Commit] throws the retry
    error, and the engine is READ_WRITE_RUNNING afterwards, not
    INITIALIZED. *)
Lemma Commit_validation_failure_not_INITIALIZED :
  state_ (engine overtaken) = State.READ_WRITE_RUNNING /\
  PooledList.Empty (write_set_ (engine overtaken)) = false /\
  wrap64 (global_version overtaken + 1) > wrap64 (version_ (engine overtaken) + 1) /\
  result (Commit_locked ;;; ValidateReadSet) overtaken = Returns false /\
  result Commit overtaken = Throws (TransactionError "Failed to validate read set" true) /\
  state_ (engine (run Commit overtaken)) = State.READ_WRITE_RUNNING /\
  state_ (engine (run Commit overtaken)) <> State.INITIALIZED.
Proof. vm_compute. repeat split; discriminate. Qed.

(** ** Commit, when it returns *)

(** C5: a read-write [Commit] with an empty write set returns, and leaves
    the global version, the target memory and the lock table as they
    were; the engine is INITIALIZED afterwards. *)
Theorem Commit_empty_write_set (s : Sys)
    (Hstate : state_ (engine s) = State.READ_WRITE_RUNNING)
    (Hempty : PooledList.Empty (write_set_ (engine s)) = true) :
  exists s',
    Commit s = (Returns tt, s') /\
    global_version s' = global_version s /\
    memory s' = memory s /\
    lock_table s' = lock_table s /\
    state_ (engine s') = State.INITIALIZED.
Proof.
  unfold Commit, bind, gets, assert, modify_engine, modify, ret.
  cbv beta iota. rewrite Hstate. cbv beta iota.
  change (Z.land State.READ_WRITE_RUNNING State.RUNNING_bit =? State.RUNNING_bit) with true.
  change (State.READ_WRITE_RUNNING =? State.READ_ONLY_RUNNING) with false.
  cbv beta iota. rewrite Hempty. cbn [negb]. cbv beta iota.
  eexists. split; [reflexivity|]. repeat split.
Qed.

(** A transaction that began and wrote nothing. *)
Lemma Commit_empty_write_set_witness :
  let s := run BeginReadWrite fresh in
  exists s',
    Commit s = (Returns tt, s') /\
    global_version s' = global_version s /\
    memory s' = memory s /\
    lock_table s' = lock_table s /\
    state_ (engine s') = State.INITIALIZED.
Proof.
  intros s. apply (Commit_empty_write_set s); reflexivity.
Defined.

(** In READ_ONLY_RUNNING [Commit] changes the state and nothing else. *)
Lemma Commit_read_only (s : Sys) :
  state_ (engine s) = State.READ_ONLY_RUNNING ->
  Commit s = (Returns tt, with_engine s (with_state (engine s) State.INITIALIZED)).
Proof.
  intros Hstate. unfold Commit, bind, gets, assert, modify_engine, modify.
  cbv beta iota. rewrite Hstate. reflexivity.
Qed.

(** C3, on the code: a read-only transaction that read one word commits
    with success and ends INITIALIZED, and its read set still holds the
    entry: the read-only branch of [Commit] returns before the three
    [Clear] calls that [End] and the read-write branch make.  The entries
    pile up from one read-only block to the next: 255 blocks that each read
    one word of a stripe of its own go through, and the 256th overflows
    the read set. *)
Theorem Commit_read_only_keeps_read_set :
  state_ (engine reader_after) = State.READ_ONLY_RUNNING /\
  result Commit reader_after = Returns tt /\
  state_ (engine (run Commit reader_after)) = State.INITIALIZED /\
  PooledList.GetSize (read_set_ (engine (run Commit reader_after))) = 1 /\
  PooledList.Empty (read_set_ (engine (run Commit reader_after))) = false /\
  PooledList.Empty (read_set_ (engine (run End reader_after))) = true /\
  result (read_only_rounds (first_words 255)) fresh = Returns tt /\
  PooledList.GetSize (read_set_ (engine (run (read_only_rounds (first_words 255)) fresh)))
    = 255 /\
  result (read_only_rounds (first_words 256)) fresh
    = Throws (runtime_error "Out of memory").
Proof. vm_compute. repeat split. Qed.

(** ** ReadWord *)

(** *** No read stores a version *)

Lemma stored_versions_bind {A B} (m : M A) (k : A -> M B) :
  (forall s, stored_versions (snd (m s)) = stored_versions s) ->
  (forall a s, stored_versions (snd (k a s)) = stored_versions s) ->
  forall s, stored_versions (snd (bind m k s)) = stored_versions s.
Proof.
  intros Hm Hk s. unfold bind. specialize (Hm s).
  destruct (m s) as [[a| | |] s1]; cbn [snd] in *; try exact Hm.
  rewrite Hk. exact Hm.
Qed.

Lemma stored_versions_for_each {T} (entries : list (Exception + T)) (body : T -> M unit) :
  (forall x s, stored_versions (snd (body x s)) = stored_versions s) ->
  forall s, stored_versions (snd (for_each entries body s)) = stored_versions s.
Proof.
  intros Hbody. induction entries as [|[e|x] rest IH]; intros s; cbn [for_each];
    try reflexivity.
  apply stored_versions_bind; [apply Hbody | intros _; exact IH].
Qed.

Lemma stored_versions_ValidateReadSet (s : Sys) :
  stored_versions (snd (ValidateReadSet s)) = stored_versions s.
Proof. rewrite ValidateReadSet_state. reflexivity. Qed.

Lemma stored_versions_Extend (s : Sys) :
  stored_versions (snd (Extend s)) = stored_versions s.
Proof.
  unfold Extend. apply stored_versions_bind; [reflexivity|]. intros v.
  apply stored_versions_bind; [exact stored_versions_ValidateReadSet|].
  intros [|] s'; reflexivity.
Qed.

Lemma stored_versions_Rollback (s : Sys) :
  stored_versions (snd (Rollback s)) = stored_versions s.
Proof.
  unfold Rollback. apply stored_versions_bind; [reflexivity|]. intros entries.
  apply stored_versions_bind; [|reflexivity].
  apply stored_versions_for_each. reflexivity.
Qed.

Lemma stored_versions_GetOrCreate (index : Z) (s : Sys) :
  stored_versions
    (snd (on_list read_set_ with_read_set
            (fun l => PooledList.GetOrCreate kBufferEntries l index) s))
  = stored_versions s.
Proof.
  unfold on_list, PooledList.GetOrCreate.
  destruct (PooledList.search _ _ _ _ _) as [e|[entry|]]; try reflexivity.
  unfold PooledList.Create.
  destruct (PooledList.GetEntry _ _) as [e|entry]; [reflexivity|].
  unfold stored_versions, PooledList.store, PooledList.slot.
  cbn [snd engine with_engine read_set_ with_read_set PooledList.main_pool_].
  rewrite list_fmap_insert.
  destruct (PooledList.main_pool_ (read_set_ (engine s)) !! Z.to_nat entry) as [x|] eqn:Hx.
  - cbn [default]. apply list_insert_id. rewrite list_lookup_fmap, Hx. reflexivity.
  - apply list_insert_ge. rewrite length_fmap. apply lookup_ge_None. exact Hx.
Qed.

(** Whatever [ReadWord] does, and however it ends, the versions stored in
    the read set are the ones that were there before the call. *)
Lemma ReadWord_keeps_stored_versions (fuel : nat) (address : Z) (s : Sys) :
  stored_versions (snd (ReadWord fuel address s)) = stored_versions s.
Proof.
  revert s. unfold ReadWord.
  apply stored_versions_bind; [reflexivity|]. intros [|].
  - apply stored_versions_bind; [reflexivity|]. intros l.
    apply stored_versions_bind; [intros s; destruct (PooledList.Get _ _ _); reflexivity|].
    intros found.
    apply stored_versions_bind; [intros s; destruct found; reflexivity|]. reflexivity.
  - apply stored_versions_bind; [reflexivity|]. intros v1.
    apply stored_versions_bind; [intros s; rewrite ReadWord_loop_state; reflexivity|].
    intros r.
    apply stored_versions_bind; [apply stored_versions_GetOrCreate|]. intros entry.
    apply stored_versions_bind; [reflexivity|]. intros version.
    apply stored_versions_bind; [|reflexivity].
    destruct (snd r >? version); [|reflexivity].
    apply stored_versions_bind; [exact stored_versions_Extend|].
    intros [|]; [reflexivity|]. cbn [negb].
    apply stored_versions_bind; [exact stored_versions_Rollback|]. reflexivity.
Qed.

(** On an owned stripe [ReadWord] returns the data of the entry of the
    address when there is one and runs into its assertion otherwise. *)
Lemma ReadWord_owned (fuel : nat) (address : Z) (s : Sys) :
  WriteLock.IsLockedBy (w_lock (lock_table s (GetLockIndex address))) (this s) = true ->
  (forall entry,
     PooledList.Get kBufferEntries (write_data_ (engine s)) address = inr (Some entry) ->
     ReadWord fuel address s =
       (Returns (WriteData.GetData (PooledList.slot (write_data_ (engine s)) entry)), s)) /\
  (PooledList.Get kBufferEntries (write_data_ (engine s)) address = inr None ->
   ReadWord fuel address s = (AssertionFailed, s)).
Proof.
  intros Hmine.
  split; [intros entry Hget | intros Hget]; unfold ReadWord;
    unfold bind at 1; unfold w_lock_IsLockedBy_this, gets at 1; rewrite Hmine;
    rewrite bind_gets; cbv beta; unfold bind; rewrite Hget; reflexivity.
Qed.

(** C1, on the code: the validated read of the word at 0x1000 samples
    version 1 from the stripe, returns the word, and creates the read-set
    entry of the stripe; the version stored in the entry is the 0 the slot
    held before, since [SetVersion] is not called.  A validation right
    after the read, with the world unchanged, fails on that entry. *)
Theorem ReadWord_does_not_record_version :
  WriteLock.IsLockedBy (w_lock (lock_table reader_before (GetLockIndex 0x1000)))
                       (this reader_before) = false /\
  ReadLock.Get (r_lock (lock_table reader_before (GetLockIndex 0x1000))) = 1 /\
  result (ReadWord 1 0x1000) reader_before = Returns 42 /\
  PooledList.Get kBufferEntries (read_set_ (engine reader_after)) (GetLockIndex 0x1000)
    = inr (Some 0) /\
  ReadSetEntry.GetVersion (PooledList.slot (read_set_ (engine reader_after)) 0) = 0 /\
  result ValidateReadSet reader_after = Returns false.
Proof. vm_compute. repeat split. Qed.

(** C4, on the code: the engine owns the write lock of the stripe of
    0x2000 because it wrote 0x1000, the write data holds no entry for
    0x2000, and [ReadWord] of 0x2000 runs into its assertion, whereas
    [WriteWord] creates the entry in the same situation. *)
Theorem ReadWord_own_stripe_other_word :
  GetLockIndex 0x2000 = GetLockIndex 0x1000 /\
  WriteLock.IsLockedBy (w_lock (lock_table writer (GetLockIndex 0x2000)))
                       (this writer) = true /\
  PooledList.Get kBufferEntries (write_data_ (engine writer)) 0x2000 = inr None /\
  result (ReadWord 1 0x2000) writer = AssertionFailed /\
  result (WriteWord 1 0x2000 9 max64) writer = Returns tt /\
  result (ReadWord 1 0x1000) writer = Returns 7.
Proof. vm_compute. repeat split. Qed.

(** * Further properties *)

(** ** Bits *)

Lemma testbit_above_64 (a n : Z) : 0 <= a < 2 ^ 64 -> 64 <= n -> Z.testbit a n = false.
Proof.
  intros Ha Hn. apply Z.testbit_false; [lia|].
  rewrite Z.div_small; [reflexivity|].
  split; [lia|]. apply Z.lt_le_trans with (2 ^ 64); [lia|].
  apply Z.pow_le_mono_r; lia.
Qed.

Lemma not64_testbit (x n : Z) :
  0 <= n -> Z.testbit (not64 x) n = xorb (Z.testbit x n) (n <? 64).
Proof.
  intros Hn. unfold not64, max64. rewrite Z.lxor_spec. f_equal.
  destruct (Z.ltb_spec n 64).
  - apply Z.ones_spec_low. lia.
  - apply Z.ones_spec_high. lia.
Qed.

(** Clearing the low [k] bits of a 64-bit value rounds it down to a
    multiple of [2 ^ k]. *)
Lemma land_not64_ones (a k : Z) :
  0 <= a < 2 ^ 64 -> 0 <= k <= 64 ->
  Z.land a (not64 (Z.ones k)) = a - a mod 2 ^ k.
Proof.
  intros Ha Hk.
  assert (Hr : a - a mod 2 ^ k = Z.shiftl (Z.shiftr a k) k).
  { rewrite Z.shiftl_mul_pow2, Z.shiftr_div_pow2 by lia.
    pose proof (Z.div_mod a (2 ^ k)). nia. }
  rewrite Hr. apply Z.bits_inj'. intros n Hn.
  rewrite Z.land_spec, not64_testbit by exact Hn.
  destruct (Z.ltb_spec n k) as [Hlow|Hhigh].
  - rewrite Z.ones_spec_low by lia.
    replace (n <? 64) with true by (symmetry; apply Z.ltb_lt; lia).
    rewrite Z.shiftl_spec_low by exact Hlow. apply andb_false_r.
  - rewrite Z.ones_spec_high by lia.
    rewrite Z.shiftl_spec_high, Z.shiftr_spec by lia.
    replace (n - k + k) with n by lia.
    destruct (Z.ltb_spec n 64) as [Hin|Hout]; cbn [xorb].
    + apply andb_true_r.
    + rewrite (testbit_above_64 a n) by lia. reflexivity.
Qed.

Lemma lor_disjoint (a b : Z) : Z.land a b = 0 -> Z.lor a b = a + b.
Proof. intros Hd. pose proof (Z.add_lor_land a b). lia. Qed.

Lemma land_pow2_small (v n : Z) : 0 <= n -> 0 <= v < 2 ^ n -> Z.land v (2 ^ n) = 0.
Proof.
  intros Hn Hv. apply Z.bits_inj'. intros m Hm.
  rewrite Z.land_spec, Z.bits_0, Z.pow2_bits_eqb by lia.
  destruct (Z.eqb_spec n m) as [<-|Hne]; [|apply andb_false_r].
  assert (Hbit : Z.testbit v n = false)
    by (apply Z.testbit_false; [lia|]; rewrite Z.div_small by lia; reflexivity).
  rewrite Hbit. reflexivity.
Qed.

(** ** The stripe locks *)

(** X1: on a read lock that holds a version below [2 ^ 63], [Lock] adds
    the top bit, so the locked value is above every version, and [Unlock]
    gives the version back unchanged. *)
Theorem ReadLock_Lock_Unlock (l : ReadLock.t)
    (Hversion : 0 <= ReadLock.version_ l < 2 ^ 63) :
  ReadLock.Get (ReadLock.Lock l) = ReadLock.version_ l + 2 ^ 63 /\
  Z.land (ReadLock.Get (ReadLock.Lock l)) ReadLock.kLockMask = ReadLock.kLockMask /\
  (forall v, v < 2 ^ 63 -> ReadLock.Get (ReadLock.Lock l) > v) /\
  ReadLock.Unlock (ReadLock.Lock l) = l /\
  ReadLock.Unlock l = l.
Proof.
  destruct l as [v]. cbn [ReadLock.version_] in Hversion.
  unfold ReadLock.Get, ReadLock.Lock, ReadLock.Unlock. cbn [ReadLock.version_].
  rewrite not64_kLockMask, kLockMask_top_bit.
  assert (Hlor : Z.lor v (2 ^ 63) = v + 2 ^ 63)
    by (apply lor_disjoint, land_pow2_small; lia).
  rewrite Hlor.
  split; [reflexivity|]. split; [|split; [|split]].
  - rewrite <- Hlor, Z.land_lor_distr_l, land_pow2_small, Z.land_diag by lia.
    reflexivity.
  - intros w Hw. lia.
  - f_equal. rewrite Z.land_ones by lia.
    rewrite <- (Z.mul_1_l (2 ^ 63)) at 1. rewrite Z.mod_add by lia.
    apply Z.mod_small. lia.
  - f_equal. rewrite Z.land_ones by lia. apply Z.mod_small. lia.
Qed.

Lemma ReadLock_Lock_Unlock_witness :
  ReadLock.Get (ReadLock.Lock (ReadLock.Build 5)) = 5 + 2 ^ 63 /\
  ReadLock.Unlock (ReadLock.Lock (ReadLock.Build 5)) = ReadLock.Build 5.
Proof.
  destruct (ReadLock_Lock_Unlock (ReadLock.Build 5)) as (Hget & _ & _ & Hback & _).
  - cbn. lia.
  - split; [exact Hget | exact Hback].
Defined.

Lemma even_lor_1 (x : Z) : Z.land x 1 = 0 -> Z.lor x 1 = x + 1.
Proof. apply lor_disjoint. Qed.

(** X2: a write lock is held by one owner at a time.  [TryLock] on a free
    lock succeeds for an engine at an even address: the lock is then
    locked, locked by that engine and by no engine at another even
    address, and [GetOwner] gives the address back.  While it is held,
    every [TryLock] fails and changes nothing; [Unlock] frees it. *)
Theorem WriteLock_exclusive (l : WriteLock.t) (owner : Z)
    (Hfree : WriteLock.value_ l = 0)
    (Hrange : 0 <= owner < 2 ^ 64)
    (Heven : Z.land owner 1 = 0) :
  exists held,
    WriteLock.TryLock l owner = (true, held) /\
    WriteLock.IsLocked l = false /\
    WriteLock.IsLocked held = true /\
    WriteLock.IsLockedBy held owner = true /\
    WriteLock.GetOwner held = owner /\
    (forall other, Z.land other 1 = 0 -> other <> owner ->
       WriteLock.IsLockedBy held other = false) /\
    (forall other, WriteLock.TryLock held other = (false, held)) /\
    WriteLock.IsLocked (WriteLock.Unlock held) = false /\
    WriteLock.GetOwner (WriteLock.Unlock held) = 0.
Proof.
  exists (WriteLock.Build (Z.lor owner WriteLock.kLockMask)).
  unfold WriteLock.TryLock, WriteLock.IsLocked, WriteLock.IsLockedBy, WriteLock.GetOwner,
    WriteLock.Unlock, WriteLock.kLockMask.
  cbn [WriteLock.value_]. rewrite Hfree.
  assert (Hbit : Z.land (Z.lor owner 1) 1 = 1)
    by (rewrite Z.land_lor_distr_l, Heven; reflexivity).
  rewrite Hbit.
  split; [reflexivity|]. split; [reflexivity|]. split; [reflexivity|].
  split; [apply Z.eqb_refl|]. split; [|split; [|split; [|split; reflexivity]]].
  - rewrite Z.land_lor_distr_l.
    change (Z.land 1 (not64 1)) with 0. rewrite Z.lor_0_r.
    change 1 with (Z.ones 1) at 1. rewrite land_not64_ones by lia.
    change (Z.land owner 1) with (Z.land owner (Z.ones 1)) in Heven.
    rewrite Z.land_ones in Heven by lia.
    change (2 ^ 1) with 2 in *. lia.
  - intros other Hother Hne. apply Z.eqb_neq.
    rewrite !even_lor_1 by assumption. lia.
  - intros other.
    destruct (Z.eqb_spec (Z.lor owner 1) 0) as [E|E]; [|reflexivity].
    rewrite E in Hbit. discriminate.
Qed.

Lemma WriteLock_exclusive_witness :
  exists held,
    WriteLock.TryLock (WriteLock.Build 0) 64 = (true, held) /\
    WriteLock.GetOwner held = 64 /\
    WriteLock.IsLockedBy held 128 = false /\
    WriteLock.TryLock held 128 = (false, held).
Proof.
  destruct (WriteLock_exclusive (WriteLock.Build 0) 64)
    as (held & Htry & _ & _ & _ & Howner & Hother & Hfail & _).
  - reflexivity.
  - lia.
  - reflexivity.
  - exists held. split; [exact Htry|]. split; [exact Howner|].
    split; [apply Hother; [reflexivity | discriminate] | apply Hfail].
Defined.

(** ** Addresses *)

(** X3: the stripe of an address is the address modulo 4096, so it is a
    valid index of the lock table and addresses 4096 bytes apart share a
    stripe; a word-aligned address falls on a stripe whose index is a
    multiple of 8, so words only ever use 512 of the 4096 stripes. *)
Theorem GetLockIndex_stripes (address : Z) :
  GetLockIndex address = address mod kLockTableSize /\
  0 <= GetLockIndex address < kLockTableSize /\
  (forall k, GetLockIndex (address + kLockTableSize * k) = GetLockIndex address) /\
  (Z.land address kWordAlignMask = 0 ->
   exists j, 0 <= j < 512 /\ GetLockIndex address = 8 * j).
Proof.
  assert (Hmod : forall a, GetLockIndex a = a mod 4096).
  { intros a. unfold GetLockIndex, kLockTableMask, kLockTableSize.
    change (4096 - 1) with (Z.ones 12). rewrite Z.land_ones by lia. reflexivity. }
  unfold kLockTableSize, kWordAlignMask.
  split; [apply Hmod|]. split; [rewrite Hmod; apply Z.mod_pos_bound; lia|].
  split.
  - intros k. rewrite !Hmod. rewrite Z.mul_comm, Z.mod_add by lia. reflexivity.
  - intros Haligned. change 7 with (Z.ones 3) in Haligned.
    rewrite Z.land_ones in Haligned by lia. change (2 ^ 3) with 8 in Haligned.
    rewrite Hmod. exists ((address / 8) mod 512).
    split; [apply Z.mod_pos_bound; lia|].
    pose proof (Z.div_mod address 8).
    pose proof (Z.div_mod (address / 8) 512).
    pose proof (Z.mod_pos_bound (address / 8) 512).
    symmetry. apply (Z.mod_unique_pos _ _ ((address / 8) / 512)); lia.
Qed.

Lemma GetLockIndex_stripes_witness :
  exists j, 0 <= j < 512 /\ GetLockIndex 0x1008 = 8 * j.
Proof.
  destruct (GetLockIndex_stripes 0x1008) as (_ & _ & _ & Haligned).
  apply Haligned. reflexivity.
Defined.

(** X4: [WordAlignedAddress] rounds a 64-bit address down to a multiple of
    8: the result is aligned, not above the address and less than 8 below
    it, and the byte index that the narrow accessors take from the address
    is the distance between the two. *)
Theorem WordAlignedAddress_rounds_down (addr : Z) (Hrange : 0 <= addr < 2 ^ 64) :
  WordAlignedAddress addr = addr - addr mod 8 /\
  Z.land (WordAlignedAddress addr) kWordAlignMask = 0 /\
  WordAlignedAddress addr <= addr < WordAlignedAddress addr + 8 /\
  Z.land addr 7 = addr - WordAlignedAddress addr /\
  WordAlignedAddress (WordAlignedAddress addr) = WordAlignedAddress addr.
Proof.
  assert (Hround : forall a, 0 <= a < 2 ^ 64 -> WordAlignedAddress a = a - a mod 8).
  { intros a Ha. unfold WordAlignedAddress, kWordAlignMask.
    change 7 with (Z.ones 3). rewrite land_not64_ones by lia. reflexivity. }
  pose proof (Z.mod_pos_bound addr 8) as Hm.
  pose proof (Z.div_mod addr 8) as Hd.
  assert (Hmult : (addr - addr mod 8) mod 8 = 0).
  { replace (addr - addr mod 8) with (0 + (addr / 8) * 8) by lia.
    rewrite Z.mod_add by lia. reflexivity. }
  rewrite (Hround addr Hrange). unfold kWordAlignMask.
  change 7 with (Z.ones 3). rewrite !Z.land_ones by lia. change (2 ^ 3) with 8.
  split; [reflexivity|]. split; [exact Hmult|]. split; [lia|]. split; [lia|].
  rewrite Hround by lia. rewrite Hmult. lia.
Qed.

Lemma WordAlignedAddress_rounds_down_witness :
  WordAlignedAddress 0x1005 = 0x1000 /\ Z.land 0x1005 7 = 5.
Proof.
  destruct (WordAlignedAddress_rounds_down 0x1005) as (Hr & _ & _ & Hi & _); [lia|].
  split; [exact Hr|]. rewrite Hi, Hr. reflexivity.
Defined.

(** X5: for an alignment that is a power of two, and when the sum does not
    leave the 64 bits, [AlignedSize] is the smallest multiple of the
    alignment that is at least the size; an alignment of zero fails the
    assertion. *)
Theorem AlignedSize_rounds_up (size k : Z)
    (Hk : 0 <= k < 64) (Hsize : 0 <= size) (Hfits : size + 2 ^ k <= 2 ^ 64) :
  exists r,
    AlignedSize size (2 ^ k) = Some r /\
    r mod 2 ^ k = 0 /\ size <= r < size + 2 ^ k /\
    (forall r', r' mod 2 ^ k = 0 -> size <= r' -> r <= r') /\
    AlignedSize size 0 = None.
Proof.
  assert (Hpos : 0 < 2 ^ k) by (apply Z.pow_pos_nonneg; lia).
  assert (Hlt : 2 ^ k < 2 ^ 64) by (apply Z.pow_lt_mono_r; lia).
  unfold AlignedSize.
  replace (wrap64 (2 ^ k - 1)) with (Z.ones k)
    by (unfold wrap64; rewrite Z.mod_small, Z.ones_equiv by lia; lia).
  rewrite Z.land_ones, Z.mod_same by lia.
  replace (2 ^ k =? 0) with false by (symmetry; apply Z.eqb_neq; lia).
  cbn [negb andb Z.eqb].
  unfold wrap64 at 1. rewrite Z.mod_small by lia.
  rewrite land_not64_ones by lia.
  eexists. split; [reflexivity|].
  pose proof (Z.mod_pos_bound (size + 2 ^ k - 1) (2 ^ k) Hpos) as Hm.
  pose proof (Z.div_mod (size + 2 ^ k - 1) (2 ^ k)) as Hd.
  assert (Hmult : (size + 2 ^ k - 1 - (size + 2 ^ k - 1) mod 2 ^ k) mod 2 ^ k = 0).
  { replace (size + 2 ^ k - 1 - (size + 2 ^ k - 1) mod 2 ^ k)
      with (0 + ((size + 2 ^ k - 1) / 2 ^ k) * 2 ^ k) by lia.
    rewrite Z.mod_add by lia. reflexivity. }
  split; [exact Hmult|]. split; [lia|]. split; [|reflexivity].
  intros r' Hr' Hge.
  apply Z.mod_divide in Hr'; [|lia]. destruct Hr' as [q' ->].
  apply Z.mod_divide in Hmult; [|lia]. destruct Hmult as [q Hq].
  assert (Hb : size + 2 ^ k - 1 - (size + 2 ^ k - 1) mod 2 ^ k < size + 2 ^ k) by lia.
  rewrite Hq in Hb |- *.
  assert (Hq' : q < q' + 1) by (apply (Z.mul_lt_mono_pos_r (2 ^ k)); lia).
  apply Z.mul_le_mono_nonneg_r; lia.
Qed.

Lemma AlignedSize_rounds_up_witness :
  exists r, AlignedSize 24 (2 ^ 4) = Some r /\ r mod 2 ^ 4 = 0 /\ 24 <= r < 24 + 2 ^ 4.
Proof.
  destruct (AlignedSize_rounds_up 24 4) as (r & Hr & Hm & Hb & _); try lia.
  exists r. split; [exact Hr|]. split; [exact Hm | exact Hb].
Defined.

(** ** The pooled lists, searched *)

Section SearchSpec.
Context {T : Type} `{PoolEntry T}.

Lemma search_spec (l : PooledList.t T) (key : Z) (todo : nat) (i : Z) :
  0 <= i -> i + Z.of_nat todo <= kBufferEntries ->
  match PooledList.search kBufferEntries l key i todo with
  | inl _ => False
  | inr (Some e) =>
      i <= e < i + Z.of_nat todo /\
      entry_eqb (PooledList.slot l e) key = true /\
      forall j, i <= j < e -> entry_eqb (PooledList.slot l j) key = false
  | inr None =>
      forall j, i <= j < i + Z.of_nat todo -> entry_eqb (PooledList.slot l j) key = false
  end.
Proof.
  revert i. induction todo as [|todo IH]; intros i Hi Hend; cbn [PooledList.search].
  - intros j Hj. lia.
  - rewrite GetEntry_in_page by lia.
    destruct (entry_eqb (PooledList.slot l i) key) eqn:Hk.
    + split; [lia|]. split; [exact Hk|]. intros j Hj. lia.
    + specialize (IH (i + 1)).
      destruct (PooledList.search kBufferEntries l key (i + 1) todo) as [e|[e|]].
      * apply IH; lia.
      * destruct IH as (Hr & Hm & Hbelow); [lia|lia|].
        split; [lia|]. split; [exact Hm|]. intros j Hj.
        destruct (Z.eq_dec j i) as [->|Hne]; [exact Hk | apply Hbelow; lia].
      * intros j Hj.
        destruct (Z.eq_dec j i) as [->|Hne]; [exact Hk | apply IH; lia].
Qed.

(** X6: on a list that is within its page [Get] does not throw: it
    returns the first entry, in the order of creation, whose key is the one
    looked for, and the null pointer exactly when no entry has that key;
    [Contains] says whether [Get] found one. *)
Theorem Get_first_match (l : PooledList.t T) (key : Z)
    (Hsize : 0 <= PooledList.GetSize l <= 255) :
  (forall e,
     PooledList.Get kBufferEntries l key = inr (Some e) <->
     0 <= e < PooledList.GetSize l /\
     entry_eqb (PooledList.slot l e) key = true /\
     forall j, 0 <= j < e -> entry_eqb (PooledList.slot l j) key = false) /\
  (PooledList.Get kBufferEntries l key = inr None <->
   forall j, 0 <= j < PooledList.GetSize l ->
     entry_eqb (PooledList.slot l j) key = false) /\
  exists found,
    PooledList.Get kBufferEntries l key = inr found /\
    PooledList.Contains kBufferEntries l key = inr (bool_decide (is_Some found)).
Proof.
  unfold PooledList.GetSize in *. unfold PooledList.Get, PooledList.Contains.
  pose proof (search_spec l key (Z.to_nat (PooledList.next_index_ l)) 0) as Hspec.
  rewrite Z2Nat.id in Hspec by lia.
  destruct (PooledList.search kBufferEntries l key 0
              (Z.to_nat (PooledList.next_index_ l))) as [x|[e'|]].
  - exfalso. apply Hspec; unfold kBufferEntries; lia.
  - destruct Hspec as (Hr & Hm & Hbelow); [lia | unfold kBufferEntries; lia |].
    split; [|split].
    + intros e. split.
      * intros Heq. inversion Heq; subst e'. split; [lia|]. split; [exact Hm|].
        intros j Hj. apply Hbelow. lia.
      * intros (He & Hme & Hbe). do 2 f_equal.
        destruct (Z.lt_trichotomy e e') as [Hlt|[Heq|Hgt]]; [|exact (eq_sym Heq)|].
        -- rewrite Hbelow in Hme by lia. discriminate.
        -- rewrite Hbe in Hm by lia. discriminate.
    + split; [discriminate|]. intros Hnone. rewrite Hnone in Hm by lia. discriminate.
    + exists (Some e'). split; reflexivity.
  - assert (Hnone : forall j, 0 <= j < PooledList.next_index_ l ->
                      entry_eqb (PooledList.slot l j) key = false)
      by (intros j Hj; apply Hspec; unfold kBufferEntries; lia).
    split; [|split].
    + intros e. split; [discriminate|].
      intros (He & Hme & _). rewrite Hnone in Hme by lia. discriminate.
    + split; [intros _; exact Hnone | reflexivity].
    + exists None. split; reflexivity.
Qed.

(** The entry type keeps the key it is assigned. *)
Hypothesis assign_eqb : forall (x : T) (key : Z), entry_eqb (entry_assign x key) key = true.

(** X7: [GetOrCreate] on an initialised list: the entry it returns is the
    one [Get] finds for the key afterwards, a second [GetOrCreate] of the
    key returns the same entry and changes nothing (no key gets two
    entries), the list grows by one exactly when [Get] found nothing
    before, and what [Get] found for any key before it still finds. *)
Theorem GetOrCreate_then_Get (l l' : PooledList.t T) (key e : Z)
    (Hpage : length (PooledList.main_pool_ l) = 255%nat)
    (Hsize : 0 <= PooledList.GetSize l)
    (Hcall : PooledList.GetOrCreate kBufferEntries l key = (inr e, l')) :
  PooledList.Get kBufferEntries l' key = inr (Some e) /\
  PooledList.GetOrCreate kBufferEntries l' key = (inr e, l') /\
  (PooledList.Get kBufferEntries l key = inr (Some e) /\ l' = l \/
   PooledList.Get kBufferEntries l key = inr None /\
   e = PooledList.GetSize l /\
   PooledList.GetSize l' = PooledList.GetSize l + 1) /\
  (forall key' e',
     PooledList.Get kBufferEntries l key' = inr (Some e') ->
     PooledList.Get kBufferEntries l' key' = inr (Some e')).
Proof.
  unfold PooledList.GetSize in *.
  assert (Hfound : PooledList.Get kBufferEntries l' key = inr (Some e) /\
                   (PooledList.Get kBufferEntries l key = inr (Some e) /\ l' = l \/
                    PooledList.Get kBufferEntries l key = inr None /\
                    e = PooledList.next_index_ l /\
                    PooledList.next_index_ l' = PooledList.next_index_ l + 1 /\
                    forall other, Z.to_nat other <> Z.to_nat (PooledList.next_index_ l) ->
                      PooledList.slot l' other = PooledList.slot l other)).
  { unfold PooledList.GetOrCreate in Hcall. unfold PooledList.Get at 2 3.
    destruct (PooledList.search kBufferEntries l key 0
                (Z.to_nat (PooledList.next_index_ l))) as [x|[e0|]] eqn:Hsearch;
      [discriminate| |].
    - inversion Hcall; subst e0 l'. split; [exact Hsearch|]. left. auto.
    - apply Create_inr in Hcall as (Hn & -> & ->).
      assert (Hslots : forall other,
                 Z.to_nat other <> Z.to_nat (PooledList.next_index_ l) ->
                 PooledList.slot
                   (PooledList.Build
                      (<[Z.to_nat (PooledList.next_index_ l) :=
                           entry_assign (PooledList.slot l (PooledList.next_index_ l)) key]>
                         (PooledList.main_pool_ l))
                      (PooledList.next_index_ l + 1)) other
                 = PooledList.slot l other).
      { intros other Hother. unfold PooledList.slot. cbn [PooledList.main_pool_].
        rewrite list_lookup_insert_ne by (intros E; apply Hother; symmetry; exact E).
        reflexivity. }
      split; [|right; repeat split; exact Hslots].
      pose proof (search_spec l key (Z.to_nat (PooledList.next_index_ l)) 0) as Hold.
      rewrite Hsearch, Z2Nat.id in Hold by lia.
      match goal with
      | |- PooledList.Get _ ?grown _ = _ =>
          pose proof (search_spec grown key (Z.to_nat (PooledList.next_index_ l + 1)) 0) as Hnew;
          unfold PooledList.Get; cbn [PooledList.next_index_];
          destruct (PooledList.search kBufferEntries grown key 0
                      (Z.to_nat (PooledList.next_index_ l + 1))) as [x|[e1|]]
      end; rewrite Z2Nat.id in Hnew by lia.
      + exfalso. apply Hnew; unfold kBufferEntries in *; lia.
      + destruct Hnew as (Hr & Hm & _); [lia | unfold kBufferEntries in *; lia |].
        do 2 f_equal.
        destruct (Z.eq_dec e1 (PooledList.next_index_ l)) as [E|E]; [exact E|].
        rewrite Hslots in Hm by lia.
        rewrite Hold in Hm by (unfold kBufferEntries in *; lia). discriminate.
      + exfalso.
        assert (Hm : entry_eqb
                  (PooledList.slot
                     (PooledList.Build
                        (<[Z.to_nat (PooledList.next_index_ l) :=
                             entry_assign (PooledList.slot l (PooledList.next_index_ l)) key]>
                           (PooledList.main_pool_ l))
                        (PooledList.next_index_ l + 1))
                     (PooledList.next_index_ l)) key = true).
        { unfold PooledList.slot at 1. cbn [PooledList.main_pool_].
          rewrite list_lookup_insert_eq by (rewrite Hpage; unfold kBufferEntries in Hn; lia).
          apply assign_eqb. }
        rewrite Hnew in Hm by (unfold kBufferEntries in *; lia). discriminate. }
  destruct Hfound as (Hget & Hcases).
  split; [exact Hget|]. split; [|split].
  - unfold PooledList.GetOrCreate. unfold PooledList.Get in Hget. rewrite Hget. reflexivity.
  - destruct Hcases as [Hsame | (Hnone & He & Hnext & _)]; [left; exact Hsame | right; auto].
  - intros key' e' Hget'.
    destruct Hcases as [(_ & ->) | (_ & _ & Hnext & Hslots)]; [exact Hget'|].
    apply (Get_after_append l); [exact Hget' | lia | exact Hnext | exact Hslots].
Qed.
End SearchSpec.

Lemma Get_first_match_witness :
  let l := snd (PooledList.Create kBufferEntries
                  (snd (PooledList.Create kBufferEntries
                          (PooledList.Init (T := WriteSetEntry.t) kBufferEntries) 40)) 48) in
  PooledList.Get kBufferEntries l 48 = inr (Some 1) /\
  PooledList.Get kBufferEntries l 56 = inr None.
Proof.
  intros l.
  assert (Hsize : PooledList.GetSize l = 2) by reflexivity.
  destruct (Get_first_match l 48) as (Hsome & _); [rewrite Hsize; lia|].
  destruct (Get_first_match l 56) as (_ & Hnone & _); [rewrite Hsize; lia|].
  split.
  - apply Hsome. rewrite Hsize. split; [lia|]. split; [reflexivity|].
    intros j Hj. assert (j = 0) as -> by lia. reflexivity.
  - apply Hnone. rewrite Hsize. intros j Hj.
    assert (Hcases : j = 0 \/ j = 1) by lia.
    destruct Hcases as [-> | ->]; reflexivity.
Defined.

Lemma GetOrCreate_then_Get_witness :
  let l := PooledList.Init (T := ReadSetEntry.t) kBufferEntries in
  let l' := snd (PooledList.GetOrCreate kBufferEntries l 40) in
  PooledList.Get kBufferEntries l' 40 = inr (Some 0) /\
  PooledList.GetOrCreate kBufferEntries l' 40 = (inr 0, l').
Proof.
  intros l l'.
  assert (Hlaw : forall (x : ReadSetEntry.t) (key : Z),
             entry_eqb (entry_assign x key) key = true)
    by (intros x key; apply Z.eqb_refl).
  destruct (GetOrCreate_then_Get Hlaw l l' 40 0) as (Hget & Hagain & _).
  - reflexivity.
  - vm_compute. discriminate.
  - reflexivity.
  - split; [exact Hget | exact Hagain].
Defined.

Section Appended.
Context {T : Type} `{PoolEntry T}.

(** An entry created at the end for a key that had none is the one [Get]
    finds for the key. *)
Lemma Get_appended (l l' : PooledList.t T) (key : Z) :
  PooledList.Get kBufferEntries l key = inr None ->
  0 <= PooledList.next_index_ l < kBufferEntries ->
  PooledList.next_index_ l' = PooledList.next_index_ l + 1 ->
  (forall other, Z.to_nat other <> Z.to_nat (PooledList.next_index_ l) ->
     PooledList.slot l' other = PooledList.slot l other) ->
  entry_eqb (PooledList.slot l' (PooledList.next_index_ l)) key = true ->
  PooledList.Get kBufferEntries l' key = inr (Some (PooledList.next_index_ l)).
Proof.
  intros Hnone Hn Hnext Hslots Hlast. unfold PooledList.Get in *.
  pose proof (search_spec l key (Z.to_nat (PooledList.next_index_ l)) 0) as Hold.
  rewrite Hnone, Z2Nat.id in Hold by lia.
  pose proof (search_spec l' key (Z.to_nat (PooledList.next_index_ l')) 0) as Hnew.
  rewrite Z2Nat.id, Hnext in Hnew by lia. rewrite Hnext.
  destruct (PooledList.search kBufferEntries l' key 0
              (Z.to_nat (PooledList.next_index_ l + 1))) as [x|[e|]].
  - exfalso. apply Hnew; lia.
  - destruct Hnew as (Hr & Hm & _); [lia|lia|]. do 2 f_equal.
    destruct (Z.eq_dec e (PooledList.next_index_ l)) as [E|E]; [exact E|].
    rewrite Hslots, Hold in Hm by lia. discriminate.
  - rewrite Hnew in Hlast by lia. discriminate.
Qed.
End Appended.

(** ** What the engine leaves alone *)

Section Keeps.
Context {X : Type} (f : Sys -> X).
Hypothesis f_engine : forall s e, f (with_engine s e) = f s.
Hypothesis f_locks : forall s t, f (with_lock_table s t) = f s.
Hypothesis f_greedy : forall s v, f (with_greedy_version s v) = f s.

Lemma keeps_bind {A B} (m : M A) (k : A -> M B) :
  keeps f m -> (forall a, keeps f (k a)) -> keeps f (bind m k).
Proof.
  intros Hm Hk s. unfold bind. specialize (Hm s).
  destruct (m s) as [[a| | |] s1]; cbn [snd] in *; try exact Hm.
  rewrite Hk. exact Hm.
Qed.

Lemma keeps_gets {A} (g : Sys -> A) : keeps f (gets g).
Proof. intros s. reflexivity. Qed.

Lemma keeps_pure {A} (o : Outcome A) : keeps f (fun s => (o, s)).
Proof. intros s. reflexivity. Qed.

Lemma keeps_lift {A} (r : Exception + A) : keeps f (lift r).
Proof. intros s. destruct r; reflexivity. Qed.

Lemma keeps_modify_engine (g : TransactionEngine -> TransactionEngine) :
  keeps f (modify_engine g).
Proof. intros s. apply f_engine. Qed.

Lemma keeps_update_lock (index : Z) (g : LockEntry -> LockEntry) :
  keeps f (update_lock index g).
Proof. intros s. apply f_locks. Qed.

Lemma keeps_on_list {T A} (sel : TransactionEngine -> PooledList.t T)
    (upd : TransactionEngine -> PooledList.t T -> TransactionEngine)
    (op : PooledList.t T -> (Exception + A) * PooledList.t T) :
  keeps f (on_list sel upd op).
Proof.
  intros s. unfold on_list.
  destruct (op (sel (engine s))) as [[e|a] l]; apply f_engine.
Qed.

Lemma keeps_for_each {T} (entries : list (Exception + T)) (body : T -> M unit) :
  (forall x, keeps f (body x)) -> keeps f (for_each entries body).
Proof.
  intros Hbody. induction entries as [|[e|x] rest IH]; cbn [for_each].
  - apply keeps_pure.
  - apply keeps_pure.
  - apply keeps_bind; [apply Hbody | intros _; exact IH].
Qed.

Lemma keeps_ValidateReadSet : keeps f ValidateReadSet.
Proof. intros s. rewrite ValidateReadSet_state. reflexivity. Qed.

Lemma keeps_Extend : keeps f Extend.
Proof.
  unfold Extend. apply keeps_bind; [apply keeps_gets|]. intros v.
  apply keeps_bind; [apply keeps_ValidateReadSet|]. intros [|].
  - apply keeps_bind; [apply keeps_modify_engine | intros _; apply keeps_pure].
  - apply keeps_pure.
Qed.

Lemma keeps_Rollback : keeps f Rollback.
Proof.
  unfold Rollback. apply keeps_bind; [apply keeps_gets|]. intros entries.
  apply keeps_bind; [apply keeps_for_each; intros x; apply keeps_update_lock|]. intros _.
  apply keeps_bind; [apply keeps_modify_engine|]. intros _.
  apply keeps_bind; [apply keeps_modify_engine|]. intros _.
  apply keeps_modify_engine.
Qed.

Lemma keeps_extend_or_abort (what : string) :
  keeps f (ok <- Extend ;;
           if negb ok then Rollback ;;; throw (TransactionError what true) else ret tt).
Proof.
  apply keeps_bind; [apply keeps_Extend|]. intros [|]; cbn [negb].
  - apply keeps_pure.
  - apply keeps_bind; [apply keeps_Rollback | intros _; apply keeps_pure].
Qed.

Lemma keeps_CmShouldAbort (index : Z) : keeps f (CmShouldAbort index).
Proof.
  intros s. destruct (CmShouldAbort_state s index) as [b Hb]. rewrite Hb. reflexivity.
Qed.

Lemma keeps_CmOnWrite : keeps f CmOnWrite.
Proof.
  unfold CmOnWrite. apply keeps_bind; [apply keeps_gets|]. intros ts.
  destruct (ts =? Version_max); [|apply keeps_pure].
  apply keeps_bind; [apply keeps_gets|]. intros size.
  destruct (10 <=? size); [|apply keeps_pure].
  apply keeps_bind; [|intros g; apply keeps_modify_engine].
  intros s. apply f_greedy.
Qed.

Lemma keeps_TryLock (index : Z) : keeps f (w_lock_TryLock_this index).
Proof.
  intros s. unfold w_lock_TryLock_this.
  destruct (WriteLock.TryLock _ _) as [[|] l]; cbn [snd]; [apply f_locks | reflexivity].
Qed.

Lemma keeps_ReadWord (fuel : nat) (address : Z) : keeps f (ReadWord fuel address).
Proof.
  unfold ReadWord. apply keeps_bind; [apply keeps_gets|]. intros [|].
  - apply keeps_bind; [apply keeps_gets|]. intros l.
    apply keeps_bind; [apply keeps_lift|]. intros found.
    apply keeps_bind; [destruct found; apply keeps_pure | intros e; apply keeps_gets].
  - apply keeps_bind; [apply keeps_gets|]. intros v1.
    apply keeps_bind; [intros s; rewrite ReadWord_loop_state; reflexivity|]. intros r.
    apply keeps_bind; [apply keeps_on_list|]. intros entry.
    apply keeps_bind; [apply keeps_gets|]. intros version.
    apply keeps_bind; [|intros _; apply keeps_pure].
    destruct (snd r >? version); [apply keeps_extend_or_abort | apply keeps_pure].
Qed.

Lemma keeps_WriteWord_loop (fuel : nat) (index address : Z) :
  keeps f (WriteWord_loop fuel index address).
Proof.
  induction fuel as [|fuel IH]; cbn [WriteWord_loop]; [apply keeps_pure|].
  apply keeps_bind; [apply keeps_gets|]. intros [|].
  - apply keeps_bind; [apply keeps_CmShouldAbort|]. intros [|]; [|exact IH].
    apply keeps_bind; [apply keeps_Rollback | intros _; apply keeps_pure].
  - apply keeps_bind; [apply keeps_TryLock|]. intros [|]; [|exact IH].
    apply keeps_bind; [apply keeps_on_list | intros _; apply keeps_on_list].
Qed.

Lemma keeps_WriteWord (fuel : nat) (address data mask : Z) :
  keeps f (WriteWord fuel address data mask).
Proof.
  unfold WriteWord. apply keeps_bind; [apply keeps_gets|]. intros [|].
  - apply keeps_bind; [apply keeps_gets|]. intros l.
    apply keeps_bind; [apply keeps_lift|]. intros [entry|].
    + apply keeps_modify_engine.
    + apply keeps_bind; [apply keeps_on_list | intros e; apply keeps_modify_engine].
  - apply keeps_bind; [apply keeps_WriteWord_loop|]. intros entry.
    apply keeps_bind; [apply keeps_gets|]. intros v.
    apply keeps_bind; [apply keeps_gets|]. intros version.
    apply keeps_bind.
    { destruct (v >? version); [apply keeps_extend_or_abort | apply keeps_pure]. }
    intros _. apply keeps_bind.
    { destruct (negb (mask =? not64 0)); [|apply keeps_pure].
      apply keeps_bind; [apply keeps_gets | intros c; apply keeps_pure]. }
    intros d. apply keeps_bind; [apply keeps_modify_engine | intros _; apply keeps_CmOnWrite].
Qed.

Lemma keeps_End : keeps f End.
Proof.
  unfold End. apply keeps_bind; [apply keeps_gets|]. intros st.
  apply keeps_bind; [intros s; reflexivity|]. intros _.
  apply keeps_bind; [apply keeps_gets|]. intros entries.
  apply keeps_bind; [apply keeps_for_each; intros x; apply keeps_update_lock|]. intros _.
  apply keeps_bind; [apply keeps_modify_engine|]. intros _.
  apply keeps_bind; [apply keeps_modify_engine|]. intros _.
  apply keeps_bind; [apply keeps_modify_engine|]. intros _.
  apply keeps_modify_engine.
Qed.

Lemma keeps_Begin (running : Z) :
  keeps f (st <- gets (fun s => state_ (engine s)) ;;
           (if st =? running then CmOnRestart else assert (st =? State.INITIALIZED)) ;;;
           v <- GetGlobalVersion ;;
           modify_engine (fun e => with_version e v) ;;;
           modify_engine (fun e => with_state e running)).
Proof.
  apply keeps_bind; [apply keeps_gets|]. intros st.
  apply keeps_bind.
  { destruct (st =? running); [apply keeps_modify_engine | intros s; reflexivity]. }
  intros _. apply keeps_bind; [apply keeps_gets|]. intros v.
  apply keeps_bind; [apply keeps_modify_engine | intros _; apply keeps_modify_engine].
Qed.
End Keeps.

(** X8: what a transaction writes stays in its buffers until it commits.
    [ReadWord], [WriteWord] and the narrow accessors built on them, both
    [Begin]s and [End] leave every word of the target memory and the
    global version as they were, whether they return, throw, fail an
    assertion or spin. *)
Theorem speculation_stays_private (fuel : nat) (address data mask : Z) :
  (keeps memory (ReadWord fuel address) /\
   keeps memory (WriteWord fuel address data mask) /\
   keeps memory (Read_uint8_t fuel address) /\
   keeps memory (Write_uint8_t fuel address data) /\
   keeps memory (Read_uint16_t fuel address) /\
   keeps memory (Write_uint16_t fuel address data) /\
   keeps memory (Read_uint32_t fuel address) /\
   keeps memory (Write_uint32_t fuel address data) /\
   keeps memory BeginReadWrite /\ keeps memory BeginReadOnly /\ keeps memory End) /\
  (keeps global_version (ReadWord fuel address) /\
   keeps global_version (WriteWord fuel address data mask) /\
   keeps global_version BeginReadWrite /\ keeps global_version BeginReadOnly /\
   keeps global_version End).
Proof.
  assert (Hmem : forall fuel address, keeps memory (ReadWord fuel address))
    by (intros; apply keeps_ReadWord; reflexivity).
  assert (Hnarrow : forall (fuel : nat) (address : Z) (cast : Z -> Z),
             keeps memory (data <- ReadWord fuel address ;; ret (cast data))).
  { intros fuel0 a cast. apply keeps_bind; [apply Hmem | intros w s; reflexivity]. }
  split.
  - split; [apply Hmem|].
    split; [apply keeps_WriteWord; reflexivity|].
    split; [apply Hnarrow|].
    split; [apply keeps_WriteWord; reflexivity|].
    split; [apply Hnarrow|].
    split; [apply keeps_WriteWord; reflexivity|].
    split; [apply Hnarrow|].
    split; [apply keeps_WriteWord; reflexivity|].
    split; [apply (keeps_Begin memory); reflexivity|].
    split; [apply (keeps_Begin memory); reflexivity|].
    apply keeps_End; reflexivity.
  - split; [apply keeps_ReadWord; reflexivity|].
    split; [apply keeps_WriteWord; reflexivity|].
    split; [apply (keeps_Begin global_version); reflexivity|].
    split; [apply (keeps_Begin global_version); reflexivity|].
    apply keeps_End; reflexivity.
Qed.

(** ** Commit and End, when they go through *)









(** X10: [End] in a running transaction whose write set is within its
    page.  It returns; every stripe of the write set is free again with its
    read version untouched, the other stripes are as before; the memory and
    the global version are unchanged; the three buffers are empty and the
    engine is INITIALIZED. *)
Theorem End_aborts (s : Sys)
    (Hrunning : Z.land (state_ (engine s)) State.RUNNING_bit = State.RUNNING_bit)
    (Hws : 0 <= PooledList.GetSize (write_set_ (engine s)) <= 255) :
  exists s',
    End s = (Returns tt, s') /\
    (forall j, In j (write_set_stripes s) ->
       WriteLock.IsLocked (w_lock (lock_table s' j)) = false /\
       r_lock (lock_table s' j) = r_lock (lock_table s j)) /\
    (forall j, ~ In j (write_set_stripes s) -> lock_table s' j = lock_table s j) /\
    memory s' = memory s /\
    global_version s' = global_version s /\
    PooledList.Empty (read_set_ (engine s')) = true /\
    PooledList.Empty (write_set_ (engine s')) = true /\
    PooledList.Empty (write_data_ (engine s')) = true /\
    state_ (engine s') = State.INITIALIZED.
Proof.
  assert (Hn : 0 <= PooledList.next_index_ (write_set_ (engine s)) <= kBufferEntries)
    by (unfold PooledList.GetSize, kBufferEntries in *; lia).
  unfold End. rewrite bind_gets, Hrunning, Z.eqb_refl, bind_assert_true.
  rewrite bind_gets, (range_in_page _ Hn).
  unfold bind at 1. rewrite for_each_update_lock.
  eexists. split; [reflexivity|]. fold (write_set_stripes s).
  cbn [lock_table memory global_version engine with_engine with_lock_table
       state_ read_set_ write_set_ write_data_
       with_state with_write_data with_write_set with_read_set].
  split; [|split; [|repeat split]].
  - intros j Hj. split.
    + apply (update_stripes_reaches (fun e => WriteLock.IsLocked (w_lock e) = false));
        [intros x; reflexivity | exact Hj].
    + apply (update_stripes_keeps (fun e => r_lock e = r_lock (lock_table s j)));
        [intros x Hx; exact Hx | reflexivity].
  - intros j Hj. apply update_stripes_elsewhere. exact Hj.
Qed.

Lemma End_aborts_witness :
  exists s',
    End writer = (Returns tt, s') /\
    WriteLock.IsLocked (w_lock (lock_table s' (GetLockIndex 0x1000))) = false /\
    memory s' 0x1000 = 0x1000 /\
    state_ (engine s') = State.INITIALIZED.
Proof.
  destruct (End_aborts writer) as (s' & Hrun & Hin & _ & Hmem & _ & _ & _ & _ & Hst).
  - reflexivity.
  - vm_compute. split; discriminate.
  - exists s'. split; [exact Hrun|].
    split; [apply Hin; vm_compute; left; reflexivity|].
    split; [rewrite Hmem; reflexivity | exact Hst].
Defined.

(** ** Contention *)

Lemma CmShouldAbort_yields (s : Sys) (index : Z) :
  cm_ts_ (engine s) = Version_max \/
  (WriteLock.GetOwner (w_lock (lock_table s index)) <> 0 /\
   load_cm_ts s (WriteLock.GetOwner (w_lock (lock_table s index))) < cm_ts_ (engine s)) ->
  CmShouldAbort index s = (Returns true, s).
Proof.
  intros Hyield. unfold CmShouldAbort, bind, gets, ret, MarkAbort.
  destruct (Z.eqb_spec (cm_ts_ (engine s)) Version_max) as [Hmax|Hgreedy]; [reflexivity|].
  destruct Hyield as [Hmax | (Howner & Hlt)]; [contradiction|].
  destruct (Z.eqb_spec (WriteLock.GetOwner (w_lock (lock_table s index))) 0) as [E|_];
    [contradiction|].
  cbn [negb]. apply Z.ltb_lt in Hlt. rewrite Hlt. reflexivity.
Qed.

Lemma CmShouldAbort_insists (s : Sys) (index : Z) :
  cm_ts_ (engine s) <> Version_max ->
  (WriteLock.GetOwner (w_lock (lock_table s index)) = 0 \/
   cm_ts_ (engine s) <= load_cm_ts s (WriteLock.GetOwner (w_lock (lock_table s index)))) ->
  CmShouldAbort index s = (Returns false, s).
Proof.
  intros Hgreedy Hfirst. unfold CmShouldAbort, bind, gets, ret, MarkAbort.
  destruct (Z.eqb_spec (cm_ts_ (engine s)) Version_max) as [Hmax|_]; [contradiction|].
  destruct (Z.eqb_spec (WriteLock.GetOwner (w_lock (lock_table s index))) 0) as [E|Howner];
    [reflexivity|].
  cbn [negb]. destruct Hfirst as [E | Hle]; [contradiction|].
  apply Z.ltb_ge in Hle. rewrite Hle. reflexivity.
Qed.

(** X11: a [WriteWord] that finds the stripe locked by another engine gives
    way when its transaction is not greedy, or when the owner holds an
    earlier greedy timestamp.  It throws a [TransactionError] that asks for
    a retry, after a rollback: the stripes of its write set are free, the
    other stripes, the contended one among them, are as before, the three
    buffers are empty and the memory is unchanged; the engine state stays
    as it was. *)
Theorem WriteWord_gives_way (s : Sys) (fuel : nat) (address data mask : Z)
    (Hnot_mine :
       WriteLock.IsLockedBy (w_lock (lock_table s (GetLockIndex address))) (this s) = false)
    (Hheld : WriteLock.IsLocked (w_lock (lock_table s (GetLockIndex address))) = true)
    (Hyield :
       cm_ts_ (engine s) = Version_max \/
       (WriteLock.GetOwner (w_lock (lock_table s (GetLockIndex address))) <> 0 /\
        load_cm_ts s (WriteLock.GetOwner (w_lock (lock_table s (GetLockIndex address))))
          < cm_ts_ (engine s)))
    (Hws : 0 <= PooledList.GetSize (write_set_ (engine s)) <= 255)
    (Hfuel : fuel <> O) :
  exists e s',
    WriteWord fuel address data mask s = (Throws e, s') /\
    is_TransactionError e = true /\ shouldRetry e = true /\
    (forall j, In j (write_set_stripes s) ->
       WriteLock.IsLocked (w_lock (lock_table s' j)) = false) /\
    (forall j, ~ In j (write_set_stripes s) -> lock_table s' j = lock_table s j) /\
    PooledList.Empty (read_set_ (engine s')) = true /\
    PooledList.Empty (write_set_ (engine s')) = true /\
    PooledList.Empty (write_data_ (engine s')) = true /\
    memory s' = memory s /\
    state_ (engine s') = state_ (engine s).
Proof.
  assert (Hn : 0 <= PooledList.next_index_ (write_set_ (engine s)) <= kBufferEntries)
    by (unfold PooledList.GetSize, kBufferEntries in *; lia).
  destruct fuel as [|fuel]; [contradiction|].
  exists (TransactionError "Stuff" true). eexists. split.
  - unfold WriteWord. unfold bind at 1. unfold w_lock_IsLockedBy_this, gets at 1.
    rewrite Hnot_mine. apply bind_Throws. cbn [WriteWord_loop].
    unfold bind at 1. unfold w_lock_IsLocked, gets at 1. rewrite Hheld.
    rewrite (bind_run _ _ _ _ _ (CmShouldAbort_yields s _ Hyield)).
    unfold bind. rewrite (Rollback_runs s Hn). reflexivity.
  - cbn [lock_table memory engine with_engine with_lock_table
         state_ read_set_ write_set_ write_data_
         with_write_data with_write_set with_read_set].
    split; [reflexivity|]. split; [reflexivity|].
    split; [|split; [|repeat split]].
    + intros j Hj.
      apply (update_stripes_reaches (fun e => WriteLock.IsLocked (w_lock e) = false));
        [intros x; reflexivity | exact Hj].
    + intros j Hj. apply update_stripes_elsewhere. exact Hj.
Qed.

(** X12: a [WriteWord] of a greedy transaction that finds the stripe locked
    by another engine whose timestamp is not earlier keeps waiting: as long
    as nothing else changes it goes round its loop without touching the
    state and never throws. *)
Theorem WriteWord_insists (s : Sys) (fuel : nat) (address data mask : Z)
    (Hnot_mine :
       WriteLock.IsLockedBy (w_lock (lock_table s (GetLockIndex address))) (this s) = false)
    (Hheld : WriteLock.IsLocked (w_lock (lock_table s (GetLockIndex address))) = true)
    (Hgreedy : cm_ts_ (engine s) <> Version_max)
    (Hfirst :
       WriteLock.GetOwner (w_lock (lock_table s (GetLockIndex address))) = 0 \/
       cm_ts_ (engine s)
         <= load_cm_ts s (WriteLock.GetOwner (w_lock (lock_table s (GetLockIndex address))))) :
  WriteWord fuel address data mask s = (Spinning, s).
Proof.
  unfold WriteWord. unfold bind at 1. unfold w_lock_IsLockedBy_this, gets at 1.
  rewrite Hnot_mine.
  assert (Hloop : WriteWord_loop fuel (GetLockIndex address) address s = (Spinning, s)).
  { induction fuel as [|fuel IH]; [reflexivity|]. cbn [WriteWord_loop].
    unfold bind at 1. unfold w_lock_IsLocked, gets at 1. rewrite Hheld.
    rewrite (bind_run _ _ _ _ _ (CmShouldAbort_insists s _ Hgreedy Hfirst)).
    exact IH. }
  unfold bind. rewrite Hloop. reflexivity.
Qed.

Lemma WriteWord_gives_way_witness :
  exists e s',
    WriteWord 1 0x1800 5 max64 contended = (Throws e, s') /\
    shouldRetry e = true /\ memory s' = memory contended /\
    lock_table s' (GetLockIndex 0x1800) = lock_table contended (GetLockIndex 0x1800).
Proof.
  destruct (WriteWord_gives_way contended 1 0x1800 5 max64)
    as (e & s' & Hrun & _ & Hretry & _ & Helse & _ & _ & _ & Hmem & _).
  - reflexivity.
  - reflexivity.
  - left. reflexivity.
  - vm_compute. split; discriminate.
  - discriminate.
  - exists e, s'. split; [exact Hrun|]. split; [exact Hretry|]. split; [exact Hmem|].
    apply Helse. vm_compute. intros [].
Defined.

Lemma WriteWord_insists_witness :
  cm_ts_ (engine greedy_contended) = 0 /\
  WriteWord 3 0x1800 5 max64 greedy_contended = (Spinning, greedy_contended).
Proof.
  split; [reflexivity|].
  apply (WriteWord_insists greedy_contended 3 0x1800 5 max64).
  - reflexivity.
  - reflexivity.
  - vm_compute. discriminate.
  - right. vm_compute. discriminate.
Defined.

(** ** Reads *)

Lemma read_set_GetOrCreate (l : PooledList.t ReadSetEntry.t) (index : Z) :
  length (PooledList.main_pool_ l) = 255%nat ->
  0 <= PooledList.next_index_ l <= 254 ->
  exists e l',
    PooledList.GetOrCreate kBufferEntries l index = (inr e, l') /\
    PooledList.Get kBufferEntries l' index = inr (Some e) /\
    length (PooledList.main_pool_ l') = 255%nat /\
    PooledList.next_index_ l <= PooledList.next_index_ l' <= PooledList.next_index_ l + 1.
Proof.
  intros Hpage Hn. unfold PooledList.GetOrCreate.
  pose proof (search_spec l index (Z.to_nat (PooledList.next_index_ l)) 0) as Hspec.
  destruct (PooledList.search kBufferEntries l index 0
              (Z.to_nat (PooledList.next_index_ l))) as [x|[e|]] eqn:Hsearch.
  - exfalso. apply Hspec; unfold kBufferEntries; lia.
  - exists e, l. split; [reflexivity|]. split; [exact Hsearch|]. split; [exact Hpage|lia].
  - rewrite Create_in_page by (unfold kBufferEntries; lia).
    do 2 eexists. split; [reflexivity|]. cbn [PooledList.main_pool_ PooledList.next_index_].
    split; [|split; [rewrite length_insert; exact Hpage | lia]].
    apply (Get_appended l); [exact Hsearch | unfold kBufferEntries; lia | reflexivity | |].
    + intros other Hother. unfold PooledList.slot. cbn [PooledList.main_pool_].
      rewrite list_lookup_insert_ne by (intros E; apply Hother; symmetry; exact E).
      reflexivity.
    + unfold PooledList.slot at 1. cbn [PooledList.main_pool_].
      rewrite list_lookup_insert_eq by (rewrite Hpage; lia).
      cbn. apply Z.eqb_refl.
Qed.

(** X13: a [ReadWord] of a word whose stripe the engine does not own,
    whose read version has no lock bit and is not above the start version,
    with room in the read set.  It returns the word that is in memory, in
    one round of its loop; afterwards [Get] finds the stripe in the read
    set, which has grown by at most one entry, and nothing else of the
    state has changed. *)
Theorem ReadWord_reads_memory (s : Sys) (fuel : nat) (address : Z)
    (Hnot_mine :
       WriteLock.IsLockedBy (w_lock (lock_table s (GetLockIndex address))) (this s) = false)
    (Hunlocked :
       Z.land (ReadLock.Get (r_lock (lock_table s (GetLockIndex address))))
              ReadLock.kLockMask = 0)
    (Hversion :
       ReadLock.Get (r_lock (lock_table s (GetLockIndex address))) <= version_ (engine s))
    (Hpage : length (PooledList.main_pool_ (read_set_ (engine s))) = 255%nat)
    (Hroom : 0 <= PooledList.GetSize (read_set_ (engine s)) <= 254)
    (Hfuel : fuel <> O) :
  exists entry rs,
    ReadWord fuel address s
      = (Returns (memory s address), with_engine s (with_read_set (engine s) rs)) /\
    PooledList.Get kBufferEntries rs (GetLockIndex address) = inr (Some entry) /\
    PooledList.GetSize (read_set_ (engine s)) <= PooledList.GetSize rs
      <= PooledList.GetSize (read_set_ (engine s)) + 1.
Proof.
  destruct fuel as [|fuel]; [contradiction|].
  destruct (read_set_GetOrCreate (read_set_ (engine s)) (GetLockIndex address) Hpage Hroom)
    as (entry & rs & Hcreate & Hget & _ & Hsize).
  exists entry, rs. split; [|split; [exact Hget | exact Hsize]].
  unfold ReadWord. unfold bind at 1. unfold w_lock_IsLockedBy_this, gets at 1.
  rewrite Hnot_mine. unfold r_lock_Get at 1. rewrite bind_gets. cbv beta.
  assert (Hloop : ReadWord_loop (S fuel) (GetLockIndex address) address
                    (ReadLock.Get (r_lock (lock_table s (GetLockIndex address)))) s
                  = (Returns (memory s address,
                              ReadLock.Get (r_lock (lock_table s (GetLockIndex address)))), s)).
  { cbn [ReadWord_loop]. rewrite Hunlocked. cbn [Z.eqb negb].
    unfold bind, load, r_lock_Get, gets, ret. rewrite Z.eqb_refl. reflexivity. }
  rewrite (bind_run _ _ _ _ _ Hloop). cbn [fst snd].
  unfold bind at 1. unfold on_list. rewrite Hcreate.
  rewrite bind_gets. cbn [engine with_engine version_ with_read_set].
  replace (ReadLock.Get (r_lock (lock_table s (GetLockIndex address))) >? version_ (engine s))
    with false by (symmetry; rewrite Z.gtb_ltb; apply Z.ltb_ge; exact Hversion).
  reflexivity.
Qed.

Lemma ReadWord_reads_memory_witness :
  exists entry rs,
    ReadWord 1 0x1000 reader_before
      = (Returns 42, with_engine reader_before (with_read_set (engine reader_before) rs)) /\
    PooledList.Get kBufferEntries rs (GetLockIndex 0x1000) = inr (Some entry).
Proof.
  destruct (ReadWord_reads_memory reader_before 1 0x1000) as (entry & rs & Hrun & Hget & _).
  - reflexivity.
  - reflexivity.
  - vm_compute. discriminate.
  - reflexivity.
  - vm_compute. split; discriminate.
  - discriminate.
  - exists entry, rs. split; [exact Hrun | exact Hget].
Defined.

(** X14: a [ReadWord] of a word whose stripe the engine does not own and
    whose read version has the lock bit set, which is how a commit in
    progress shows, does not return the word: as long as the bit stays it
    goes round its loop, without loading the word and without touching the
    state. *)
Theorem ReadWord_waits_for_commit (s : Sys) (fuel : nat) (address : Z)
    (Hnot_mine :
       WriteLock.IsLockedBy (w_lock (lock_table s (GetLockIndex address))) (this s) = false)
    (Hlocked :
       Z.land (ReadLock.Get (r_lock (lock_table s (GetLockIndex address))))
              ReadLock.kLockMask <> 0) :
  ReadWord fuel address s = (Spinning, s).
Proof.
  unfold ReadWord. unfold bind at 1. unfold w_lock_IsLockedBy_this, gets at 1.
  rewrite Hnot_mine. unfold r_lock_Get at 1. rewrite bind_gets. cbv beta.
  assert (Hloop : ReadWord_loop fuel (GetLockIndex address) address
                    (ReadLock.Get (r_lock (lock_table s (GetLockIndex address)))) s
                  = (Spinning, s)).
  { induction fuel as [|fuel IH]; [reflexivity|]. cbn [ReadWord_loop].
    apply Z.eqb_neq in Hlocked. rewrite Hlocked. cbn [negb].
    unfold bind at 1. unfold r_lock_Get, gets at 1. exact IH. }
  unfold bind. rewrite Hloop. reflexivity.
Qed.

Lemma ReadWord_waits_for_commit_witness :
  let s := peer_committing 128 0x1000 (run BeginReadOnly fresh) in
  ReadWord 5 0x1000 s = (Spinning, s).
Proof.
  intros s. apply (ReadWord_waits_for_commit s 5 0x1000).
  - reflexivity.
  - vm_compute. discriminate.
Defined.

(** ** Reading what was written *)

Lemma land_not64_self (x m : Z) :
  0 <= m < 2 ^ 64 -> Z.land (Z.land x (not64 m)) m = 0.
Proof.
  intros Hm. apply Z.bits_inj'. intros n Hn.
  rewrite !Z.land_spec, not64_testbit, Z.bits_0 by exact Hn.
  destruct (Z.ltb_spec n 64) as [Hin|Hout].
  - destruct (Z.testbit m n), (Z.testbit x n); reflexivity.
  - rewrite (testbit_above_64 m n) by lia. apply andb_false_r.
Qed.

Lemma land_extend_mask (old data mask : Z) :
  0 <= mask < 2 ^ 64 ->
  Z.land (Z.lor (Z.land old (not64 mask)) (Z.land data mask)) mask = Z.land data mask.
Proof.
  intros Hm. rewrite Z.land_lor_distr_l, land_not64_self by exact Hm.
  rewrite <- Z.land_assoc, Z.land_diag. reflexivity.
Qed.

Lemma land_merge_mask (current data mask : Z) :
  0 <= mask < 2 ^ 64 ->
  Z.land (Z.lor (Z.land data mask) (Z.land current (not64 mask))) mask = Z.land data mask.
Proof. intros Hm. rewrite Z.lor_comm. apply land_extend_mask. exact Hm. Qed.

(** A [WriteWord] on an owned stripe, to an address without an entry. *)
Lemma WriteWord_owned_missing (s : Sys) (fuel : nat) (address data mask : Z) :
  WriteLock.IsLockedBy (w_lock (lock_table s (GetLockIndex address))) (this s) = true ->
  PooledList.Get kBufferEntries (write_data_ (engine s)) address = inr None ->
  0 <= PooledList.next_index_ (write_data_ (engine s)) < kBufferEntries ->
  length (PooledList.main_pool_ (write_data_ (engine s))) = 255%nat ->
  exists wd,
    WriteWord fuel address data mask s
      = (Returns tt, with_engine s (with_write_data (engine s) wd)) /\
    PooledList.Get kBufferEntries wd address
      = inr (Some (PooledList.next_index_ (write_data_ (engine s)))) /\
    PooledList.slot wd (PooledList.next_index_ (write_data_ (engine s)))
      = WriteData.Build address data mask.
Proof.
  intros Hmine Hget Hn Hpage. eexists. split; [|split].
  - unfold WriteWord. unfold bind at 1. unfold w_lock_IsLockedBy_this, gets at 1.
    rewrite Hmine. rewrite bind_gets. cbv beta.
    unfold bind at 1. rewrite Hget. cbn [lift ret].
    unfold bind, on_list. rewrite (Create_in_page _ address Hn). reflexivity.
  - cbn [engine with_engine write_data_ with_write_data].
    apply (Get_appended (write_data_ (engine s))); [exact Hget | exact Hn | reflexivity | |].
    + intros other Hother. rewrite slot_store_other by (intros E; apply Hother; symmetry; exact E).
      unfold PooledList.slot. cbn [PooledList.main_pool_].
      rewrite list_lookup_insert_ne by (intros E; apply Hother; symmetry; exact E).
      reflexivity.
    + rewrite slot_store_same
        by (cbn [PooledList.main_pool_]; rewrite length_insert, Hpage;
            unfold kBufferEntries in Hn; lia).
      unfold WriteData.Set_, PooledList.slot. cbn [PooledList.main_pool_].
      rewrite list_lookup_insert_eq by (rewrite Hpage; unfold kBufferEntries in Hn; lia).
      cbn. apply Z.eqb_refl.
  - cbn [engine with_engine write_data_ with_write_data].
    rewrite slot_store_same
      by (cbn [PooledList.main_pool_]; rewrite length_insert, Hpage;
          unfold kBufferEntries in Hn; lia).
    unfold WriteData.Set_, PooledList.slot. cbn [PooledList.main_pool_].
    rewrite list_lookup_insert_eq by (rewrite Hpage; unfold kBufferEntries in Hn; lia).
    reflexivity.
Qed.

(** After a [WriteWord] that returned, a [ReadWord] of the address returns
    a word that has the written data in the bits of the mask. *)
Lemma WriteWord_then_ReadWord (s s1 : Sys) (fuel : nat) (address data mask : Z) :
  length (PooledList.main_pool_ (write_data_ (engine s))) = 255%nat ->
  0 <= mask < 2 ^ 64 ->
  (WriteLock.IsLockedBy (w_lock (lock_table s (GetLockIndex address))) (this s) = false ->
   PooledList.Get kBufferEntries (write_data_ (engine s)) address = inr None) ->
  WriteWord fuel address data mask s = (Returns tt, s1) ->
  exists w,
    (forall fuel', ReadWord fuel' address s1 = (Returns w, s1)) /\
    Z.land w mask = Z.land data mask.
Proof.
  intros Hpage Hmask Hclean Hrun.
  destruct (WriteLock.IsLockedBy (w_lock (lock_table s (GetLockIndex address))) (this s))
    eqn:Hmine.
  - destruct (WriteWord_owned_Returns s s1 fuel address data mask Hmine Hrun)
      as (Hthis & Hlocks & [(e & Hget & Hwd) | (Hnone & Hn & _)]).
    + pose proof (search_Some _ _ _ _ _ Hget) as (_ & He).
      assert (Hmine1 : WriteLock.IsLockedBy (w_lock (lock_table s1 (GetLockIndex address)))
                         (this s1) = true) by (rewrite Hthis, Hlocks; exact Hmine).
      assert (Hget1 : PooledList.Get kBufferEntries (write_data_ (engine s1)) address
                      = inr (Some e)).
      { rewrite Hwd. unfold PooledList.Get in *. unfold PooledList.store at 1.
        cbn [PooledList.next_index_]. rewrite <- Hget.
        apply search_ext. intros j. apply slot_store_key. reflexivity. }
      eexists. split.
      * intros fuel'. exact (proj1 (ReadWord_owned fuel' address s1 Hmine1) e Hget1).
      * rewrite Hwd, slot_store_same by (rewrite Hpage; unfold kBufferEntries in He; lia).
        apply land_extend_mask. exact Hmask.
    + destruct (WriteWord_owned_missing s fuel address data mask Hmine Hnone Hn Hpage)
        as (wd & Hrun' & Hget1 & Hslot).
      rewrite Hrun in Hrun'. injection Hrun' as ->.
      assert (Hmine1 : WriteLock.IsLockedBy
                (w_lock (lock_table (with_engine s (with_write_data (engine s) wd))
                           (GetLockIndex address)))
                (this (with_engine s (with_write_data (engine s) wd))) = true)
        by exact Hmine.
      eexists. split.
      * intros fuel'. exact (proj1 (ReadWord_owned fuel' address _ Hmine1) _ Hget1).
      * cbn [engine with_engine write_data_ with_write_data]. rewrite Hslot. reflexivity.
  - destruct (WriteWord_not_owned_Returns s s1 fuel address data mask Hpage Hmine Hrun)
      as (Hn & _ & _ & _ & Hslots & _ & Hmine1 & Hsize & _ & Hslot).
    assert (Hget1 : PooledList.Get kBufferEntries (write_data_ (engine s1)) address
                    = inr (Some (PooledList.next_index_ (write_data_ (engine s))))).
    { apply (Get_appended (write_data_ (engine s)));
        [apply Hclean; reflexivity | unfold kBufferEntries; lia | exact Hsize | exact Hslots |].
      rewrite Hslot. cbn. apply Z.eqb_refl. }
    eexists. split.
    + intros fuel'. exact (proj1 (ReadWord_owned fuel' address s1 Hmine1) _ Hget1).
    + rewrite Hslot. cbn [WriteData.GetData WriteData.data_].
      destruct (Z.eqb_spec mask max64) as [->|_]; [reflexivity|].
      apply land_merge_mask. exact Hmask.
Qed.

(** X15: a transaction reads what it wrote.  After a [WriteWord] that
    returned, on an initialised engine that has no write data for words of
    stripes it does not own, every [ReadWord] of the address returns at
    once, changes nothing, and gives a word that agrees with the written
    data in all the bits of the mask. *)
Theorem ReadWord_after_WriteWord (s s1 : Sys) (fuel : nat) (address data mask : Z)
    (Hpage : length (PooledList.main_pool_ (write_data_ (engine s))) = 255%nat)
    (Hmask : 0 <= mask < 2 ^ 64)
    (Hclean :
       WriteLock.IsLockedBy (w_lock (lock_table s (GetLockIndex address))) (this s) = false ->
       PooledList.Get kBufferEntries (write_data_ (engine s)) address = inr None)
    (Hwrite : WriteWord fuel address data mask s = (Returns tt, s1)) :
  exists w,
    (forall fuel', ReadWord fuel' address s1 = (Returns w, s1)) /\
    Z.land w mask = Z.land data mask /\
    (mask = max64 -> 0 <= data < 2 ^ 64 -> w = data).
Proof.
  destruct (WriteWord_then_ReadWord s s1 fuel address data mask Hpage Hmask Hclean Hwrite)
    as (w & Hread & Hbits).
  exists w. split; [exact Hread|]. split; [exact Hbits|].
  intros -> Hdata.
  assert (Hdata' : Z.land data max64 = data)
    by (unfold max64; rewrite Z.land_ones by lia; apply Z.mod_small; lia).
  destruct (WriteLock.IsLockedBy (w_lock (lock_table s (GetLockIndex address))) (this s))
    eqn:Hmine.
  - destruct (WriteWord_owned_Returns s s1 fuel address data max64 Hmine Hwrite)
      as (Hthis & Hlocks & [(e & Hget & Hwd) | (Hnone & Hn & _)]).
    + pose proof (search_Some _ _ _ _ _ Hget) as (_ & He).
      assert (Hmine1 : WriteLock.IsLockedBy (w_lock (lock_table s1 (GetLockIndex address)))
                         (this s1) = true) by (rewrite Hthis, Hlocks; exact Hmine).
      assert (Hget1 : PooledList.Get kBufferEntries (write_data_ (engine s1)) address
                      = inr (Some e)).
      { rewrite Hwd. unfold PooledList.Get in *. unfold PooledList.store at 1.
        cbn [PooledList.next_index_]. rewrite <- Hget.
        apply search_ext. intros j. apply slot_store_key. reflexivity. }
      pose proof (proj1 (ReadWord_owned 0 address s1 Hmine1) e Hget1) as Hr.
      rewrite (Hread 0%nat) in Hr. injection Hr as ->.
      rewrite Hwd, slot_store_same by (rewrite Hpage; unfold kBufferEntries in He; lia).
      cbn [WriteData.GetData WriteData.Extend WriteData.data_].
      change (not64 max64) with 0. rewrite Z.land_0_r, Z.lor_0_l. exact Hdata'.
    + destruct (WriteWord_owned_missing s fuel address data max64 Hmine Hnone Hn Hpage)
        as (wd & Hrun' & Hget1 & Hslot).
      rewrite Hwrite in Hrun'. injection Hrun' as ->.
      assert (Hmine1 : WriteLock.IsLockedBy
                (w_lock (lock_table (with_engine s (with_write_data (engine s) wd))
                           (GetLockIndex address)))
                (this (with_engine s (with_write_data (engine s) wd))) = true)
        by exact Hmine.
      pose proof (proj1 (ReadWord_owned 0 address _ Hmine1) _ Hget1) as Hr.
      rewrite (Hread 0%nat) in Hr. injection Hr as ->.
      cbn [engine with_engine write_data_ with_write_data]. rewrite Hslot. reflexivity.
  - destruct (WriteWord_not_owned_Returns s s1 fuel address data max64 Hpage Hmine Hwrite)
      as (Hn & _ & _ & _ & Hslots & _ & Hmine1 & Hsize & _ & Hslot).
    assert (Hget1 : PooledList.Get kBufferEntries (write_data_ (engine s1)) address
                    = inr (Some (PooledList.next_index_ (write_data_ (engine s))))).
    { apply (Get_appended (write_data_ (engine s)));
        [apply Hclean; reflexivity | unfold kBufferEntries; lia | exact Hsize | exact Hslots |].
      rewrite Hslot. cbn. apply Z.eqb_refl. }
    pose proof (proj1 (ReadWord_owned 0 address s1 Hmine1) _ Hget1) as Hr.
    rewrite (Hread 0%nat) in Hr. injection Hr as ->.
    rewrite Hslot. cbn [WriteData.GetData WriteData.data_]. rewrite Z.eqb_refl. reflexivity.
Qed.

(** A write of the low byte of the word at 0x1000, read back. *)
Lemma ReadWord_after_WriteWord_witness :
  let s := run BeginReadWrite fresh in
  exists s1 w,
    WriteWord 1 0x1000 0xCD 0xFF s = (Returns tt, s1) /\
    ReadWord 0 0x1000 s1 = (Returns w, s1) /\
    Z.land w 0xFF = 0xCD.
Proof.
  intros s. exists (run (WriteWord 1 0x1000 0xCD 0xFF) s).
  assert (Hwrite : WriteWord 1 0x1000 0xCD 0xFF s
                   = (Returns tt, run (WriteWord 1 0x1000 0xCD 0xFF) s))
    by (vm_compute; reflexivity).
  destruct (ReadWord_after_WriteWord s (run (WriteWord 1 0x1000 0xCD 0xFF) s)
              1 0x1000 0xCD 0xFF) as (w & Hread & Hbits & _).
  - reflexivity.
  - lia.
  - intros _. reflexivity.
  - exact Hwrite.
  - exists w. split; [exact Hwrite|]. split; [apply Hread | exact Hbits].
Defined.

(** ** The accessors below the word *)

Lemma narrow_bits (w v sh k : Z) :
  0 <= sh -> 0 <= k -> sh + k <= 64 -> 0 <= v < 2 ^ k ->
  Z.land w (Z.shiftl (Z.ones k) sh)
    = Z.land (wrap64 (Z.shiftl v sh)) (Z.shiftl (Z.ones k) sh) ->
  Z.shiftr w sh mod 2 ^ k = v.
Proof.
  intros Hsh Hk Hfit Hv Hbits.
  assert (Hcut : forall x, Z.shiftr x sh mod 2 ^ k
                           = Z.shiftr (Z.land x (Z.shiftl (Z.ones k) sh)) sh).
  { intros x. rewrite <- Z.land_ones by lia. rewrite Z.shiftr_land.
    rewrite Z.shiftr_shiftl_l by lia. rewrite Z.sub_diag, Z.shiftl_0_r. reflexivity. }
  rewrite Hcut, Hbits, <- Hcut.
  assert (Hpow : 2 ^ k * 2 ^ sh <= 2 ^ 64).
  { rewrite <- Z.pow_add_r by lia. apply Z.pow_le_mono_r; lia. }
  assert (Hsh_pos : 0 < 2 ^ sh) by (apply Z.pow_pos_nonneg; lia).
  unfold wrap64. rewrite Z.shiftl_mul_pow2 by lia.
  rewrite (Z.mod_small (v * 2 ^ sh)) by nia.
  rewrite <- Z.shiftl_mul_pow2 by lia.
  rewrite Z.shiftr_shiftl_l by lia. rewrite Z.sub_diag, Z.shiftl_0_r.
  apply Z.mod_small. exact Hv.
Qed.

Lemma byte_index_cases (addr : Z) :
  let x := Z.land addr 7 in
  (x = 0 \/ x = 1 \/ x = 2 \/ x = 3 \/ x = 4 \/ x = 5 \/ x = 6 \/ x = 7) /\
  Z.land addr 6 = Z.land x 6 /\ Z.land addr 4 = Z.land x 4.
Proof.
  intros x. subst x. split; [|split].
  - assert (Hmod : Z.land addr 7 = addr mod 8)
      by (change 7 with (Z.ones 3); rewrite Z.land_ones by lia; reflexivity).
    rewrite Hmod. pose proof (Z.mod_pos_bound addr 8 ltac:(lia)). lia.
  - rewrite <- Z.land_assoc. reflexivity.
  - rewrite <- Z.land_assoc. reflexivity.
Qed.

(** The tables of the narrow accessors: the shift of an index is its
    width times the index, and its mask is the ones of that width, shifted. *)
Lemma uint8_tables (addr : Z) :
  let index := Z.land addr 7 in
  0 <= index <= 7 /\
  nth (Z.to_nat index) [0; 8; 16; 24; 32; 40; 48; 56] 0 = 8 * index /\
  nth (Z.to_nat index)
      [0x00000000000000FF; 0x000000000000FF00; 0x0000000000FF0000;
       0x00000000FF000000; 0x000000FF00000000; 0x0000FF0000000000;
       0x00FF000000000000; 0xFF00000000000000] 0
    = Z.shiftl (Z.ones 8) (8 * index).
Proof.
  destruct (byte_index_cases addr) as (Hx & _). cbv zeta in *.
  destruct Hx as [E|[E|[E|[E|[E|[E|[E|E]]]]]]]; rewrite E;
    (split; [lia | split; reflexivity]).
Qed.

Lemma uint16_tables (addr : Z) :
  let index := Z.shiftr (Z.land addr 6) 1 in
  0 <= index <= 3 /\
  nth (Z.to_nat index) [0; 16; 32; 48] 0 = 16 * index /\
  nth (Z.to_nat index)
      [0x000000000000FFFF; 0x00000000FFFF0000; 0x0000FFFF00000000; 0xFFFF000000000000] 0
    = Z.shiftl (Z.ones 16) (16 * index).
Proof.
  destruct (byte_index_cases addr) as (Hx & H6 & _). cbv zeta in *. rewrite H6.
  destruct Hx as [E|[E|[E|[E|[E|[E|[E|E]]]]]]]; rewrite E;
    (split; [vm_compute; split; discriminate | split; reflexivity]).
Qed.

Lemma uint32_tables (addr : Z) :
  let index := if negb (Z.land addr 4 mod 2 ^ 8 =? 0) then 1 else 0 in
  0 <= index <= 1 /\
  nth (Z.to_nat index) [0; 32] 0 = 32 * index /\
  nth (Z.to_nat index) [0x00000000FFFFFFFF; 0xFFFFFFFF00000000] 0
    = Z.shiftl (Z.ones 32) (32 * index).
Proof.
  destruct (byte_index_cases addr) as (Hx & _ & H4). cbv zeta in *. rewrite H4.
  destruct Hx as [E|[E|[E|[E|[E|[E|[E|E]]]]]]]; rewrite E;
    (split; [vm_compute; split; discriminate | split; reflexivity]).
Qed.

Lemma narrow_read (fuel : nat) (address w : Z) (cast : Z -> Z) (s : Sys) :
  ReadWord fuel address s = (Returns w, s) ->
  (data <- ReadWord fuel address ;; ret (cast data)) s = (Returns (cast w), s).
Proof. intros Hread. unfold bind. rewrite Hread. reflexivity. Qed.

(** X16: the narrow accessors give back what they wrote.  On an
    initialised engine that has no write data for words of stripes it does
    not own, after a [Write<uint8_t>] of a value below [2 ^ 8] that
    returned, [Read<uint8_t>] of the same address returns that value and
    changes nothing; the same holds for the 16 and the 32 bit accessors. *)
Theorem narrow_write_then_read (s s1 : Sys) (fuel fuel' : nat) (addr v : Z)
    (Hpage : length (PooledList.main_pool_ (write_data_ (engine s))) = 255%nat)
    (Hclean :
       WriteLock.IsLockedBy
         (w_lock (lock_table s (GetLockIndex (WordAlignedAddress addr)))) (this s) = false ->
       PooledList.Get kBufferEntries (write_data_ (engine s)) (WordAlignedAddress addr)
         = inr None) :
  (0 <= v < 2 ^ 8 ->
   Write_uint8_t fuel addr v s = (Returns tt, s1) ->
   Read_uint8_t fuel' addr s1 = (Returns v, s1)) /\
  (0 <= v < 2 ^ 16 ->
   Write_uint16_t fuel addr v s = (Returns tt, s1) ->
   Read_uint16_t fuel' addr s1 = (Returns v, s1)) /\
  (0 <= v < 2 ^ 32 ->
   Write_uint32_t fuel addr v s = (Returns tt, s1) ->
   Read_uint32_t fuel' addr s1 = (Returns v, s1)).
Proof.
  assert (Hgeneral : forall sh k mask,
             0 <= sh -> 0 <= k -> sh + k <= 64 -> 0 <= v < 2 ^ k ->
             mask = Z.shiftl (Z.ones k) sh ->
             WriteWord fuel (WordAlignedAddress addr) (wrap64 (Z.shiftl v sh)) mask s
               = (Returns tt, s1) ->
             (data <- ReadWord fuel' (WordAlignedAddress addr) ;;
              ret (Z.shiftr data sh mod 2 ^ k)) s1 = (Returns v, s1)).
  { intros sh k mask Hsh Hk Hfit Hv -> Hwrite.
    assert (Hmask : 0 <= Z.shiftl (Z.ones k) sh < 2 ^ 64).
    { rewrite Z.shiftl_mul_pow2, Z.ones_equiv by lia.
      assert (0 < 2 ^ k) by (apply Z.pow_pos_nonneg; lia).
      assert (0 < 2 ^ sh) by (apply Z.pow_pos_nonneg; lia).
      assert (2 ^ k * 2 ^ sh <= 2 ^ 64)
        by (rewrite <- Z.pow_add_r by lia; apply Z.pow_le_mono_r; lia).
      nia. }
    destruct (WriteWord_then_ReadWord s s1 fuel _ _ _ Hpage Hmask Hclean Hwrite)
      as (w & Hread & Hbits).
    rewrite (narrow_read fuel' _ w _ s1 (Hread fuel')).
    rewrite (narrow_bits w v sh k Hsh Hk Hfit Hv Hbits). reflexivity. }
  split; [|split]; intros Hv Hwrite.
  - destruct (uint8_tables addr) as (Hi & Hshift & Hmask).
    unfold Write_uint8_t in Hwrite. unfold Read_uint8_t. cbv zeta in *.
    rewrite Hshift in *.
    apply (Hgeneral _ 8 _) in Hwrite; [exact Hwrite | lia | lia | lia | exact Hv | exact Hmask].
  - destruct (uint16_tables addr) as (Hi & Hshift & Hmask).
    unfold Write_uint16_t in Hwrite. unfold Read_uint16_t. cbv zeta in *.
    rewrite Hshift in *.
    apply (Hgeneral _ 16 _) in Hwrite; [exact Hwrite | lia | lia | lia | exact Hv | exact Hmask].
  - destruct (uint32_tables addr) as (Hi & Hshift & Hmask).
    unfold Write_uint32_t in Hwrite. unfold Read_uint32_t. cbv zeta in *.
    rewrite Hshift in *.
    apply (Hgeneral _ 32 _) in Hwrite; [exact Hwrite | lia | lia | lia | exact Hv | exact Hmask].
Qed.

(** The byte at 0x1003, the half word at 0x1006 and the word at 0x1004,
    each written in a fresh read-write transaction and read back. *)
Lemma narrow_write_then_read_witness :
  let s := run BeginReadWrite fresh in
  (let s1 := run (Write_uint8_t 1 0x1003 0xAB) s in
   Read_uint8_t 0 0x1003 s1 = (Returns 0xAB, s1)) /\
  (let s1 := run (Write_uint16_t 1 0x1006 0xBEEF) s in
   Read_uint16_t 0 0x1006 s1 = (Returns 0xBEEF, s1)) /\
  (let s1 := run (Write_uint32_t 1 0x1004 0xDEADBEEF) s in
   Read_uint32_t 0 0x1004 s1 = (Returns 0xDEADBEEF, s1)).
Proof.
  intros s. split; [|split]; intros s1.
  - refine (proj1 (narrow_write_then_read s s1 1 0 0x1003 0xAB _ _) _ _).
    + reflexivity.
    + intros _. reflexivity.
    + lia.
    + vm_compute; reflexivity.
  - refine (proj1 (proj2 (narrow_write_then_read s s1 1 0 0x1006 0xBEEF _ _)) _ _).
    + reflexivity.
    + intros _. reflexivity.
    + lia.
    + vm_compute; reflexivity.
  - refine (proj2 (proj2 (narrow_write_then_read s s1 1 0 0x1004 0xDEADBEEF _ _)) _ _).
    + reflexivity.
    + intros _. reflexivity.
    + lia.
    + vm_compute; reflexivity.
Defined.

(** ** Validation *)

Lemma ValidateReadSet_loop_decides (xs : list ReadSetEntry.t) (s : Sys) :
  ValidateReadSet_loop (map inr xs) s = (Returns (forallb (still_valid s) xs), s).
Proof.
  induction xs as [|x xs IH]; cbn [map ValidateReadSet_loop forallb]; [reflexivity|].
  unfold r_lock_Get. rewrite !bind_gets. unfold still_valid at 1. cbv zeta.
  destruct (ReadLock.Get (r_lock (lock_table s (ReadSetEntry.GetIndex x)))
              =? ReadSetEntry.GetVersion x); cbn [negb orb andb].
  - exact IH.
  - unfold w_lock_IsLockedBy_this. rewrite bind_gets.
    destruct (negb (Z.land (ReadLock.Get (r_lock (lock_table s (ReadSetEntry.GetIndex x))))
                      ReadLock.kLockMask =? 0)); cbn [negb andb]; [|reflexivity].
    destruct (WriteLock.IsLockedBy (w_lock (lock_table s (ReadSetEntry.GetIndex x))) (this s));
      cbn [negb]; [exact IH | reflexivity].
Qed.

(** X17: [ValidateReadSet] on a read set within its page returns, changes
    nothing, and says yes exactly when every entry of the read set passes
    the test: its stripe carries the version stored in the entry, or is in
    the commit of this very engine.  [Extend] then moves the engine's
    version to the global version when the answer is yes and changes
    nothing when it is no. *)
Theorem ValidateReadSet_decides (s : Sys)
    (Hrs : 0 <= PooledList.GetSize (read_set_ (engine s)) <= 255) :
  let ok := forallb (still_valid s) (entries (read_set_ (engine s))) in
  ValidateReadSet s = (Returns ok, s) /\
  Extend s =
    (Returns ok,
     if ok then with_engine s (with_version (engine s) (global_version s)) else s).
Proof.
  intros ok.
  assert (Hv : ValidateReadSet s = (Returns ok, s)).
  { unfold ValidateReadSet. rewrite bind_gets.
    rewrite range_in_page by (unfold kBufferEntries; exact Hrs).
    apply ValidateReadSet_loop_decides. }
  split; [exact Hv|].
  unfold Extend, GetGlobalVersion. rewrite bind_gets.
  rewrite (bind_run _ _ _ _ _ Hv).
  destruct ok; reflexivity.
Qed.

(** The reader of 0x1000 after the commit of another engine: its read set
    holds the stale version 0 of the stripe, which now carries version 1. *)
Lemma ValidateReadSet_decides_witness :
  ValidateReadSet reader_after = (Returns false, reader_after) /\
  Extend reader_after = (Returns false, reader_after).
Proof.
  apply (ValidateReadSet_decides reader_after).
  vm_compute. split; discriminate.
Defined.

(** ** The pages of the buffers *)

Lemma pages_engine (s : Sys) (e : TransactionEngine) :
  length (PooledList.main_pool_ (read_set_ e))
    = length (PooledList.main_pool_ (read_set_ (engine s))) ->
  length (PooledList.main_pool_ (write_set_ e))
    = length (PooledList.main_pool_ (write_set_ (engine s))) ->
  length (PooledList.main_pool_ (write_data_ e))
    = length (PooledList.main_pool_ (write_data_ (engine s))) ->
  pages (with_engine s e) = pages s.
Proof. intros H1 H2 H3. unfold pages. cbn [engine with_engine]. congruence. Qed.

Lemma Create_page {T} `{PoolEntry T} (l : PooledList.t T) (key : Z) :
  length (PooledList.main_pool_ (snd (PooledList.Create kBufferEntries l key)))
    = length (PooledList.main_pool_ l).
Proof.
  unfold PooledList.Create.
  destruct (PooledList.GetEntry kBufferEntries (PooledList.next_index_ l)) as [e|entry];
    cbn [snd PooledList.main_pool_ PooledList.store]; [reflexivity|].
  apply length_insert.
Qed.

Lemma GetOrCreate_page {T} `{PoolEntry T} (l : PooledList.t T) (key : Z) :
  length (PooledList.main_pool_ (snd (PooledList.GetOrCreate kBufferEntries l key)))
    = length (PooledList.main_pool_ l).
Proof.
  unfold PooledList.GetOrCreate.
  destruct (PooledList.search kBufferEntries l key 0 _) as [e|[entry|]];
    try reflexivity.
  apply Create_page.
Qed.

Lemma pages_on_list {T A} (sel : TransactionEngine -> PooledList.t T)
    (upd : TransactionEngine -> PooledList.t T -> TransactionEngine)
    (op : PooledList.t T -> (Exception + A) * PooledList.t T) :
  (forall s, pages (with_engine s (upd (engine s) (snd (op (sel (engine s)))))) = pages s) ->
  keeps pages (on_list sel upd op).
Proof.
  intros Hop s. unfold on_list. specialize (Hop s).
  destruct (op (sel (engine s))) as [[e|a] l]; exact Hop.
Qed.

Lemma pages_read_set_GetOrCreate (index : Z) :
  keeps pages (on_list read_set_ with_read_set
                 (fun l => PooledList.GetOrCreate kBufferEntries l index)).
Proof.
  apply pages_on_list. intros s. apply pages_engine; try reflexivity.
  cbn [read_set_ with_read_set]. apply GetOrCreate_page.
Qed.

Lemma pages_write_set_Create (index : Z) :
  keeps pages (on_list write_set_ with_write_set
                 (fun l => PooledList.Create kBufferEntries l index)).
Proof.
  apply pages_on_list. intros s. apply pages_engine; try reflexivity.
  cbn [write_set_ with_write_set]. apply Create_page.
Qed.

Lemma pages_write_data_Create (address : Z) :
  keeps pages (on_list write_data_ with_write_data
                 (fun l => PooledList.Create kBufferEntries l address)).
Proof.
  apply pages_on_list. intros s. apply pages_engine; try reflexivity.
  cbn [write_data_ with_write_data]. apply Create_page.
Qed.

Lemma pages_update_write_data (entry : Z) (f : WriteData.t -> WriteData.t) :
  keeps pages (update_write_data entry f).
Proof.
  intros s. unfold update_write_data, modify_engine, modify. cbn [snd].
  apply pages_engine; try reflexivity.
  cbn [write_data_ with_write_data PooledList.store PooledList.main_pool_].
  apply length_insert.
Qed.

(** The assignments to a field of the engine that is not a buffer, and the
    three [Clear]s. *)
Ltac pages_field := intros s; reflexivity.

Lemma pages_update_lock (index : Z) (g : LockEntry -> LockEntry) :
  keeps pages (update_lock index g).
Proof. pages_field. Qed.

Lemma pages_clear :
  keeps pages
    (modify_engine (fun e => with_read_set e (PooledList.Clear (read_set_ e))) ;;;
     modify_engine (fun e => with_write_set e (PooledList.Clear (write_set_ e))) ;;;
     modify_engine (fun e => with_write_data e (PooledList.Clear (write_data_ e)))).
Proof. pages_field. Qed.

Lemma pages_Rollback : keeps pages Rollback.
Proof.
  unfold Rollback. apply keeps_bind; [apply keeps_gets|]. intros entries.
  apply keeps_bind; [|intros _; apply pages_clear].
  apply keeps_for_each. intros x. apply pages_update_lock.
Qed.

Lemma pages_Extend : keeps pages Extend.
Proof.
  unfold Extend. apply keeps_bind; [apply keeps_gets|]. intros v.
  apply keeps_bind; [apply keeps_ValidateReadSet|]. intros [|].
  - apply keeps_bind; [pages_field | intros _; apply keeps_pure].
  - apply keeps_pure.
Qed.

Lemma pages_extend_or_abort (what : string) :
  keeps pages (ok <- Extend ;;
               if negb ok then Rollback ;;; throw (TransactionError what true) else ret tt).
Proof.
  apply keeps_bind; [apply pages_Extend|]. intros [|]; cbn [negb].
  - apply keeps_pure.
  - apply keeps_bind; [apply pages_Rollback | intros _; apply keeps_pure].
Qed.

Lemma pages_CmOnWrite : keeps pages CmOnWrite.
Proof.
  unfold CmOnWrite. apply keeps_bind; [apply keeps_gets|]. intros ts.
  destruct (ts =? Version_max); [|apply keeps_pure].
  apply keeps_bind; [apply keeps_gets|]. intros size.
  destruct (10 <=? size); [|apply keeps_pure].
  apply keeps_bind; [pages_field | intros g; pages_field].
Qed.

Lemma pages_ReadWord (fuel : nat) (address : Z) : keeps pages (ReadWord fuel address).
Proof.
  unfold ReadWord. apply keeps_bind; [apply keeps_gets|]. intros [|].
  - apply keeps_bind; [apply keeps_gets|]. intros l.
    apply keeps_bind; [apply keeps_lift|]. intros found.
    apply keeps_bind; [destruct found; apply keeps_pure | intros e; apply keeps_gets].
  - apply keeps_bind; [apply keeps_gets|]. intros v1.
    apply keeps_bind; [intros s; rewrite ReadWord_loop_state; reflexivity|]. intros r.
    apply keeps_bind; [apply pages_read_set_GetOrCreate|]. intros entry.
    apply keeps_bind; [apply keeps_gets|]. intros version.
    apply keeps_bind; [|intros _; apply keeps_pure].
    destruct (snd r >? version); [apply pages_extend_or_abort | apply keeps_pure].
Qed.

Lemma pages_WriteWord_loop (fuel : nat) (index address : Z) :
  keeps pages (WriteWord_loop fuel index address).
Proof.
  induction fuel as [|fuel IH]; cbn [WriteWord_loop]; [apply keeps_pure|].
  apply keeps_bind; [apply keeps_gets|]. intros [|].
  - apply keeps_bind; [apply keeps_CmShouldAbort|]. intros [|]; [|exact IH].
    apply keeps_bind; [apply pages_Rollback | intros _; apply keeps_pure].
  - apply keeps_bind; [apply keeps_TryLock; intros s t; reflexivity|].
    intros [|]; [|exact IH].
    apply keeps_bind; [apply pages_write_set_Create | intros _; apply pages_write_data_Create].
Qed.

Lemma pages_WriteWord (fuel : nat) (address data mask : Z) :
  keeps pages (WriteWord fuel address data mask).
Proof.
  unfold WriteWord. apply keeps_bind; [apply keeps_gets|]. intros [|].
  - apply keeps_bind; [apply keeps_gets|]. intros l.
    apply keeps_bind; [apply keeps_lift|]. intros [entry|].
    + apply pages_update_write_data.
    + apply keeps_bind; [apply pages_write_data_Create |
                         intros e; apply pages_update_write_data].
  - apply keeps_bind; [apply pages_WriteWord_loop|]. intros entry.
    apply keeps_bind; [apply keeps_gets|]. intros v.
    apply keeps_bind; [apply keeps_gets|]. intros version.
    apply keeps_bind.
    { destruct (v >? version); [apply pages_extend_or_abort | apply keeps_pure]. }
    intros _. apply keeps_bind.
    { destruct (negb (mask =? not64 0)); [|apply keeps_pure].
      apply keeps_bind; [apply keeps_gets | intros c; apply keeps_pure]. }
    intros d. apply keeps_bind; [apply pages_update_write_data | intros _; apply pages_CmOnWrite].
Qed.

Lemma pages_Begin (running : Z) :
  keeps pages (st <- gets (fun s => state_ (engine s)) ;;
               (if st =? running then CmOnRestart else assert (st =? State.INITIALIZED)) ;;;
               v <- GetGlobalVersion ;;
               modify_engine (fun e => with_version e v) ;;;
               modify_engine (fun e => with_state e running)).
Proof.
  apply keeps_bind; [apply keeps_gets|]. intros st.
  apply keeps_bind.
  { destruct (st =? running); [|pages_field].
    intros s. unfold CmOnRestart, modify_engine, modify. cbn [snd].
    destruct (Xoroshiro128pp.Next (rng_ (engine s))) as [r g]. reflexivity. }
  intros _. apply keeps_bind; [apply keeps_gets|]. intros v.
  apply keeps_bind; [pages_field | intros _; pages_field].
Qed.

Lemma pages_End : keeps pages End.
Proof.
  unfold End. apply keeps_bind; [apply keeps_gets|]. intros st.
  apply keeps_bind; [pages_field|]. intros _.
  apply keeps_bind; [apply keeps_gets|]. intros entries.
  apply keeps_bind; [apply keeps_for_each; intros x; apply pages_update_lock|]. intros _.
  apply keeps_bind; [pages_field|]. intros _.
  apply keeps_bind; [pages_field|]. intros _.
  apply keeps_bind; [pages_field|]. intros _.
  pages_field.
Qed.

Lemma pages_Commit : keeps pages Commit.
Proof.
  unfold Commit. apply keeps_bind; [apply keeps_gets|]. intros st.
  apply keeps_bind; [pages_field|]. intros _.
  destruct (st =? State.READ_ONLY_RUNNING); [pages_field|].
  apply keeps_bind; [apply keeps_gets|]. intros empty.
  apply keeps_bind.
  - destruct (negb empty); [|apply keeps_pure].
    apply keeps_bind; [apply keeps_gets|]. intros entries.
    apply keeps_bind; [apply keeps_for_each; intros x; apply pages_update_lock|]. intros _.
    apply keeps_bind; [pages_field|]. intros new_version.
    apply keeps_bind; [apply keeps_gets|]. intros version.
    apply keeps_bind.
    { destruct (new_version >? wrap64 (version + 1)); [|apply keeps_pure].
      apply keeps_bind; [apply keeps_ValidateReadSet|]. intros [|]; cbn [negb];
        [apply keeps_pure|].
      apply keeps_bind; [apply keeps_gets|]. intros entries'.
      apply keeps_bind; [apply keeps_for_each; intros x; apply pages_update_lock|]. intros _.
      apply keeps_bind; [apply pages_Rollback | intros _; apply keeps_pure]. }
    intros _. apply keeps_bind; [apply keeps_gets|]. intros datas.
    apply keeps_bind; [apply keeps_for_each; intros x; pages_field|]. intros _.
    apply keeps_bind; [apply keeps_gets|]. intros entries'.
    apply keeps_for_each. intros x.
    apply keeps_bind; [apply pages_update_lock | intros _; apply pages_update_lock].
  - intros _.
    apply keeps_bind; [pages_field|]. intros _.
    apply keeps_bind; [pages_field|]. intros _.
    apply keeps_bind; [pages_field|]. intros _.
    pages_field.
Qed.

Lemma pages_atomic_loop (fuel : nat) (begin func : M unit) :
  keeps pages begin -> keeps pages func -> keeps pages (atomic_loop fuel begin func).
Proof.
  intros Hbegin Hfunc. induction fuel as [|fuel IH]; cbn [atomic_loop]; [apply keeps_pure|].
  assert (Hround : keeps pages (begin ;;; func ;;; Commit)).
  { apply keeps_bind; [exact Hbegin|]. intros _.
    apply keeps_bind; [exact Hfunc | intros _; apply pages_Commit]. }
  assert (Hend : forall e, keeps pages (End ;;; @throw unit e))
    by (intros e; apply keeps_bind; [apply pages_End | intros _; apply keeps_pure]).
  intros s. unfold atomic_round. specialize (Hround s).
  destruct ((begin ;;; func ;;; Commit) s) as [[[]|[what retry|what]| |] s1];
    cbn [snd] in Hround; try exact Hround.
  - destruct retry; cbn [negb].
    + rewrite IH. exact Hround.
    + rewrite Hend. exact Hround.
  - rewrite Hend. exact Hround.
Qed.

(** X18: the pages of the three buffers are allocated once and never
    change size.  [Init] on an engine that is not initialised gives each
    buffer a page of 255 entries; after that no operation of the engine,
    however it ends, changes the length of a page: not [ReadWord] or
    [WriteWord], not the two [Begin]s, [Commit] and [End], and not an
    atomic block around a function that keeps the lengths itself. *)
Theorem pages_are_kept (s : Sys) (fuel : nat) (address data mask : Z) (func : M unit) :
  (state_ (engine s) = State.UNINITIALIZED -> pages (run Init s) = (255, 255, 255)%nat) /\
  keeps pages (ReadWord fuel address) /\
  keeps pages (WriteWord fuel address data mask) /\
  keeps pages BeginReadWrite /\ keeps pages BeginReadOnly /\
  keeps pages Commit /\ keeps pages End /\
  (keeps pages func ->
   keeps pages (Atomic fuel func) /\ keeps pages (AtomicRead fuel func)).
Proof.
  split.
  { intros Hstate. unfold run, Init. rewrite bind_gets, Hstate. reflexivity. }
  split; [apply pages_ReadWord|].
  split; [apply pages_WriteWord|].
  split; [apply (pages_Begin State.READ_WRITE_RUNNING)|].
  split; [apply (pages_Begin State.READ_ONLY_RUNNING)|].
  split; [apply pages_Commit|].
  split; [apply pages_End|].
  intros Hfunc. split.
  - unfold Atomic. apply keeps_bind; [apply keeps_gets|]. intros [| |].
    + apply pages_atomic_loop; [apply (pages_Begin State.READ_WRITE_RUNNING) | exact Hfunc].
    + exact Hfunc.
    + apply keeps_pure.
  - unfold AtomicRead. apply keeps_bind; [apply keeps_gets|]. intros [| |].
    + apply pages_atomic_loop; [apply (pages_Begin State.READ_ONLY_RUNNING) | exact Hfunc].
    + exact Hfunc.
    + apply keeps_pure.
Qed.

(** The engine of the boot world, and an atomic block of one write on the
    initialised engine. *)
Lemma pages_are_kept_witness :
  pages (run Init (boot 64 (fun address => address))) = (255, 255, 255)%nat /\
  pages (run (Atomic 1 (WriteWord 1 0x1000 7 max64)) fresh) = pages fresh.
Proof.
  destruct (pages_are_kept (boot 64 (fun address => address)) 1 0x1000 7 max64
              (WriteWord 1 0x1000 7 max64))
    as (Hinit & _ & Hwrite & _ & _ & _ & _ & Hatomic).
  split.
  - apply Hinit. reflexivity.
  - apply (proj1 (Hatomic Hwrite)).
Defined.

(** ** The atomic blocks *)

Lemma Begin_Returns (running : Z) (s s1 : Sys) :
  (st <- gets (fun s => state_ (engine s)) ;;
   (if st =? running then CmOnRestart else assert (st =? State.INITIALIZED)) ;;;
   v <- GetGlobalVersion ;;
   modify_engine (fun e => with_version e v) ;;;
   modify_engine (fun e => with_state e running)) s = (Returns tt, s1) ->
  state_ (engine s1) = running.
Proof.
  intros Hrun.
  apply bind_Returns in Hrun as (st & s0 & _ & Hrun).
  apply bind_Returns in Hrun as (? & s2 & _ & Hrun).
  apply bind_Returns in Hrun as (v & s3 & _ & Hrun).
  apply bind_Returns in Hrun as (? & s4 & _ & Hrun).
  unfold modify_engine, modify in Hrun. injection Hrun as <-. reflexivity.
Qed.

Lemma atomic_loop_inner (fuel : nat) (begin f g : M unit) :
  (forall s s1, begin s = (Returns tt, s1) -> f s1 = g s1) ->
  forall s, atomic_loop fuel begin f s = atomic_loop fuel begin g s.
Proof.
  intros Hsame. induction fuel as [|fuel IH]; intros s; cbn [atomic_loop]; [reflexivity|].
  unfold atomic_round.
  assert (Hround : (begin ;;; f ;;; Commit) s = (begin ;;; g ;;; Commit) s).
  { unfold bind at 1 3. destruct (begin s) as [[[]| | |] s1] eqn:Hbegin; try reflexivity.
    unfold bind. rewrite (Hsame s s1 Hbegin). reflexivity. }
  rewrite Hround.
  destruct ((begin ;;; g ;;; Commit) s) as [[[]|[what retry|what]| |] s1]; try reflexivity.
  destruct retry; cbn [negb]; [apply IH | reflexivity].
Qed.

Lemma read_write_compatible_is_read_only_compatible (e : TransactionEngine) :
  IsReadWriteCompatible e = COMPATIBLE -> IsReadOnlyCompatible e = COMPATIBLE.
Proof.
  unfold IsReadWriteCompatible, IsReadOnlyCompatible.
  destruct (Z.land (state_ e) State.RUNNING_bit =? State.NONE_mask); [discriminate|].
  destruct (state_ e =? State.READ_WRITE_RUNNING); [reflexivity | discriminate].
Qed.

Lemma read_write_incompatible (e : TransactionEngine) :
  state_ e = State.READ_ONLY_RUNNING -> IsReadWriteCompatible e = INCOMPATIBLE.
Proof. unfold IsReadWriteCompatible. intros ->. reflexivity. Qed.

(** [End] in a running transaction whose write set is within its page. *)
Lemma End_runs (s : Sys) :
  Z.land (state_ (engine s)) State.RUNNING_bit = State.RUNNING_bit ->
  0 <= PooledList.next_index_ (write_set_ (engine s)) <= 255 ->
  End s =
    (Returns tt,
     with_engine
       (with_lock_table s
          (update_stripes (on_w_lock WriteLock.Unlock) (write_set_stripes s) (lock_table s)))
       (with_state
          (with_write_data
             (with_write_set
                (with_read_set (engine s) (PooledList.Clear (read_set_ (engine s))))
                (PooledList.Clear (write_set_ (engine s))))
             (PooledList.Clear (write_data_ (engine s))))
          State.INITIALIZED)).
Proof.
  intros Hrunning Hn.
  unfold End. rewrite bind_gets, Hrunning, Z.eqb_refl, bind_assert_true.
  rewrite bind_gets, range_in_page by (unfold kBufferEntries; exact Hn).
  unfold bind at 1. rewrite for_each_update_lock. reflexivity.
Qed.

(** X19: nested atomic blocks are flattened into the outermost one.  In
    every state, a read-write or read-only block directly inside a
    read-write block, and a read-only block directly inside a read-only
    block, run as if the inner function stood in the outer block itself:
    the inner block begins and commits nothing.  A read-write block inside
    a read-only block started on an initialised engine is refused: the
    inner function is not run, the outer transaction is ended and the error
    that does not ask for a retry is thrown on, with the memory as it
    was. *)
Theorem nested_blocks_flatten (s : Sys) (outer inner : nat) (func : M unit) :
  Atomic outer (Atomic inner func) s = Atomic outer func s /\
  Atomic outer (AtomicRead inner func) s = Atomic outer func s /\
  AtomicRead outer (AtomicRead inner func) s = AtomicRead outer func s /\
  (state_ (engine s) = State.INITIALIZED ->
   0 <= PooledList.GetSize (write_set_ (engine s)) <= 255 ->
   exists s',
     AtomicRead (S outer) (Atomic inner func) s =
       (Throws (TransactionError
                  "Cannot embed read-write transaction inside read-only transaction" false),
        s') /\
     memory s' = memory s /\ global_version s' = global_version s /\
     state_ (engine s') = State.INITIALIZED /\
     PooledList.Empty (read_set_ (engine s')) = true /\
     PooledList.Empty (write_set_ (engine s')) = true /\
     PooledList.Empty (write_data_ (engine s')) = true).
Proof.
  split; [|split; [|split]].
  - unfold Atomic at 1 3. rewrite !bind_gets.
    destruct (IsReadWriteCompatible (engine s)) eqn:Hstate.
    + apply atomic_loop_inner. intros s0 s1 Hbegin.
      apply (Begin_Returns State.READ_WRITE_RUNNING) in Hbegin.
      unfold Atomic. rewrite bind_gets. unfold IsReadWriteCompatible. rewrite Hbegin.
      reflexivity.
    + unfold Atomic. rewrite bind_gets, Hstate. reflexivity.
    + reflexivity.
  - unfold Atomic at 1 2. rewrite !bind_gets.
    destruct (IsReadWriteCompatible (engine s)) eqn:Hstate.
    + apply atomic_loop_inner. intros s0 s1 Hbegin.
      apply (Begin_Returns State.READ_WRITE_RUNNING) in Hbegin.
      unfold AtomicRead. rewrite bind_gets. unfold IsReadOnlyCompatible. rewrite Hbegin.
      reflexivity.
    + unfold AtomicRead. rewrite bind_gets.
      rewrite (read_write_compatible_is_read_only_compatible _ Hstate). reflexivity.
    + reflexivity.
  - unfold AtomicRead at 1 3. rewrite !bind_gets.
    destruct (IsReadOnlyCompatible (engine s)) eqn:Hstate.
    + apply atomic_loop_inner. intros s0 s1 Hbegin.
      apply (Begin_Returns State.READ_ONLY_RUNNING) in Hbegin.
      unfold AtomicRead. rewrite bind_gets. unfold IsReadOnlyCompatible. rewrite Hbegin.
      reflexivity.
    + unfold AtomicRead. rewrite bind_gets, Hstate. reflexivity.
    + reflexivity.
  - intros Hstate Hws.
    unfold AtomicRead. rewrite bind_gets. unfold IsReadOnlyCompatible. rewrite Hstate.
    change (Z.land State.INITIALIZED State.RUNNING_bit =? State.NONE_mask) with true.
    cbv iota. cbn [atomic_loop]. unfold atomic_round.
    set (s1 := with_engine s (with_state (with_version (engine s) (global_version s))
                                State.READ_ONLY_RUNNING)).
    assert (Hbegin : BeginReadOnly s = (Returns tt, s1)).
    { unfold BeginReadOnly. rewrite bind_gets, Hstate. reflexivity. }
    rewrite (bind_run _ _ _ _ _ Hbegin).
    assert (Hinner : Atomic inner func s1 =
                     (Throws (TransactionError
                        "Cannot embed read-write transaction inside read-only transaction"
                        false), s1)).
    { unfold Atomic. rewrite bind_gets.
      rewrite read_write_incompatible by reflexivity. reflexivity. }
    rewrite (bind_Throws _ _ _ _ _ Hinner). cbn [negb]. cbv iota.
    assert (Hend := End_runs s1 eq_refl Hws).
    rewrite (bind_run _ _ _ _ _ Hend).
    eexists. split; [reflexivity|]. repeat split.
Qed.

(** A write inside a read-write block inside a read-only block, on the
    initialised engine. *)
Lemma nested_blocks_flatten_witness :
  exists s',
    AtomicRead 1 (Atomic 1 (WriteWord 1 0x1000 7 max64)) fresh =
      (Throws (TransactionError
                 "Cannot embed read-write transaction inside read-only transaction" false),
       s') /\
    memory s' 0x1000 = 0x1000 /\
    state_ (engine s') = State.INITIALIZED.
Proof.
  destruct (nested_blocks_flatten fresh 0 1 (WriteWord 1 0x1000 7 max64))
    as (_ & _ & _ & Hrefused).
  destruct Hrefused as (s' & Hrun & Hmem & _ & Hstate & _).
  - reflexivity.
  - vm_compute. split; discriminate.
  - exists s'. split; [exact Hrun|]. split; [rewrite Hmem; reflexivity | exact Hstate].
Defined.

(** *** Errors in an atomic block *)

Lemma visit_inl {T} `{PoolEntry T} (l : PooledList.t T) (todo : nat) (i : Z) (e : Exception) :
  In (inl e) (PooledList.visit kBufferEntries l i todo) ->
  e = runtime_error "Out of memory".
Proof.
  revert i. induction todo as [|todo IH]; intros i; cbn [PooledList.visit]; [intros []|].
  unfold PooledList.GetEntry.
  destruct (negb (i / kBufferEntries =? 0)).
  - intros [E|[]]. congruence.
  - intros [E|Hin]; [discriminate | exact (IH _ Hin)].
Qed.

Lemma for_each_update_lock_Throws (f : LockEntry -> LockEntry)
    (entries : list (Exception + WriteSetEntry.t)) (s s' : Sys) (e : Exception) :
  for_each entries (fun entry => update_lock (WriteSetEntry.GetIndex entry) f) s
    = (Throws e, s') ->
  In (inl e) entries.
Proof.
  revert s. induction entries as [|[e0|x] rest IH]; intros s; cbn [for_each].
  - discriminate.
  - unfold throw. intros Heq. injection Heq as -> _. left. reflexivity.
  - unfold update_lock. rewrite bind_modify. intros Hrest. right. exact (IH _ Hrest).
Qed.

Lemma End_Throws (s s' : Sys) (e : Exception) :
  End s = (Throws e, s') -> shouldRetry e = false.
Proof.
  unfold End. rewrite bind_gets.
  destruct (Z.land (state_ (engine s)) State.RUNNING_bit =? State.RUNNING_bit);
    [|discriminate].
  rewrite bind_assert_true, bind_gets. unfold bind at 1.
  destruct (for_each _ _ s) as [[[]|e0| |] s1] eqn:Hloop; try discriminate.
  intros Heq. injection Heq as He _. subst e0.
  apply for_each_update_lock_Throws in Hloop. apply visit_inl in Hloop. subst e.
  reflexivity.
Qed.

Lemma atomic_loop_Throws (fuel : nat) (begin func : M unit) (s s' : Sys) (e : Exception) :
  atomic_loop fuel begin func s = (Throws e, s') -> shouldRetry e = false.
Proof.
  revert s. induction fuel as [|fuel IH]; intros s; cbn [atomic_loop]; [discriminate|].
  assert (Hend : forall e0 s1, shouldRetry e0 = false ->
                   (End ;;; @throw unit e0) s1 = (Throws e, s') -> shouldRetry e = false).
  { intros e0 s1 He0. unfold bind.
    destruct (End s1) as [[[]|e1| |] s2] eqn:HEnd; try discriminate.
    - unfold throw. intros Heq. injection Heq as <- _. exact He0.
    - intros Heq. injection Heq as <- _. exact (End_Throws _ _ _ HEnd). }
  unfold atomic_round.
  destruct ((begin ;;; func ;;; Commit) s) as [[[]|[what retry|what]| |] s1];
    try discriminate.
  - destruct retry; cbn [negb]; [apply IH | apply Hend; reflexivity].
  - apply Hend. reflexivity.
Qed.

(** X20: an error that asks for a retry never leaves an outermost atomic
    block.  Whatever the function does, an exception that [Atomic] or
    [AtomicRead], called outside a transaction, throws has
    [shouldRetry() = false]: the retrying [TransactionError]s of [ReadWord],
    [WriteWord] and [Commit] are caught and answered by another round. *)
Theorem retry_errors_stay_inside (s s' : Sys) (fuel : nat) (func : M unit) (e : Exception) :
  (IsReadWriteCompatible (engine s) = NO_RUNNING /\
   Atomic fuel func s = (Throws e, s')) \/
  (IsReadOnlyCompatible (engine s) = NO_RUNNING /\
   AtomicRead fuel func s = (Throws e, s')) ->
  shouldRetry e = false.
Proof.
  intros [(Houter & Hrun) | (Houter & Hrun)].
  - unfold Atomic in Hrun. rewrite bind_gets, Houter in Hrun.
    exact (atomic_loop_Throws _ _ _ _ _ _ Hrun).
  - unfold AtomicRead in Hrun. rewrite bind_gets, Houter in Hrun.
    exact (atomic_loop_Throws _ _ _ _ _ _ Hrun).
Qed.

(** The read-only block around a read-write block: the error it throws
    on does not ask for a retry. *)
Lemma retry_errors_stay_inside_witness :
  exists e s',
    AtomicRead 1 (Atomic 1 (WriteWord 1 0x1000 7 max64)) fresh = (Throws e, s') /\
    shouldRetry e = false.
Proof.
  set (block := AtomicRead 1 (Atomic 1 (WriteWord 1 0x1000 7 max64))).
  assert (Hrun : block fresh =
                 (Throws (TransactionError
                    "Cannot embed read-write transaction inside read-only transaction"
                    false), run block fresh))
    by (vm_compute; reflexivity).
  eexists. eexists. split; [exact Hrun|].
  apply (retry_errors_stay_inside fresh (run block fresh) 1
           (Atomic 1 (WriteWord 1 0x1000 7 max64))).
  right. split; [reflexivity | exact Hrun].
Defined.

Lemma atomic_loop_ends (fuel : nat) (begin func : M unit) (s s1 : Sys) (e : Exception) :
  (begin ;;; func) s = (Throws e, s1) ->
  shouldRetry e = false ->
  Z.land (state_ (engine s1)) State.RUNNING_bit = State.RUNNING_bit ->
  0 <= PooledList.next_index_ (write_set_ (engine s1)) <= 255 ->
  exists s', atomic_loop (S fuel) begin func s = (Throws e, s') /\ transaction_ended s1 s'.
Proof.
  intros Hthrows Hfinal Hrunning Hws.
  pose proof (End_runs s1 Hrunning Hws) as Hend.
  assert (Hround : (begin ;;; func ;;; Commit) s = (Throws e, s1)).
  { rewrite <- (bind_assoc begin (fun _ => func) (fun _ => Commit)).
    apply bind_Throws. exact Hthrows. }
  eexists. split.
  - cbn [atomic_loop]. unfold atomic_round. rewrite Hround.
    destruct e as [what retry|what].
    + cbn [shouldRetry] in Hfinal. subst retry. cbn [negb].
      rewrite (bind_run _ _ _ _ _ Hend). reflexivity.
    + rewrite (bind_run _ _ _ _ _ Hend). reflexivity.
  - unfold transaction_ended.
    cbn [lock_table memory global_version engine with_engine with_lock_table
         state_ read_set_ write_set_ write_data_
         with_state with_write_data with_write_set with_read_set].
    split; [|split; [|repeat split]].
    + intros j Hj. split.
      * apply (update_stripes_reaches (fun e => WriteLock.IsLocked (w_lock e) = false));
          [intros x; reflexivity | exact Hj].
      * apply (update_stripes_keeps (fun e => r_lock e = r_lock (lock_table s1 j)));
          [intros x Hx; exact Hx | reflexivity].
    + intros j Hj. apply update_stripes_elsewhere. exact Hj.
Qed.

(** X21: an exception that does not ask for a retry ends the transaction
    of an outermost atomic block and is thrown on.  When the function of an
    [Atomic] or [AtomicRead] block called outside a transaction throws such
    an exception, in a running transaction whose write set is within its
    page, the block throws the same exception after an [End]: every stripe
    the transaction had locked is free again with its read version
    untouched, the other stripes, the memory and the global version are as
    the function left them, the three buffers are empty and the engine is
    INITIALIZED. *)
Theorem Atomic_ends_on_error (s s1 : Sys) (fuel : nat) (func : M unit) (e : Exception)
    (Houter : Z.land (state_ (engine s)) State.RUNNING_bit = State.NONE_mask)
    (Hfinal : shouldRetry e = false)
    (Hrunning : Z.land (state_ (engine s1)) State.RUNNING_bit = State.RUNNING_bit)
    (Hws : 0 <= PooledList.GetSize (write_set_ (engine s1)) <= 255) :
  ((BeginReadWrite ;;; func) s = (Throws e, s1) ->
   exists s', Atomic (S fuel) func s = (Throws e, s') /\ transaction_ended s1 s') /\
  ((BeginReadOnly ;;; func) s = (Throws e, s1) ->
   exists s', AtomicRead (S fuel) func s = (Throws e, s') /\ transaction_ended s1 s').
Proof.
  split; intros Hthrows.
  - unfold Atomic. rewrite bind_gets. unfold IsReadWriteCompatible.
    rewrite Houter, Z.eqb_refl.
    exact (atomic_loop_ends fuel _ func s s1 e Hthrows Hfinal Hrunning Hws).
  - unfold AtomicRead. rewrite bind_gets. unfold IsReadOnlyCompatible.
    rewrite Houter, Z.eqb_refl.
    exact (atomic_loop_ends fuel _ func s s1 e Hthrows Hfinal Hrunning Hws).
Qed.

(** A block that writes the word at 0x1000 and then throws: the stripe is
    free again and the word is as it was. *)
Lemma Atomic_ends_on_error_witness :
  let func := WriteWord 1 0x1000 7 max64 ;;; throw (runtime_error "stop") in
  exists s',
    Atomic 1 func fresh = (Throws (runtime_error "stop"), s') /\
    WriteLock.IsLocked (w_lock (lock_table s' (GetLockIndex 0x1000))) = false /\
    memory s' 0x1000 = 0x1000 /\
    state_ (engine s') = State.INITIALIZED.
Proof.
  intros func.
  set (s1 := run (BeginReadWrite ;;; func) fresh).
  assert (Hthrows : (BeginReadWrite ;;; func) fresh = (Throws (runtime_error "stop"), s1))
    by (vm_compute; reflexivity).
  destruct (Atomic_ends_on_error fresh s1 0 func (runtime_error "stop")) as (Hatomic & _).
  - reflexivity.
  - reflexivity.
  - reflexivity.
  - vm_compute. split; discriminate.
  - destruct (Hatomic Hthrows) as (s' & Hrun & Hin & _ & Hmem & _ & _ & _ & _ & Hstate).
    exists s'. split; [exact Hrun|].
    split; [apply Hin; vm_compute; left; reflexivity|].
    split; [rewrite Hmem; reflexivity | exact Hstate].
Defined.

(** *** A block of one write *)

Lemma lor_kLockMask_nonzero (owner : Z) : Z.lor owner WriteLock.kLockMask <> 0.
Proof.
  intros E. apply (f_equal (fun z => Z.testbit z 0)) in E.
  rewrite Z.lor_spec in E. cbn in E. rewrite orb_true_r in E. discriminate.
Qed.





(** ** Initialisation *)

(** X23: [Init] takes effect once.  On an engine that is not initialised
    it returns with the engine INITIALIZED, the three buffers empty, the
    counter of initialised engines advanced by one modulo [2 ^ 32], and the
    lock table, the memory and the global version untouched.  On an engine
    in any other state, and so on its own result, it changes nothing: a
    second [Init] neither empties the buffers of a running transaction nor
    counts the engine again. *)
Theorem Init_once (s : Sys) :
  (state_ (engine s) = State.UNINITIALIZED ->
   exists s',
     Init s = (Returns tt, s') /\
     state_ (engine s') = State.INITIALIZED /\
     PooledList.Empty (read_set_ (engine s')) = true /\
     PooledList.Empty (write_set_ (engine s')) = true /\
     PooledList.Empty (write_data_ (engine s')) = true /\
     curr_offset s' = (curr_offset s + 1) mod 2 ^ 32 /\
     lock_table s' = lock_table s /\ memory s' = memory s /\
     global_version s' = global_version s) /\
  (state_ (engine s) <> State.UNINITIALIZED -> Init s = (Returns tt, s)) /\
  Init (run Init s) = (Returns tt, run Init s).
Proof.
  assert (Hfirst : state_ (engine s) = State.UNINITIALIZED ->
                   exists s', Init s = (Returns tt, s') /\
                              state_ (engine s') = State.INITIALIZED /\
                              PooledList.Empty (read_set_ (engine s')) = true /\
                              PooledList.Empty (write_set_ (engine s')) = true /\
                              PooledList.Empty (write_data_ (engine s')) = true /\
                              curr_offset s' = (curr_offset s + 1) mod 2 ^ 32 /\
                              lock_table s' = lock_table s /\ memory s' = memory s /\
                              global_version s' = global_version s).
  { intros Hstate. unfold Init. rewrite bind_gets, Hstate.
    eexists. split; [reflexivity|]. repeat split. }
  assert (Hagain : forall s0, state_ (engine s0) <> State.UNINITIALIZED ->
                              Init s0 = (Returns tt, s0)).
  { intros s0 Hstate. unfold Init. rewrite bind_gets.
    apply Z.eqb_neq in Hstate. rewrite Hstate. reflexivity. }
  split; [exact Hfirst|]. split; [apply Hagain|].
  destruct (Z.eq_dec (state_ (engine s)) State.UNINITIALIZED) as [Hstate|Hstate].
  - destruct (Hfirst Hstate) as (s' & Hrun & Hinit & _).
    unfold run. rewrite Hrun. cbn [snd]. apply Hagain. rewrite Hinit. discriminate.
  - unfold run. rewrite (Hagain s Hstate). cbn [snd]. apply Hagain. exact Hstate.
Qed.

(** The engine of the boot world is initialised once; the writer in the
    middle of its transaction keeps its write set over an [Init]. *)
Lemma Init_once_witness :
  state_ (engine (run Init (boot 64 (fun address => address)))) = State.INITIALIZED /\
  Init writer = (Returns tt, writer).
Proof.
  split.
  - destruct (proj1 (Init_once (boot 64 (fun address => address))) eq_refl)
      as (s' & Hrun & Hstate & _).
    unfold run. rewrite Hrun. exact Hstate.
  - apply (proj1 (proj2 (Init_once writer))). vm_compute. discriminate.
Defined.

(** ** The write set and the write locks *)

Lemma ReadWord_Returns_write_set (fuel : nat) (address v : Z) (s s' : Sys) :
  ReadWord fuel address s = (Returns v, s') ->
  write_set_ (engine s') = write_set_ (engine s).
Proof.
  intros Hrun. unfold ReadWord in Hrun.
  apply bind_Returns in Hrun as (mine & s0 & Hm & Hrun).
  unfold w_lock_IsLockedBy_this, gets in Hm. injection Hm as _ Hs0. subst s0.
  destruct mine.
  - apply bind_Returns in Hrun as (l & s0 & Hl & Hrun).
    unfold gets in Hl. injection Hl as _ Hs0. subst s0.
    apply bind_Returns in Hrun as (found & s0 & Hget & Hrun).
    apply lift_Returns in Hget as (_ & ->).
    apply bind_Returns in Hrun as (entry & s0 & Hd & Hrun).
    destruct found as [e|]; [|discriminate].
    unfold deref, ret in Hd. injection Hd as _ Hs0. subst s0.
    unfold gets in Hrun. injection Hrun as _ Hs'. subst s'. reflexivity.
  - apply bind_Returns in Hrun as (v1 & s0 & Hv & Hrun).
    unfold r_lock_Get, gets in Hv. injection Hv as _ Hs0. subst s0.
    apply bind_Returns in Hrun as (r & s1 & Hloop & Hrun).
    pose proof (ReadWord_loop_state fuel (GetLockIndex address) address v1 s) as Hsame.
    rewrite Hloop in Hsame. cbn [snd] in Hsame. subst s1.
    apply bind_Returns in Hrun as (entry & s2 & Hcreate & Hrun).
    apply on_list_Returns in Hcreate as (_ & ->).
    apply bind_Returns in Hrun as (version & s0 & Hv & Hrun).
    unfold gets in Hv. injection Hv as _ Hs0. subst s0.
    apply bind_Returns in Hrun as ([] & s3 & Hext & Hrun).
    unfold ret in Hrun. injection Hrun as _ Hs'. subst s'.
    destruct (snd r >? version).
    + apply extend_or_abort_Returns in Hext. subst s3. reflexivity.
    + unfold ret in Hext. injection Hext as Hs3. subst s3. reflexivity.
Qed.

Lemma WriteWord_owned_write_set (s s' : Sys) (fuel : nat) (address data mask : Z) :
  WriteLock.IsLockedBy (w_lock (lock_table s (GetLockIndex address))) (this s) = true ->
  WriteWord fuel address data mask s = (Returns tt, s') ->
  write_set_ (engine s') = write_set_ (engine s).
Proof.
  intros Hmine Hrun. unfold WriteWord in Hrun.
  apply bind_Returns in Hrun as (mine & s0 & Hm & Hrun).
  unfold w_lock_IsLockedBy_this, gets in Hm. injection Hm as Hm Hs0. subst s0.
  rewrite Hmine in Hm. subst mine.
  apply bind_Returns in Hrun as (l & s0 & Hl & Hrun).
  unfold gets in Hl. injection Hl as Hl Hs0. subst s0 l.
  apply bind_Returns in Hrun as (found & s0 & Hget & Hrun).
  apply lift_Returns in Hget as (Hget & ->).
  destruct found as [entry|].
  - unfold update_write_data, modify_engine, modify in Hrun.
    injection Hrun as Hs1. subst s'. reflexivity.
  - apply bind_Returns in Hrun as (entry & s2 & Hcreate & Hrun).
    apply on_list_Returns in Hcreate as (_ & ->).
    unfold update_write_data, modify_engine, modify in Hrun.
    injection Hrun as Hs1. subst s'. reflexivity.
Qed.

Lemma WriteWord_not_owned_write_set (s s' : Sys) (fuel : nat) (address data mask : Z) :
  WriteLock.IsLockedBy (w_lock (lock_table s (GetLockIndex address))) (this s) = false ->
  WriteWord fuel address data mask s = (Returns tt, s') ->
  0 <= PooledList.next_index_ (write_set_ (engine s)) < kBufferEntries /\
  this s' = this s /\
  lock_table s' =
    <[GetLockIndex address :=
        on_w_lock (fun _ => WriteLock.Build (Z.lor (this s) WriteLock.kLockMask))
                  (lock_table s (GetLockIndex address))]> (lock_table s) /\
  write_set_ (engine s') =
    snd (PooledList.Create kBufferEntries (write_set_ (engine s)) (GetLockIndex address)).
Proof.
  intros Hnot_mine Hrun. unfold WriteWord in Hrun.
  apply bind_Returns in Hrun as (mine & s0 & Hm & Hrun).
  unfold w_lock_IsLockedBy_this, gets in Hm. inversion Hm; subst s0. clear Hm.
  rewrite Hnot_mine in H0. subst mine.
  apply bind_Returns in Hrun as (slot & s1 & Hloop & Hrun).
  apply WriteWord_loop_Returns in Hloop as (Hfree & Hws & Hwd & -> & ->).
  apply bind_Returns in Hrun as (v & s0 & Hv & Hrun).
  unfold r_lock_Get, gets in Hv. inversion Hv; subst s0. clear Hv H0.
  apply bind_Returns in Hrun as (version & s0 & Hv & Hrun).
  unfold gets in Hv. inversion Hv; subst s0. clear Hv H0.
  apply bind_Returns in Hrun as ([] & s2 & Hext & Hrun).
  apply bind_Returns in Hrun as (data' & s3 & Hdata & Hrun).
  apply bind_Returns in Hrun as ([] & s4 & Hset & Hrun).
  destruct (CmOnWrite_Returns s4) as (s5 & Hcm & Hthis & Hlt & _ & _ & _ & Hwset & _).
  rewrite Hcm in Hrun. inversion Hrun; subst s5. clear Hrun Hcm.
  unfold update_write_data, modify_engine, modify in Hset.
  inversion Hset; subst s4. clear Hset.
  assert (Hs3 : s3 = s2).
  { destruct (negb (mask =? not64 0)).
    - unfold bind, load, gets, ret in Hdata. injection Hdata as _ Hs. auto.
    - unfold ret in Hdata. injection Hdata as _ Hs. auto. }
  subst s3.
  cbn [this lock_table engine with_engine write_set_ with_write_data] in Hthis, Hlt, Hwset.
  rewrite Hthis, Hlt, Hwset.
  split; [exact Hws|].
  destruct (v >? version).
  - apply extend_or_abort_Returns in Hext. subst s2. repeat split.
  - inversion Hext; subst s2. repeat split.
Qed.

(** The stripes of the write set after a [Create] within the page. *)
Lemma entries_Create (l : PooledList.t WriteSetEntry.t) (index : Z) :
  length (PooledList.main_pool_ l) = 255%nat ->
  0 <= PooledList.next_index_ l < kBufferEntries ->
  map WriteSetEntry.GetIndex (entries (snd (PooledList.Create kBufferEntries l index)))
    = map WriteSetEntry.GetIndex (entries l) ++ [index].
Proof.
  intros Hpage Hn. rewrite (Create_in_page l index Hn). cbn [snd].
  unfold entries. cbn [PooledList.next_index_].
  rewrite Z2Nat.inj_add by lia. change (Z.to_nat 1) with 1%nat.
  rewrite seq_app, !map_app. cbn [seq map Nat.add]. f_equal.
  - f_equal. apply map_ext_in. intros k Hk.
    apply in_seq in Hk. unfold PooledList.slot. cbn [PooledList.main_pool_].
    rewrite list_lookup_insert_ne by lia. reflexivity.
  - unfold PooledList.slot at 1. cbn [PooledList.main_pool_].
    rewrite Z2Nat.id by lia.
    rewrite list_lookup_insert_eq by (unfold kBufferEntries in Hn; lia). reflexivity.
Qed.

(** X24: the engine holds the write lock of exactly the stripes in its
    write set, through every read and write of a transaction, so that the
    [End] of the transaction leaves it without any lock.  On a write set
    with a page of 255 entries: a [ReadWord] or [WriteWord] that returns
    keeps the correspondence, and after the [WriteWord] the stripe of the
    address is among the locked ones; an [End] in a running transaction
    whose write set is within its page leaves no stripe locked by the
    engine. *)
Theorem write_set_matches_locks (s s' : Sys)
    (Hpage : length (PooledList.main_pool_ (write_set_ (engine s))) = 255%nat)
    (Hinv : locks_follow_write_set s) :
  (forall fuel address v,
     ReadWord fuel address s = (Returns v, s') -> locks_follow_write_set s') /\
  (forall fuel address data mask,
     WriteWord fuel address data mask s = (Returns tt, s') ->
     locks_follow_write_set s' /\ In (GetLockIndex address) (write_set_stripes s')) /\
  (Z.land (state_ (engine s)) State.RUNNING_bit = State.RUNNING_bit ->
   0 <= PooledList.GetSize (write_set_ (engine s)) <= 255 ->
   forall j,
     WriteLock.IsLockedBy (w_lock (lock_table (run End s) j)) (this (run End s)) = false).
Proof.
  split; [|split].
  - intros fuel address v Hread j.
    pose proof (ReadWord_Returns_write_set _ _ _ _ _ Hread) as Hws.
    apply ReadWord_Returns_frame in Hread as (Hthis & Hlocks & _).
    unfold write_set_stripes. rewrite Hws, Hthis, Hlocks. apply Hinv.
  - intros fuel address data mask Hwrite.
    destruct (WriteLock.IsLockedBy (w_lock (lock_table s (GetLockIndex address))) (this s))
      eqn:Hmine.
    + pose proof (WriteWord_owned_write_set _ _ _ _ _ _ Hmine Hwrite) as Hws.
      destruct (WriteWord_owned_Returns _ _ _ _ _ _ Hmine Hwrite) as (Hthis & Hlocks & _).
      assert (Hstripes : write_set_stripes s' = write_set_stripes s)
        by (unfold write_set_stripes; rewrite Hws; reflexivity).
      split.
      * intros j. rewrite Hstripes, Hthis, Hlocks. apply Hinv.
      * rewrite Hstripes. apply Hinv. exact Hmine.
    + destruct (WriteWord_not_owned_write_set _ _ _ _ _ _ Hmine Hwrite)
        as (Hn & Hthis & Hlocks & Hws).
      assert (Hstripes : write_set_stripes s' = write_set_stripes s ++ [GetLockIndex address])
        by (unfold write_set_stripes; rewrite Hws; apply entries_Create; assumption).
      split.
      * intros j. rewrite Hstripes, Hthis, Hlocks, in_app_iff.
        destruct (Z.eq_dec j (GetLockIndex address)) as [->|Hne].
        -- rewrite fn_lookup_insert. unfold WriteLock.IsLockedBy.
           cbn [w_lock on_w_lock WriteLock.value_]. rewrite Z.eqb_refl.
           split; [reflexivity | intros _; right; left; reflexivity].
        -- rewrite fn_lookup_insert_ne by congruence. rewrite <- (Hinv j).
           split; [intros [Hin|[E|[]]]; [exact Hin | congruence] | intros Hin; left; exact Hin].
      * rewrite Hstripes, in_app_iff. right. left. reflexivity.
  - intros Hrunning Hsize j. unfold run.
    rewrite (End_runs s Hrunning Hsize).
    cbn [snd this lock_table with_engine with_lock_table].
    destruct (in_dec Z.eq_dec j (write_set_stripes s)) as [Hin|Hout].
    + apply (update_stripes_reaches
               (fun e => WriteLock.IsLockedBy (w_lock e) (this s) = false));
        [|exact Hin].
      intros x. unfold WriteLock.IsLockedBy. cbn [w_lock on_w_lock WriteLock.Unlock
                                                   WriteLock.value_].
      apply Z.eqb_neq. intros E. symmetry in E. exact (lor_kLockMask_nonzero _ E).
    + rewrite update_stripes_elsewhere by exact Hout.
      destruct (WriteLock.IsLockedBy (w_lock (lock_table s j)) (this s)) eqn:Hj;
        [|reflexivity].
      exfalso. apply Hout. apply Hinv. exact Hj.
Qed.

(** The first write of a transaction on the initialised engine, which
    holds no lock, and the [End] of that transaction. *)
Lemma write_set_matches_locks_witness :
  locks_follow_write_set writer /\
  In (GetLockIndex 0x1000) (write_set_stripes writer) /\
  WriteLock.IsLockedBy (w_lock (lock_table (run End writer) (GetLockIndex 0x1000)))
                       (this (run End writer)) = false.
Proof.
  assert (Hstart : locks_follow_write_set (run BeginReadWrite fresh)).
  { intros j. split; [intros [] | vm_compute; discriminate]. }
  assert (Hwrite : WriteWord 1 0x1000 7 max64 (run BeginReadWrite fresh) = (Returns tt, writer))
    by (vm_compute; reflexivity).
  destruct (write_set_matches_locks (run BeginReadWrite fresh) writer eq_refl Hstart)
    as (_ & Hkept & _).
  destruct (Hkept _ _ _ _ Hwrite) as (Hinv & Hin).
  split; [exact Hinv|]. split; [exact Hin|].
  destruct (write_set_matches_locks writer writer eq_refl Hinv) as (_ & _ & Hend).
  apply Hend.
  - reflexivity.
  - vm_compute. split; discriminate.
Defined.

(** ** The random number generator *)

Lemma wrap64_testbit (a i : Z) :
  Z.testbit (wrap64 a) i = (i <? 64) && Z.testbit a i.
Proof. unfold wrap64. apply Z.testbit_mod_pow2. lia. Qed.

Lemma word_of_bits (a : Z) :
  0 <= a -> (forall i, 64 <= i -> Z.testbit a i = false) -> 0 <= a < 2 ^ 64.
Proof.
  intros Ha Hhigh.
  assert (E : a mod 2 ^ 64 = a).
  { apply Z.bits_inj'. intros i Hi. rewrite Z.testbit_mod_pow2 by lia.
    destruct (Z.ltb_spec i 64) as [Hlow|Hup]; [reflexivity|].
    rewrite Hhigh by lia. reflexivity. }
  rewrite <- E. apply Z.mod_pos_bound. lia.
Qed.

Lemma lxor_word (a b : Z) : 0 <= a < 2 ^ 64 -> 0 <= b < 2 ^ 64 -> 0 <= Z.lxor a b < 2 ^ 64.
Proof.
  intros Ha Hb. apply word_of_bits.
  - apply Z.lxor_nonneg. lia.
  - intros i Hi. rewrite Z.lxor_spec, !testbit_above_64 by lia. reflexivity.
Qed.

Lemma Rotl_testbit (x k i : Z) :
  0 <= x < 2 ^ 64 -> 0 < k < 64 -> 0 <= i ->
  Z.testbit (Xoroshiro128pp.Rotl x k) i =
    (i <? 64) && Z.testbit x ((i - k) mod 64).
Proof.
  intros Hx Hk Hi. unfold Xoroshiro128pp.Rotl.
  rewrite Z.lor_spec, wrap64_testbit, Z.shiftl_spec, Z.shiftr_spec by lia.
  destruct (Z.ltb_spec i 64) as [Hlow|Hup]; cbn [andb].
  - destruct (Z.lt_ge_cases i k) as [Hwrapped|Hplain].
    + rewrite Z.testbit_neg_r by lia. cbn [orb]. f_equal.
      apply (Z.mod_unique _ _ (-1)); lia.
    + rewrite (testbit_above_64 x (i + (64 - k))) by lia. rewrite orb_false_r. f_equal.
      symmetry. apply Z.mod_small. lia.
  - apply testbit_above_64; lia.
Qed.

Lemma Rotl_word (x k : Z) :
  0 <= x < 2 ^ 64 -> 0 < k < 64 -> 0 <= Xoroshiro128pp.Rotl x k < 2 ^ 64.
Proof.
  intros Hx Hk. apply word_of_bits.
  - unfold Xoroshiro128pp.Rotl, wrap64. apply Z.lor_nonneg. split.
    + apply Z.mod_pos_bound. lia.
    + apply Z.shiftr_nonneg. lia.
  - intros i Hi. rewrite Rotl_testbit by lia.
    destruct (Z.ltb_spec i 64); [lia | reflexivity].
Qed.

Lemma Rotl_back (x k : Z) :
  0 <= x < 2 ^ 64 -> 0 < k < 64 ->
  Xoroshiro128pp.Rotl (Xoroshiro128pp.Rotl x k) (64 - k) = x.
Proof.
  intros Hx Hk. apply Z.bits_inj'. intros i Hi.
  rewrite Rotl_testbit by (try apply Rotl_word; lia).
  destruct (Z.ltb_spec i 64) as [Hlow|Hup]; cbn [andb].
  - assert (Hj : 0 <= (i - (64 - k)) mod 64 < 64) by (apply Z.mod_pos_bound; lia).
    rewrite Rotl_testbit by lia.
    destruct (Z.ltb_spec ((i - (64 - k)) mod 64) 64) as [_|]; [|lia]. cbn [andb].
    f_equal. rewrite Zminus_mod_idemp_l.
    replace (i - (64 - k) - k) with (i + (-1) * 64) by lia.
    rewrite Z.mod_add by lia. apply Z.mod_small. lia.
  - symmetry. apply testbit_above_64; lia.
Qed.

(** X25: the generator works on 64-bit words and never gets stuck.  [Rotl]
    by [0 < k < 64] is a rotation of the 64 bits of a word: bit [i] of the
    result is bit [(i - k) mod 64] of the argument, and rotating on by
    [64 - k] gives the argument back.  [Next] on a state of two words
    returns a word and leaves a state of two words, and the state it leaves
    is all zero only if the state before was: from the seed, which is not
    zero, the generator never reaches the state in which it would return 0
    forever. *)
Theorem Xoroshiro128pp_Next_words (g : Xoroshiro128pp.t) (x k : Z)
    (Hs0 : 0 <= Xoroshiro128pp.s0_ g < 2 ^ 64)
    (Hs1 : 0 <= Xoroshiro128pp.s1_ g < 2 ^ 64)
    (Hx : 0 <= x < 2 ^ 64) (Hk : 0 < k < 64) :
  (forall i, 0 <= i < 64 ->
     Z.testbit (Xoroshiro128pp.Rotl x k) i = Z.testbit x ((i - k) mod 64)) /\
  0 <= Xoroshiro128pp.Rotl x k < 2 ^ 64 /\
  Xoroshiro128pp.Rotl (Xoroshiro128pp.Rotl x k) (64 - k) = x /\
  let '(r, g') := Xoroshiro128pp.Next g in
  0 <= r < 2 ^ 64 /\
  0 <= Xoroshiro128pp.s0_ g' < 2 ^ 64 /\
  0 <= Xoroshiro128pp.s1_ g' < 2 ^ 64 /\
  (Xoroshiro128pp.s0_ g' = 0 /\ Xoroshiro128pp.s1_ g' = 0 ->
   Xoroshiro128pp.s0_ g = 0 /\ Xoroshiro128pp.s1_ g = 0) /\
  Xoroshiro128pp.Next (Xoroshiro128pp.Build 0 0) = (0, Xoroshiro128pp.Build 0 0).
Proof.
  split.
  { intros i Hi. rewrite Rotl_testbit by lia.
    destruct (Z.ltb_spec i 64); [reflexivity | lia]. }
  split; [apply Rotl_word; assumption|].
  split; [apply Rotl_back; assumption|].
  unfold Xoroshiro128pp.Next. cbv zeta.
  cbn [Xoroshiro128pp.s0_ Xoroshiro128pp.s1_].
  set (s0 := Xoroshiro128pp.s0_ g) in *. set (s1 := Xoroshiro128pp.s1_ g) in *.
  assert (Hx1 : 0 <= Z.lxor s1 s0 < 2 ^ 64) by (apply lxor_word; assumption).
  assert (Hw : forall a, 0 <= wrap64 a < 2 ^ 64)
    by (intros a; unfold wrap64; apply Z.mod_pos_bound; lia).
  split; [apply Hw|].
  split.
  { apply lxor_word; [apply lxor_word; [apply Rotl_word; lia | exact Hx1] | apply Hw]. }
  split; [apply Rotl_word; lia|].
  split; [|reflexivity].
  intros (Hnew0 & Hnew1).
  assert (Hmix : Z.lxor s1 s0 = 0).
  { rewrite <- (Rotl_back (Z.lxor s1 s0) 28) by lia. rewrite Hnew1. reflexivity. }
  rewrite Hmix in Hnew0. change (wrap64 (Z.shiftl 0 21)) with 0 in Hnew0.
  rewrite !Z.lxor_0_r in Hnew0.
  assert (Hzero : s0 = 0).
  { rewrite <- (Rotl_back s0 49) by lia. rewrite Hnew0. reflexivity. }
  apply Z.lxor_eq in Hmix. split; [exact Hzero | congruence].
Qed.

(** A step from the seed of the engine's generator. *)
Lemma Xoroshiro128pp_Next_words_witness :
  Xoroshiro128pp.Rotl (Xoroshiro128pp.Rotl 0x8000000000000001 17) 47
    = 0x8000000000000001 /\
  0 <= fst (Xoroshiro128pp.Next Xoroshiro128pp.seed) < 2 ^ 64.
Proof.
  pose proof (Xoroshiro128pp_Next_words Xoroshiro128pp.seed 0x8000000000000001 17)
    as Hwords.
  destruct Hwords as (_ & _ & Hback & Hnext);
    [vm_compute; split; [discriminate | reflexivity]
    | vm_compute; split; [discriminate | reflexivity] | lia | lia |].
  split; [exact Hback|].
  destruct (Xoroshiro128pp.Next Xoroshiro128pp.seed) as [r g'].
  exact (proj1 Hnext).
Defined.


(** ** Reads of a stripe that is ahead of the transaction *)

Lemma Extend_runs (s : Sys) :
  0 <= PooledList.next_index_ (read_set_ (engine s)) <= 255 ->
  Extend s =
    (Returns (forallb (still_valid s) (entries (read_set_ (engine s)))),
     if forallb (still_valid s) (entries (read_set_ (engine s)))
     then with_engine s (with_version (engine s) (global_version s)) else s).
Proof.
  intros Hrs.
  assert (Hv : ValidateReadSet s =
               (Returns (forallb (still_valid s) (entries (read_set_ (engine s)))), s)).
  { unfold ValidateReadSet. rewrite bind_gets.
    rewrite range_in_page by (unfold kBufferEntries; exact Hrs).
    apply ValidateReadSet_loop_decides. }
  unfold Extend, GetGlobalVersion. rewrite bind_gets, (bind_run _ _ _ _ _ Hv).
  destruct (forallb _ _); reflexivity.
Qed.

Lemma entries_slot {T} `{PoolEntry T} (l : PooledList.t T) (e : Z) :
  0 <= e < PooledList.next_index_ l -> In (PooledList.slot l e) (entries l).
Proof.
  intros He. unfold entries. apply in_map_iff. exists (Z.to_nat e).
  split; [rewrite Z2Nat.id by lia; reflexivity|].
  apply in_seq. lia.
Qed.

(** X26: a [ReadWord] of a word whose stripe the engine does not own and
    whose read version, without lock bit, is above the version of the
    transaction, with room in the read set and the write set within its
    page.  After the stripe has its entry in the read set the whole read
    set is validated: when every entry passes, the word in memory is
    returned and the transaction continues at the global version; when one
    fails, the transaction is rolled back (the stripes of its write set are
    free, the others and the memory untouched, the three buffers empty) and
    a [TransactionError] that asks for a retry is thrown.  The entry of the
    stripe itself is validated with the others, so the read is refused
    whenever the version stored in that entry is not the one the stripe
    carries. *)
Theorem ReadWord_of_newer_stripe (s : Sys) (fuel : nat) (address : Z)
    (Hnot_mine :
       WriteLock.IsLockedBy (w_lock (lock_table s (GetLockIndex address))) (this s) = false)
    (Hunlocked :
       Z.land (ReadLock.Get (r_lock (lock_table s (GetLockIndex address))))
              ReadLock.kLockMask = 0)
    (Hnewer :
       version_ (engine s) < ReadLock.Get (r_lock (lock_table s (GetLockIndex address))))
    (Hpage : length (PooledList.main_pool_ (read_set_ (engine s))) = 255%nat)
    (Hroom : 0 <= PooledList.GetSize (read_set_ (engine s)) <= 254)
    (Hws : 0 <= PooledList.GetSize (write_set_ (engine s)) <= 255)
    (Hfuel : fuel <> O) :
  let rs := snd (PooledList.GetOrCreate kBufferEntries (read_set_ (engine s))
                   (GetLockIndex address)) in
  let s1 := with_engine s (with_read_set (engine s) rs) in
  let ok := forallb (still_valid s1) (entries rs) in
  (ok = true ->
   ReadWord fuel address s =
     (Returns (memory s address),
      with_engine s1 (with_version (engine s1) (global_version s)))) /\
  (ok = false ->
   exists s',
     ReadWord fuel address s = (Throws (TransactionError "Read inconsistent state" true), s') /\
     (forall j, In j (write_set_stripes s) ->
        WriteLock.IsLocked (w_lock (lock_table s' j)) = false) /\
     (forall j, ~ In j (write_set_stripes s) -> lock_table s' j = lock_table s j) /\
     PooledList.Empty (read_set_ (engine s')) = true /\
     PooledList.Empty (write_set_ (engine s')) = true /\
     PooledList.Empty (write_data_ (engine s')) = true /\
     memory s' = memory s /\
     state_ (engine s') = state_ (engine s)) /\
  (forall e,
     PooledList.Get kBufferEntries rs (GetLockIndex address) = inr (Some e) ->
     ReadSetEntry.GetVersion (PooledList.slot rs e)
       <> ReadLock.Get (r_lock (lock_table s (GetLockIndex address))) ->
     ok = false).
Proof.
  cbv zeta.
  destruct fuel as [|fuel]; [congruence|]. clear Hfuel.
  destruct (read_set_GetOrCreate (read_set_ (engine s)) (GetLockIndex address) Hpage Hroom)
    as (entry & rs & Hcreate & Hget & Hpage' & Hsize).
  rewrite Hcreate. cbn [snd].
  set (s1 := with_engine s (with_read_set (engine s) rs)).
  set (ok := forallb (still_valid s1) (entries rs)).
  unfold PooledList.GetSize in Hroom, Hws.
  assert (Hrun : ReadWord (S fuel) address s =
                 ((ok' <- Extend ;;
                   if negb ok' then
                     Rollback ;;; throw (TransactionError "Read inconsistent state" true)
                   else ret tt) ;;;
                  ret (memory s address)) s1).
  { unfold ReadWord. unfold bind at 1. unfold w_lock_IsLockedBy_this, gets at 1.
    rewrite Hnot_mine. unfold r_lock_Get at 1. rewrite bind_gets. cbv beta.
    assert (Hloop : ReadWord_loop (S fuel) (GetLockIndex address) address
                      (ReadLock.Get (r_lock (lock_table s (GetLockIndex address)))) s
                    = (Returns (memory s address,
                                ReadLock.Get (r_lock (lock_table s (GetLockIndex address)))),
                       s)).
    { cbn [ReadWord_loop]. rewrite Hunlocked. cbn [Z.eqb negb].
      unfold bind, load, r_lock_Get, gets, ret. rewrite Z.eqb_refl. reflexivity. }
    rewrite (bind_run _ _ _ _ _ Hloop). cbn [fst snd].
    unfold bind at 1. unfold on_list. rewrite Hcreate.
    rewrite bind_gets. cbn [engine with_engine version_ with_read_set].
    replace (ReadLock.Get (r_lock (lock_table s (GetLockIndex address)))
               >? version_ (engine s))
      with true by (symmetry; apply Z.gtb_lt; exact Hnewer).
    reflexivity. }
  assert (Hext : Extend s1 =
                 (Returns ok,
                  if ok then with_engine s1 (with_version (engine s1) (global_version s1))
                  else s1))
    by (apply (Extend_runs s1); cbn [s1 engine with_engine read_set_ with_read_set]; lia).
  split; [|split].
  - intros Hok. rewrite Hrun, bind_assoc, (bind_run _ _ _ _ _ Hext), Hok. reflexivity.
  - intros Hok. rewrite Hrun, bind_assoc, (bind_run _ _ _ _ _ Hext), Hok. cbn [negb].
    assert (Hroll := Rollback_runs s1 Hws).
    rewrite bind_assoc, (bind_run _ _ _ _ _ Hroll).
    eexists. split; [reflexivity|].
    cbn [s1 lock_table memory engine with_engine with_lock_table
         state_ read_set_ write_set_ write_data_
         with_write_data with_write_set with_read_set].
    split; [|split; [|repeat split]].
    + intros j Hj.
      apply (update_stripes_reaches (fun e => WriteLock.IsLocked (w_lock e) = false));
        [intros x; reflexivity | exact Hj].
    + intros j Hj. apply update_stripes_elsewhere. exact Hj.
  - intros e He Hstale.
    pose proof (search_spec rs (GetLockIndex address)
                  (Z.to_nat (PooledList.next_index_ rs)) 0) as Hspec.
    unfold PooledList.Get in He. rewrite He in Hspec.
    destruct Hspec as (Hrange & Hkey & _); [lia | unfold kBufferEntries; lia |].
    assert (Hin : In (PooledList.slot rs e) (entries rs)) by (apply entries_slot; lia).
    destruct ok eqn:Hok; [|reflexivity]. exfalso.
    subst ok. rewrite forallb_forall in Hok. specialize (Hok _ Hin).
    unfold still_valid in Hok. cbv zeta in Hok.
    cbn [entry_eqb ReadSetEntry_PoolEntry] in Hkey. apply Z.eqb_eq in Hkey.
    unfold ReadSetEntry.GetIndex in Hok. rewrite Hkey in Hok.
    cbn [s1 lock_table with_engine this] in Hok.
    rewrite Hunlocked in Hok. cbn [Z.eqb negb andb] in Hok. rewrite orb_false_r in Hok.
    apply Z.eqb_eq in Hok. congruence.
Qed.

(** The reader that began before the commit to 0x1000 reads the word: its
    entry of the stripe holds the version 0, the stripe carries 1. *)
Lemma ReadWord_of_newer_stripe_witness :
  exists s',
    ReadWord 1 0x1000 late_reader
      = (Throws (TransactionError "Read inconsistent state" true), s') /\
    memory s' 0x1000 = 42 /\
    PooledList.Empty (read_set_ (engine s')) = true.
Proof.
  destruct (ReadWord_of_newer_stripe late_reader 1 0x1000) as (_ & Hrefused & Hstale).
  - reflexivity.
  - reflexivity.
  - vm_compute. reflexivity.
  - reflexivity.
  - vm_compute. split; discriminate.
  - vm_compute. split; discriminate.
  - discriminate.
  - destruct Hrefused as (s' & Hrun & _ & _ & Hempty & _ & _ & Hmem & _).
    + apply (Hstale 0); [reflexivity | vm_compute; discriminate].
    + exists s'. split; [exact Hrun|]. split; [rewrite Hmem; reflexivity | exact Hempty].
Defined.
